(** * Resolution engine of the game bot: phase clock, block registry,
      resolution queue, visit inventories and the knock workflow.

    Shallow embedding of
      - bot/cogs/phases.py        (PhasesCog)
      - bot/cogs/action_queue.py  (ActionQueueCog)
      - botV2/cogs/visit_count.py (VisitCountCog)
      - bot/cogs/knocks.py        (KnocksCog)
    Python dictionaries are finite maps, Python integers are [Z], Python
    strings are [string], read as ASCII text: a character above 127 is
    neither a space, a digit nor a letter, where Python knows spaces,
    digits and letters beyond ASCII. Where a statement about every string
    would be easier to prove of this reading than it is true of the
    program, it is made for the strings with [isascii]. *)

From Stdlib Require Import ZArith String Ascii List DecimalString DecimalZ.
From stdpp Require Import gmap strings list fin_maps sorting.

Local Open Scope string_scope.
Local Open Scope Z_scope.

(** ** Python string primitives used by the cogs *)
Module PyStr.

(** [str.isspace] on one ASCII character: TAB..CR, FS..US and the blank. *)
Definition is_space (c : ascii) : bool :=
  let n := nat_of_ascii c in
  ((9 <=? n)%nat && (n <=? 13)%nat) || ((28 <=? n)%nat && (n <=? 32)%nat).

(** [str.isdigit] on one ASCII character, also the class of digits of a
    regular expression and the digits [int] reads. *)
Definition is_digit (c : ascii) : bool :=
  let n := nat_of_ascii c in (48 <=? n)%nat && (n <=? 57)%nat.

Definition is_upper (c : ascii) : bool :=
  let n := nat_of_ascii c in (65 <=? n)%nat && (n <=? 90)%nat.

Definition is_lower (c : ascii) : bool :=
  let n := nat_of_ascii c in (97 <=? n)%nat && (n <=? 122)%nat.

Definition lower_char (c : ascii) : ascii :=
  if is_upper c then ascii_of_nat (nat_of_ascii c + 32) else c.

Definition upper_char (c : ascii) : ascii :=
  if is_lower c then ascii_of_nat (nat_of_ascii c - 32) else c.

(** [s.lower()] and [s.upper()] *)
Fixpoint lower (s : string) : string :=
  match s with
  | EmptyString => EmptyString
  | String c r => String (lower_char c) (lower r)
  end.

Fixpoint upper (s : string) : string :=
  match s with
  | EmptyString => EmptyString
  | String c r => String (upper_char c) (upper r)
  end.

(** [s.title()]: a letter that follows a non-letter is upper-cased, a letter
    that follows a letter is lower-cased. *)
Fixpoint title_from (prev_cased : bool) (s : string) : string :=
  match s with
  | EmptyString => EmptyString
  | String c r =>
      let cased := is_upper c || is_lower c in
      String (if prev_cased then lower_char c else upper_char c)
             (title_from cased r)
  end.

Definition title (s : string) : string := title_from false s.

(** [s.lstrip()], [s.rstrip()], [s.strip()] *)
Fixpoint lstrip (s : string) : string :=
  match s with
  | EmptyString => EmptyString
  | String c r => if is_space c then lstrip r else s
  end.

Fixpoint all_space (s : string) : bool :=
  match s with
  | EmptyString => true
  | String c r => is_space c && all_space r
  end.

Fixpoint rstrip (s : string) : string :=
  match s with
  | EmptyString => EmptyString
  | String c r => if all_space s then EmptyString else String c (rstrip r)
  end.

Definition strip (s : string) : string := rstrip (lstrip s).

(** [s.split()]: the maximal runs of non-space characters, in order.
    [cur] is the run being read, [None] between two runs. *)
Fixpoint split_from (cur : option string) (s : string) : list string :=
  match s with
  | EmptyString => match cur with Some w => [w] | None => [] end
  | String c r =>
      if is_space c
      then match cur with
           | Some w => w :: split_from None r
           | None => split_from None r
           end
      else split_from (Some (match cur with
                             | Some w => w +:+ String c EmptyString
                             | None => String c EmptyString
                             end)) r
  end.

Definition split (s : string) : list string := split_from None s.

(** [s.isdigit()]: at least one character, all of them digits. *)
Fixpoint all_digits (s : string) : bool :=
  match s with
  | EmptyString => true
  | String c r => is_digit c && all_digits r
  end.

Definition isdigit (s : string) : bool :=
  match s with
  | EmptyString => false
  | _ => all_digits s
  end.

(** [s.startswith(p)] *)
Definition startswith (s p : string) : bool := String.prefix p s.

(** [c in s] for a one-character needle. *)
Fixpoint contains_char (c : ascii) (s : string) : bool :=
  match s with
  | EmptyString => false
  | String d r => if Ascii.eqb c d then true else contains_char c r
  end.

(** [s.split(sep, 1)] for a one-character separator: the text before the
    first [sep] and the text after it; [None] when [sep] does not occur (the
    list then has one element and indexing it at 1 raises). *)
Fixpoint split_once (sep : ascii) (s : string) : option (string * string) :=
  match s with
  | EmptyString => None
  | String c r =>
      if Ascii.eqb c sep then Some (EmptyString, r)
      else match split_once sep r with
           | Some (a, b) => Some (String c a, b)
           | None => None
           end
  end.

(** [str(n)] for an integer: decimal digits, with a leading minus sign for a
    negative number. *)
Definition str_of_int (n : Z) : string := NilZero.string_of_int (Z.to_int n).

(** [int(s)] on a decimal numeral (an optional minus sign and digits); [None]
    is the [ValueError] of Python. *)
Definition int (s : string) : option Z :=
  match NilZero.int_of_string s with
  | Some d => Some (Z.of_int d)
  | None => None
  end.

(** The longest prefix of digits of [s] and what follows it: the leading
    digits a regular expression matches, and the rest of the string. *)
Fixpoint span_digits (s : string) : string * string :=
  match s with
  | EmptyString => (EmptyString, EmptyString)
  | String c r =>
      if is_digit c
      then let '(ds, rest) := span_digits r in (String c ds, rest)
      else (EmptyString, s)
  end.

(** No character of [s] is a digit. *)
Fixpoint no_digit (s : string) : bool :=
  match s with
  | EmptyString => true
  | String c r => negb (is_digit c) && no_digit r
  end.

(** [s.isascii()]: every character is below 128. On such a string the tests
    above are those of Python and of the classes of its regular
    expressions, which beyond ASCII know further spaces, digits and
    letters. *)
Fixpoint isascii (s : string) : bool :=
  match s with
  | EmptyString => true
  | String c r => (nat_of_ascii c <? 128)%nat && isascii r
  end.

End PyStr.

(** ** botV2/cogs/visit_count.py: [VisitCountCog] *)
Module VisitCount.
Import PyStr.

(** One record of [data["income"]]. *)
Record Income := { night_income : Z; day_income : Z }.

(** [self.data]: the three dictionaries of the cog. A player's counters are
    themselves a dictionary from the visit kind to the count. *)
Record Data := {
  counts : gmap string (gmap string Z);
  income : gmap string Income;
  phase : gmap string string
}.

Definition with_counts (d : Data) (c : gmap string (gmap string Z)) : Data :=
  {| counts := c; income := income d; phase := phase d |}.

(** [{"night": 0, "day": 0, "forced": 0, "stealth": 0}] *)
Definition zero_counts : gmap string Z :=
  <["night" := 0]> (<["day" := 0]> (<["forced" := 0]> (<["stealth" := 0]> ∅))).

Definition _key (guild_id member_id : Z) : string :=
  str_of_int guild_id +:+ "_" +:+ str_of_int member_id.

Definition get_counts (d : Data) (guild_id member_id : Z) : gmap string Z :=
  default zero_counts (counts d !! _key guild_id member_id).

Definition get_income (d : Data) (guild_id member_id : Z) : Income :=
  default {| night_income := 0; day_income := 0 |}
          (income d !! _key guild_id member_id).

Definition set_income (d : Data) (guild_id member_id night day : Z) : Data :=
  {| counts := counts d;
     income := <[_key guild_id member_id :=
                  {| night_income := night; day_income := day |}]> (income d);
     phase := phase d |}.

Definition valid_kind (kind : string) : bool :=
  bool_decide (kind ∈ ["night"; "day"; "forced"; "stealth"]).

(** [add_visits]; [None] is the [ValueError] raised for an invalid kind. *)
Definition add_visits (d : Data) (guild_id member_id : Z) (kind : string)
    (amount : Z) : option Data :=
  if valid_kind kind then
    let k := _key guild_id member_id in
    let c := default zero_counts (counts d !! k) in
    Some (with_counts d (<[k := <[kind := default 0 (c !! kind) + amount]> c]> (counts d)))
  else None.

(** The result of a loop that may raise: the store when the loop ended, and
    whether it ended normally. *)
Inductive outcome := Ok (d : Data) | Raised (d : Data).

(** [int(k.split("_", 1)[1])] *)
Definition member_of_key (k : string) : option Z :=
  match split_once "_" k with
  | Some (_, rest) => int rest
  | None => None
  end.

(** One round of the loop of [reset_night] / [reset_day], for the item
    [(k, inc)] of [data["income"]]; [kind] is the counter that is set and
    [amount] the field of the income record that is read. *)
Definition reset_step (guild_id : Z) (kind : string) (amount : Income → Z)
    (o : outcome) (item : string * Income) : outcome :=
  match o with
  | Raised d => Raised d
  | Ok d =>
      let '(k, inc) := item in
      if startswith k (str_of_int guild_id +:+ "_") then
        match member_of_key k with
        | None => Raised d
        | Some _ =>
            let c := default zero_counts (counts d !! k) in
            Ok (with_counts d (<[k := <[kind := amount inc]> c]> (counts d)))
        end
      else Ok d
  end.

(** [reset_night] and [reset_day]. The items are visited in the order of the
    finite map, which need not be the insertion order of the dictionary; the
    store after a loop that ends normally does not depend on the order (each
    round writes under its own key), only the store left by a loop that
    raises does. *)
Definition reset_night (d : Data) (guild_id : Z) : outcome :=
  foldl (reset_step guild_id "night" night_income) (Ok d) (map_to_list (income d)).

Definition reset_day (d : Data) (guild_id : Z) : outcome :=
  foldl (reset_step guild_id "day" day_income) (Ok d) (map_to_list (income d)).

Definition get_phase (d : Data) (guild_id : Z) : string :=
  default "night" (phase d !! str_of_int guild_id).

(** [set_phase]; [None] is the [ValueError] for a phase other than night and
    day. *)
Definition set_phase (d : Data) (guild_id : Z) (p : string) : option Data :=
  if bool_decide (p ∈ ["night"; "day"]) then
    Some {| counts := counts d; income := income d;
            phase := <[str_of_int guild_id := p]> (phase d) |}
  else None.

Definition has_visit (d : Data) (guild_id member_id : Z) (kind : string) : bool :=
  0 <? default 0 (get_counts d guild_id member_id !! kind).

(** [consume_visit]: the new store and the boolean that is returned. The
    [setdefault] stores the zero counters of a player seen for the first
    time, also when nothing is consumed. *)
Definition consume_visit (d : Data) (guild_id member_id : Z) (kind : string)
    : Data * bool :=
  let k := _key guild_id member_id in
  let c := default zero_counts (counts d !! k) in
  let cur := default 0 (c !! kind) in
  if 0 <? cur
  then (with_counts d (<[k := <[kind := cur - 1]> c]> (counts d)), true)
  else (with_counts d (<[k := c]> (counts d)), false).

(** The invariant of the income records: [set_income] is the only writer,
    so that every key comes from [_key]. *)
Definition keys_from_key (d : Data) : Prop :=
  ∀ k, is_Some (income d !! k) → ∃ g m, k = _key g m.

End VisitCount.

(** ** bot/cogs/action_queue.py: [ActionQueueCog] *)
Module ActionQueue.
Import PyStr.

(** An element of [self.pending_abilities]. The category and the team may be
    [None]; the timestamp is the submission time on a linear scale. *)
Record PendingAction := {
  channel_id : Z;
  ability : string;
  category : option string;
  team : option string;
  timestamp : Z;
  description : string;
  status : string;
  user_id : Z
}.

Definition mark_processed (p : PendingAction) : PendingAction :=
  {| channel_id := channel_id p; ability := ability p; category := category p;
     team := team p; timestamp := timestamp p; description := description p;
     status := "processed"; user_id := user_id p |}.

(** The value of [roleblocks[key]["visit_block"]]: a dictionary with the
    optional keys until, boundary and set_at. *)
Record VisitBlock := {
  vb_until : option string;
  vb_boundary : option string;
  vb_set_at : option string
}.

(** A value of [self.roleblocks]: a dictionary with the optional keys until,
    boundary and set_at (an ability block, stored under "<channel>:<ability>")
    and visit_block (a channel record, stored under "<channel>"). *)
Record Entry := {
  until : option string;
  boundary : option string;
  set_at : option string;
  visit_block : option VisitBlock
}.

Definition empty_entry : Entry :=
  {| until := None; boundary := None; set_at := None; visit_block := None |}.

(** Truth value of a dictionary: it has a key. *)
Definition vb_nonempty (vb : VisitBlock) : bool :=
  bool_decide (is_Some (vb_until vb)) || bool_decide (is_Some (vb_boundary vb))
  || bool_decide (is_Some (vb_set_at vb)).

Definition entry_nonempty (e : Entry) : bool :=
  bool_decide (is_Some (until e)) || bool_decide (is_Some (boundary e))
  || bool_decide (is_Some (set_at e)) || bool_decide (is_Some (visit_block e)).

(** [del entry["visit_block"]] *)
Definition del_visit_block (e : Entry) : Entry :=
  {| until := until e; boundary := boundary e; set_at := set_at e;
     visit_block := None |}.

(** The state of the cog the resolution engine reads and writes. *)
Record State := {
  pending_abilities : list PendingAction;
  current_phase : string;
  visits : gmap Z (gmap string string);
  roleblocks : gmap string Entry
}.

(** The registration of an ability use by the use command: a new dictionary
    with the status pending is appended to the queue. The ability key,
    category and team were looked up by the command. *)
Definition submit (st : State) (ch_id : Z) (ability_key : string)
    (cat team : option string) (now : Z) (descr : string) (author : Z) : State :=
  {| pending_abilities :=
       pending_abilities st ++
       [{| channel_id := ch_id; ability := ability_key; category := cat;
           team := team; timestamp := now; description := descr;
           status := "pending"; user_id := author |}];
     current_phase := current_phase st;
     visits := visits st;
     roleblocks := roleblocks st |}.

(** *** The phase epoch *)

(** What follows the leading character or word of a phase token in the two
    regular expressions of the cog: optional white space, then one or more
    digits up to the end of the string. The result is the digit group. The
    end-of-string anchor also matches before a final newline. *)
Definition match_number (s : string) : option string :=
  let '(ds, rest) := span_digits (lstrip s) in
  match ds with
  | EmptyString => None
  | _ => if bool_decide (rest = "") || bool_decide (rest = String "010" "")
         then Some ds else None
  end.

(** The short form of a phase token: the letter d or n, then the number.
    The result is the letter (group 1) and the digits (group 3). *)
Definition match_short (s : string) : option (ascii * string) :=
  match s with
  | String c r =>
      if Ascii.eqb c "d" || Ascii.eqb c "n"
      then match match_number r with Some ds => Some (c, ds) | None => None end
      else None
  | EmptyString => None
  end.

(** The long form of a phase token: the word day or night, then the number.
    The result is the word (group 1) and the digits (group 2). *)
Definition match_long (s : string) : option (string * string) :=
  if startswith s "day" then
    match match_number (String.substring 3 (String.length s - 3) s) with
    | Some ds => Some ("day", ds)
    | None => None
    end
  else if startswith s "night" then
    match match_number (String.substring 5 (String.length s - 5) s) with
    | Some ds => Some ("night", ds)
    | None => None
    end
  else None.

(** The epoch of a phase of kind [is_day] and number [num]. *)
Definition epoch_of (is_day : bool) (num : Z) : Z :=
  (num - 1) * 2 + (if is_day then 0 else 1).

(** The tail of [_phase_epoch]: the short tokens d1, n2. *)
Definition short_epoch (s : string) : option Z :=
  match match_short s with
  | Some (typ, ds) =>
      match int ds with
      | Some num => Some (epoch_of (Ascii.eqb typ "d") num)
      | None => None
      end
  | None => None
  end.

Definition _phase_epoch (phase_str : string) : option Z :=
  if bool_decide (phase_str = "") then None
  else
    match split (strip phase_str) with
    | p0 :: p1 :: _ =>
        if isdigit p1 then
          match int p1 with
          | Some num => Some (epoch_of (startswith (lower p0) "d") num)
          | None => None
          end
        else short_epoch (lower (strip phase_str))
    | _ => short_epoch (lower (strip phase_str))
    end.

Definition _until_to_epoch (token : string) : option Z :=
  if bool_decide (token = "") then None
  else
    let token := lower (strip token) in
    if bool_decide (token = "forever") then None
    else
      match match_short token with
      | Some (typ, ds) =>
          match int ds with
          | Some num => Some (epoch_of (Ascii.eqb typ "d") num)
          | None => None
          end
      | None =>
          match match_long token with
          | Some (w, ds) =>
              match int ds with
              | Some num => Some (epoch_of (startswith w "d") num)
              | None => None
              end
          | None => None
          end
      end.

(** *** Expiry of blocks on a phase change *)

(** The test of [process_phase_change] on a block with a parsed expiry. *)
Definition expired (boundary : string) (new_epoch until_epoch : Z) : bool :=
  (bool_decide (boundary = "end") && (until_epoch <? new_epoch))
  || (bool_decide (boundary = "beginning") && (until_epoch <=? new_epoch)).

(** [until and until != "forever"], then the parse and the test: whether a
    block with these fields is to be removed. *)
Definition due (new_epoch : Z) (until boundary : option string) : bool :=
  match until with
  | Some u =>
      if bool_decide (u ≠ "") && bool_decide (u ≠ "forever") then
        match _until_to_epoch u with
        | Some until_epoch => expired (default "end" boundary) new_epoch until_epoch
        | None => false
        end
      else false
  | None => false
  end.

(** The body of the loop of [process_phase_change] for one key. *)
Definition sweep_key (new_epoch : Z) (rb : gmap string Entry) (key : string)
    : gmap string Entry :=
  if contains_char ":" key then
    let entry := default empty_entry (rb !! key) in
    if due new_epoch (until entry) (boundary entry) then delete key rb else rb
  else
    match rb !! key with
    | Some entry =>
        match visit_block entry with
        | Some vb =>
            if vb_nonempty vb && due new_epoch (vb_until vb) (vb_boundary vb) then
              let entry' := del_visit_block entry in
              if entry_nonempty entry' then <[key := entry']> rb
              else delete key rb
            else rb
        | None => rb
        end
    | None => rb
    end.

(** [process_phase_change] on the block registry: nothing happens when the
    new phase has no epoch; otherwise the keys present at the start are
    visited one after the other. A round reads and writes under its own key
    only, so that the order of the keys does not matter. *)
Definition process_phase_change (rb : gmap string Entry) (new_phase : string)
    : gmap string Entry :=
  match _phase_epoch new_phase with
  | None => rb
  | Some new_epoch => foldl (sweep_key new_epoch) rb (map_to_list rb).*1
  end.

Definition set_phase (st : State) (new_phase : string) : State :=
  {| pending_abilities := pending_abilities st;
     current_phase := new_phase;
     visits := visits st;
     roleblocks := process_phase_change (roleblocks st) new_phase |}.

(** *** The resolution order *)

(** [priority.get(category, 99)] *)
Definition priority (cat : option string) : Z :=
  match cat with
  | Some c =>
      if bool_decide (c = "Manipulation") then 1
      else if bool_decide (c = "Blocking") then 2
      else if bool_decide (c = "Protection") then 3
      else if bool_decide (c = "Curing") then 4
      else if bool_decide (c = "Lethal") then 5
      else if bool_decide (c = "Other") then 6
      else if bool_decide (c = "Transport") then 7
      else 99
  | None => 99
  end.

(** [team_order.index(team)], 99 on [ValueError]. *)
Fixpoint index_or_99 (team : string) (team_order : list string) (i : Z) : Z :=
  match team_order with
  | [] => 99
  | t :: r => if bool_decide (t = team) then i else index_or_99 team r (i + 1)
  end.

(** [str(item.get("category"))] *)
Definition str_of_category (cat : option string) : string :=
  match cat with Some c => c | None => "None" end.

(** [item.get("team") or "?"] *)
Definition team_or_unknown (t : option string) : string :=
  match t with
  | Some s => if bool_decide (s = "") then "?" else s
  | None => "?"
  end.

Definition team_order (cat : option string) : list string :=
  if bool_decide (lower (str_of_category cat) = "lethal")
  then ["sublime"; "shadow"; "dark"; "neutral"]
  else ["dark"; "rk"; "sublime"; "neutral"].

Definition team_idx (item : PendingAction) : Z :=
  index_or_99 (lower (team_or_unknown (team item))) (team_order (category item)) 0.

Definition sort_key (item : PendingAction) : Z * Z * Z :=
  (priority (category item), team_idx item, timestamp item).

(** Order of Python tuples of three integers. *)
Definition key_ltb (a b : Z * Z * Z) : bool :=
  let '(a1, a2, a3) := a in
  let '(b1, b2, b3) := b in
  (a1 <? b1) || ((a1 =? b1) && ((a2 <? b2) || ((a2 =? b2) && (a3 <? b3)))).

(** [sorted(l, key=key)]: the sort is stable, an element goes before the
    elements met later whose key is not smaller. *)
Fixpoint insert_by {A} (key : A → Z * Z * Z) (x : A) (l : list A) : list A :=
  match l with
  | [] => [x]
  | y :: r => if key_ltb (key y) (key x) then y :: insert_by key x r
              else x :: y :: r
  end.

Definition sorted {A} (key : A → Z * Z * Z) (l : list A) : list A :=
  foldr (insert_by key) [] l.

(** The order [os_abilities] displays. *)
Definition os_abilities (pending : list PendingAction) : list PendingAction :=
  sorted sort_key pending.

(** *** The resolve cycle *)

(** One visit taken from the entry [t] of an inventory whose value is [val]:
    a leading number is decremented and the entry is deleted when nothing is
    left; an entry without a leading number is deleted. [None] is an
    exception ([int] on the digits). *)
Definition consume_kind (t val : string) (inv : gmap string string)
    : option (gmap string string) :=
  let '(ds, rest) := span_digits val in
  match ds with
  | EmptyString => Some (delete t inv)
  | _ =>
      match int ds with
      | Some n =>
          let cnt := n - 1 in
          if cnt <=? 0 then Some (delete t inv)
          else Some (<[t := str_of_int cnt +:+ rest]> inv)
      | None => None
      end
  end.

(** The loop over the kinds, left at the first kind the inventory has. *)
Fixpoint consume_first (kinds : list string) (inv : gmap string string)
    : option (gmap string string) :=
  match kinds with
  | [] => Some inv
  | t :: r =>
      match inv !! t with
      | Some val => consume_kind t val inv
      | None => consume_first r inv
      end
  end.

Definition visit_kinds : list string := ["regular"; "stealth"; "forced"; "both"].

(** [if ch_id in self.visits and self.visits[ch_id]: ...] *)
Definition consume_for (ch_id : Z) (vs : gmap Z (gmap string string))
    : option (gmap Z (gmap string string)) :=
  match vs !! ch_id with
  | Some inv =>
      if bool_decide (inv ≠ ∅) then
        match consume_first visit_kinds inv with
        | Some inv' => Some (<[ch_id := inv']> vs)
        | None => None
        end
      else Some vs
  | None => Some vs
  end.

Definition ability_blocked (rb : gmap string Entry) (p : PendingAction) : bool :=
  bool_decide (is_Some (rb !! (str_of_int (channel_id p) +:+ ":" +:+ ability p))).

Definition visit_blocked (rb : gmap string Entry) (p : PendingAction) : bool :=
  match visit_block (default empty_entry (rb !! str_of_int (channel_id p))) with
  | Some vb => vb_nonempty vb
  | None => false
  end.

(** The state of the loop of [process_os]. The dictionaries of the queue are
    shared between [self.pending_abilities] and [ordered]: [store] holds them
    in the order of the queue, and a reference to one of them is its index
    in [store]. *)
Record Cycle := {
  store : list PendingAction;
  cycle_visits : gmap Z (gmap string string);
  processed : list nat;
  skipped : list (nat * string)
}.

Definition skip (c : Cycle) (i : nat) (reason : string) : Cycle :=
  {| store := store c; cycle_visits := cycle_visits c;
     processed := processed c; skipped := skipped c ++ [(i, reason)] |}.

(** The body of the loop for the reference [i]. *)
Definition process_one (rb : gmap string Entry) (c : Cycle) (i : nat) : Cycle :=
  match store c !! i with
  | None => c
  | Some p =>
      if ability_blocked rb p then skip c i "ability_blocked"
      else if visit_blocked rb p then skip c i "visit_blocked"
      else
        match consume_for (channel_id p) (cycle_visits c) with
        | Some vs =>
            {| store := <[i := mark_processed p]> (store c);
               cycle_visits := vs;
               processed := processed c ++ [i];
               skipped := skipped c |}
        | None => skip c i "error"
        end
  end.

(** [ordered]: the references in the order of the sort. The key of a
    reference is the key of the dictionary it refers to. *)
Definition ordered (pending : list PendingAction) : list nat :=
  (sorted (λ r : nat * PendingAction, sort_key r.2) (imap pair pending)).*1.

Definition run_cycle (st : State) : Cycle :=
  foldl (process_one (roleblocks st))
        {| store := pending_abilities st; cycle_visits := visits st;
           processed := []; skipped := [] |}
        (ordered (pending_abilities st)).

(** [process_os]: the new state, with the numbers of processed and skipped
    entries that are reported. An empty queue is reported at once. *)
Definition process_os (st : State) : State * (nat * nat) :=
  match pending_abilities st with
  | [] => (st, (0, 0))%nat
  | _ =>
      let c := run_cycle st in
      ({| pending_abilities :=
            filter (λ p, status p ≠ "processed") (store c);
          current_phase := current_phase st;
          visits := cycle_visits c;
          roleblocks := roleblocks st |},
       (length (processed c), length (skipped c)))
  end.

(** *** Vocabulary of the statements about the resolve cycle *)

(** An entry the cycle skips: its ability or the visits of its channel are
    blocked. *)
Definition blocked (rb : gmap string Entry) (p : PendingAction) : bool :=
  ability_blocked rb p || visit_blocked rb p.

(** The reason the cycle gives for a skipped entry. *)
Definition skip_reason (rb : gmap string Entry) (p : PendingAction) : string :=
  if ability_blocked rb p then "ability_blocked" else "visit_blocked".


End ActionQueue.

(** ** bot/cogs/phases.py: [PhasesCog] *)
Module Phases.
Import PyStr.

(** A value of [self.phases]. *)
Record PhaseRec := { phase : string; count : Z }.

Definition PHASE_ORDER : list string := ["pregame"; "night"; "day"; "postgame"].

Definition _get_phase_record (phases : gmap string PhaseRec) (guild_id : Z)
    : string * Z :=
  match phases !! str_of_int guild_id with
  | Some rec => (phase rec, count rec)
  | None => ("pregame", 1)
  end.

Definition is_day_or_night (p : string) : bool :=
  bool_decide (p ∈ ["day"; "night"]).

(** The display string, like Night 1 or Day 2. *)
Definition display (p : string) (n : Z) : string :=
  if is_day_or_night p then title p +:+ " " +:+ str_of_int n else p.

Definition _get_phase_for_guild (phases : gmap string PhaseRec) (guild_id : Z)
    : string :=
  let '(p, n) := _get_phase_record phases guild_id in display p n.

(** The counter [_set_phase_for_guild] stores for the new token [p]. *)
Definition new_count (old_phase : string) (old_count : Z) (p : string) : Z :=
  if negb (is_day_or_night p) then 1
  else if negb (is_day_or_night old_phase) then 1
  else if bool_decide (old_phase = "night") && bool_decide (p = "day")
       then old_count + 1
       else old_count.

Definition _set_phase_for_guild (phases : gmap string PhaseRec) (guild_id : Z)
    (p : string) : gmap string PhaseRec :=
  let '(old_phase, old_count) := _get_phase_record phases guild_id in
  let p := if bool_decide (p = "") then "pregame" else lower p in
  <[str_of_int guild_id := {| phase := p; count := new_count old_phase old_count p |}]>
    phases.

Definition reset_phase_count (phases : gmap string PhaseRec) (guild_id : Z)
    : gmap string PhaseRec :=
  let '(p, _) := _get_phase_record phases guild_id in
  <[str_of_int guild_id := {| phase := p; count := 1 |}]> phases.

(** The three cogs a phase command touches. *)
Record Bot := {
  phases : gmap string PhaseRec;
  action_queue : ActionQueue.State;
  visit_count : VisitCount.Data
}.

(** The end of [phase_set]: the inventories are refilled for night and for
    day. An exception of the visit cog is swallowed, the store is then as
    the cog left it. *)
Definition refill_visits (d : VisitCount.Data) (guild_id : Z) (p : string)
    : VisitCount.Data :=
  if bool_decide (p = "night") then
    match VisitCount.reset_night d guild_id with
    | VisitCount.Ok d' => default d' (VisitCount.set_phase d' guild_id "night")
    | VisitCount.Raised d' => d'
    end
  else if bool_decide (p = "day") then
    match VisitCount.reset_day d guild_id with
    | VisitCount.Ok d' => default d' (VisitCount.set_phase d' guild_id "day")
    | VisitCount.Raised d' => d'
    end
  else d.

Inductive Reply := UnknownPhase | PhaseSet (shown : string).

(** [phase_set]; the permissions and the announcement are effects on the
    chat platform and leave the three stores alone. *)
Definition phase_set (b : Bot) (guild_id : Z) (p : string) : Bot * Reply :=
  let p := lower p in
  if bool_decide (p ∈ PHASE_ORDER) then
    let ph := _set_phase_for_guild (phases b) guild_id p in
    let aq := ActionQueue.set_phase (action_queue b) (_get_phase_for_guild ph guild_id) in
    let vc := refill_visits (visit_count b) guild_id p in
    ({| phases := ph; action_queue := aq; visit_count := vc |},
     PhaseSet (_get_phase_for_guild ph guild_id))
  else (b, UnknownPhase).

End Phases.

(** ** bot/cogs/knocks.py: [KnocksCog.knock] *)
Module Knocks.
Import PyStr.

(** A value of [self.pending], stored under the id of the narration. *)
Record Ticket := {
  origin_channel : Z;
  player_id : Z;
  target_id : Z;
  initiator_is_overseer : bool
}.

(** What the command answers. *)
Inductive Reply :=
| LacksEnchantments (missing : list string)
| Executed (announce : bool)
| MoveFailed
| NoVisitsRemaining (phase : string)
| KnockSent
| SendFailed.

(** [consumed[e] = got] on a dictionary kept in insertion order. *)
Fixpoint dict_set (e : string) (got : bool) (consumed : list (string * bool))
    : list (string * bool) :=
  match consumed with
  | [] => [(e, got)]
  | (e', v) :: r => if bool_decide (e' = e) then (e, got) :: r
                    else (e', v) :: dict_set e got r
  end.

(** The state of the loop over the enchantments: the visit cog (absent when
    the cog is not loaded), the dictionary [consumed] and the flag [ok]. *)
Record Loop := {
  cog : option VisitCount.Data;
  consumed : list (string * bool);
  ok : bool
}.

Definition consume_enchant (overseer : bool) (guild_id member_id : Z)
    (l : Loop) (e : string) : Loop :=
  let '(cog', got) :=
    if overseer then (cog l, true)
    else match cog l with
         | Some d =>
             let '(d', got) := VisitCount.consume_visit d guild_id member_id e in
             (Some d', got)
         | None => (None, true)
         end in
  {| cog := cog'; consumed := dict_set e got (consumed l);
     ok := if got then ok l else false |}.

(** The refund after a failed move: [add_visits(..., e, 1)] for each
    enchantment, an exception being ignored. *)
Definition refund (guild_id member_id : Z) (d : VisitCount.Data)
    (enchants : list string) : VisitCount.Data :=
  foldl (λ d e, default d (VisitCount.add_visits d guild_id member_id e 1))
        d enchants.

(** [knock] from the point where the knocking member and the target manor are
    known. [overseer] is [is_overseer(ctx.author)]; [move_ok] is the result
    of [move_member_to_house] and [sent] the id of the narration message
    ([None] when sending raised), both decided by the chat platform. *)
Definition knock (cog : option VisitCount.Data) (pending : gmap Z Ticket)
    (guild_id member_id origin target : Z) (enchants : list string)
    (overseer move_ok : bool) (sent : option Z)
    : option VisitCount.Data * gmap Z Ticket * Reply :=
  match enchants with
  | _ :: _ =>
      let l := foldl (consume_enchant overseer guild_id member_id)
                     {| cog := cog; consumed := []; ok := true |} enchants in
      if negb (ok l) then
        (Knocks.cog l, pending,
         LacksEnchantments (filter (λ ev, ev.2 = false) (consumed l)).*1)
      else
        let announce := negb (bool_decide ("stealth" ∈ enchants)) in
        if move_ok then (Knocks.cog l, pending, Executed announce)
        else
          (match Knocks.cog l with
           | Some d => if overseer then Some d
                       else Some (refund guild_id member_id d enchants)
           | None => None
           end, pending, MoveFailed)
  | [] =>
      let phase := match cog with
                   | Some d => VisitCount.get_phase d guild_id
                   | None => "night"
                   end in
      let lacks := match cog with
                   | Some d => negb overseer
                               && negb (VisitCount.has_visit d guild_id member_id phase)
                   | None => false
                   end in
      if lacks then (cog, pending, NoVisitsRemaining phase)
      else
        match sent with
        | Some msg_id =>
            (cog,
             <[msg_id := {| origin_channel := origin; player_id := member_id;
                            target_id := target;
                            initiator_is_overseer := overseer |}]> pending,
             KnockSent)
        | None => (cog, pending, SendFailed)
        end
  end.

End Knocks.

(** ** Sample stores *)
Module Examples.
Import ActionQueue.

(** The ability A1 of channel 5 is blocked until the end of night 2. *)
Definition block_n2_end : Entry :=
  {| until := Some "n2"; boundary := Some "end";
     set_at := Some "2024-05-01T20:00:00"; visit_block := None |}.

(** The visits of channel 7 are blocked until day 1. *)
Definition visit_block_d1 : Entry :=
  {| until := None; boundary := None; set_at := None;
     visit_block := Some {| vb_until := Some "d1"; vb_boundary := None;
                            vb_set_at := Some "2024-05-01T20:00:00" |} |}.

Definition blocks : gmap string Entry :=
  <["5:A1" := block_n2_end]> (<["7" := visit_block_d1]> ∅).

(** Player 2 of guild 1 holds one stealth visit and no forced visit, and has
    three night visits left; no income is configured for this player. *)
Definition inventory : VisitCount.Data :=
  {| VisitCount.counts :=
       <[VisitCount._key 1 2 :=
           <["stealth" := 1]> (<["night" := 3]> VisitCount.zero_counts)]> ∅;
     VisitCount.income := ∅;
     VisitCount.phase := ∅ |}.

(** Player 4 of guild 1 has spent all night visits; the configured incomes
    are two visits a night and one a day. *)
Definition salaried : VisitCount.Data :=
  VisitCount.set_income inventory 1 4 2 1.

(** Two uses of a lethal ability, by a channel of team shadow and then by a
    channel of team dark. *)
Definition lethal_shadow : PendingAction :=
  {| channel_id := 5; ability := "A1"; category := Some "Lethal";
     team := Some "shadow"; timestamp := 100; description := "strike";
     status := "pending"; user_id := 11 |}.

Definition lethal_dark : PendingAction :=
  {| channel_id := 7; ability := "A2"; category := Some "Lethal";
     team := Some "dark"; timestamp := 200; description := "poison";
     status := "pending"; user_id := 12 |}.

(** A use of the ability A3 by channel 9, which nothing blocks. *)
Definition healing : PendingAction :=
  {| channel_id := 9; ability := "A3"; category := Some "Curing";
     team := None; timestamp := 300; description := "heal";
     status := "pending"; user_id := 13 |}.

(** A session with the three uses in the queue, the two blocks above, and
    two regular night visits for channel 9. *)
Definition session : State :=
  {| pending_abilities := [lethal_shadow; lethal_dark; healing];
     current_phase := "Night 1";
     visits := <[9 := <["regular" := "2n"]> ∅]> ∅;
     roleblocks := blocks |}.

(** Guild 1 is in night 1. *)
Definition bot : Phases.Bot :=
  {| Phases.phases := <["1" := {| Phases.phase := "night"; Phases.count := 1 |}]> ∅;
     Phases.action_queue := session;
     Phases.visit_count := salaried |}.

End Examples.

(** ** action_queue.py: the commands on blocks and on visit inventories *)
Module BlockCommands.
Import PyStr ActionQueue.

Definition with_roleblocks (st : State) (rb : gmap string Entry) : State :=
  {| pending_abilities := pending_abilities st;
     current_phase := current_phase st;
     visits := visits st;
     roleblocks := rb |}.

Definition with_visits (st : State) (vs : gmap Z (gmap string string)) : State :=
  {| pending_abilities := pending_abilities st;
     current_phase := current_phase st;
     visits := vs;
     roleblocks := roleblocks st |}.

(** The key of an ability block: the channel id, a colon, the ability key. *)
Definition rb_key (rc : Z) (key : string) : string :=
  str_of_int rc +:+ ":" +:+ key.

(** [until or "forever"] *)
Definition until_or_forever (until : option string) : string :=
  match until with
  | Some u => if bool_decide (u = "") then "forever" else u
  | None => "forever"
  end.

(** [block_ability]; [now] is the time stamp that is stored. *)
Definition block_ability (st : State) (rc : Z) (ability_key : string)
    (until : option string) (boundary : string) (now : string) : State :=
  with_roleblocks st
    (<[rb_key rc (upper ability_key) :=
         {| ActionQueue.until := Some (until_or_forever until);
            ActionQueue.boundary := Some boundary;
            set_at := Some now; visit_block := None |}]> (roleblocks st)).

(** [unblock_ability]; the boolean tells whether a block was found. *)
Definition unblock_ability (st : State) (rc : Z) (ability_key : string)
    : State * bool :=
  let k := rb_key rc (upper ability_key) in
  match roleblocks st !! k with
  | Some _ => (with_roleblocks st (delete k (roleblocks st)), true)
  | None => (st, false)
  end.

(** [visit_block]: the channel record is created when missing, and its
    visit block is replaced. No boundary is stored. *)
Definition visit_block (st : State) (rc : Z) (until : string) (now : string)
    : State :=
  let k := str_of_int rc in
  let rec := default empty_entry (roleblocks st !! k) in
  with_roleblocks st
    (<[k := {| ActionQueue.until := ActionQueue.until rec;
               ActionQueue.boundary := ActionQueue.boundary rec;
               set_at := set_at rec;
               ActionQueue.visit_block :=
                 Some {| vb_until := Some until; vb_boundary := None;
                         vb_set_at := Some now |} |}]> (roleblocks st)).

(** [unvisit_block]: the visit block is deleted from the channel record,
    which stays in the registry; the boolean tells whether one was found. *)
Definition unvisit_block (st : State) (rc : Z) : State * bool :=
  let k := str_of_int rc in
  match roleblocks st !! k with
  | Some rec =>
      match ActionQueue.visit_block rec with
      | Some _ =>
          (with_roleblocks st (<[k := del_visit_block rec]> (roleblocks st)), true)
      | None => (st, false)
      end
  | None => (st, false)
  end.

(** [(vtype or "regular").lower()] *)
Definition visit_type (vtype : option string) : string :=
  lower (match vtype with
         | Some t => if bool_decide (t = "") then "regular" else t
         | None => "regular"
         end).


(** [remove_visits]; [None] when the channel has no visits of the type. Both
    branches of the comparison with [count] delete the entry. *)
Definition remove_visits (st : State) (rc : Z) (count : string)
    (vtype : option string) : option State :=
  let t := visit_type vtype in
  match visits st !! rc with
  | Some inv =>
      match inv !! t with
      | Some val =>
          if bool_decide (val = lower count)
          then Some (with_visits st (<[rc := delete t inv]> (visits st)))
          else Some (with_visits st (<[rc := delete t inv]> (visits st)))
      | None => None
      end
  | None => None
  end.

End BlockCommands.

(** ** phases.py: the other phase commands *)
Module PhaseCommands.
Import PyStr Phases.

Definition get_phase_token (phases : gmap string PhaseRec) (guild_id : Z) : string :=
  (_get_phase_record phases guild_id).1.

(** [l.index(x)]; [None] is the [ValueError]. *)
Fixpoint index (x : string) (l : list string) : option nat :=
  match l with
  | [] => None
  | y :: r => if bool_decide (y = x) then Some 0%nat
              else match index x r with Some i => Some (S i) | None => None end
  end.

(** The token [phase_next] moves to: the one after the stored token in
    [PHASE_ORDER], around the end; a stored token that is not in the list
    counts as the first. *)
Definition next_phase (token : string) : string :=
  let idx := default 0%nat (index token PHASE_ORDER) in
  default "" (PHASE_ORDER !! ((idx + 1) mod length PHASE_ORDER)%nat).

(** [phase_next]: the action queue is not told about the new phase. *)
Definition phase_next (b : Bot) (guild_id : Z) : Bot * Reply :=
  let p := next_phase (get_phase_token (phases b) guild_id) in
  let ph := _set_phase_for_guild (phases b) guild_id p in
  ({| phases := ph; action_queue := action_queue b;
      visit_count := refill_visits (visit_count b) guild_id p |},
   PhaseSet (_get_phase_for_guild ph guild_id)).

(** The short commands [set_day] and [set_night]. *)
Definition set_day (b : Bot) (guild_id : Z) : Bot * Reply :=
  ({| phases := _set_phase_for_guild (phases b) guild_id "day";
      action_queue := action_queue b;
      visit_count := refill_visits (visit_count b) guild_id "day" |},
   PhaseSet "day").

Definition set_night (b : Bot) (guild_id : Z) : Bot * Reply :=
  ({| phases := _set_phase_for_guild (phases b) guild_id "night";
      action_queue := action_queue b;
      visit_count := refill_visits (visit_count b) guild_id "night" |},
   PhaseSet "night").

(** [phase_reset]: the counter goes back to 1 and the action queue is told
    the display string. *)
Definition phase_reset (b : Bot) (guild_id : Z) : Bot * Reply :=
  let ph := reset_phase_count (phases b) guild_id in
  ({| phases := ph;
      action_queue := ActionQueue.set_phase (action_queue b)
                        (_get_phase_for_guild ph guild_id);
      visit_count := visit_count b |},
   PhaseSet (_get_phase_for_guild ph guild_id)).

End PhaseCommands.

(** ** visit_count.py: [set_counts] *)
Module VisitCountMore.
Import PyStr VisitCount.

(** [set_counts]: the four counters are read from the dictionary that is
    given, 0 standing for a missing one, and stored as the counters of the
    player; any other key of the dictionary is dropped. *)
Definition set_counts (d : Data) (guild_id member_id : Z) (c : gmap string Z)
    : Data :=
  with_counts d
    (<[_key guild_id member_id :=
         <["night" := default 0 (c !! "night")]>
           (<["day" := default 0 (c !! "day")]>
              (<["forced" := default 0 (c !! "forced")]>
                 (<["stealth" := default 0 (c !! "stealth")]> ∅)))]> (counts d)).

End VisitCountMore.

(** ** bot/cogs/knocks.py: the arguments of [knock] and [on_message] *)
Module KnockReplies.
Import PyStr Knocks.

(** [s.replace(c, " ")] for a needle of one character. *)
Fixpoint replace_char (c : ascii) (s : string) : string :=
  match s with
  | EmptyString => EmptyString
  | String d r =>
      String (if Ascii.eqb d c then " "%char else d) (replace_char c r)
  end.

(** [sep.join(l)] *)
Fixpoint join (sep : string) (l : list string) : string :=
  match l with
  | [] => ""
  | [w] => w
  | w :: r => w +:+ sep +:+ join sep r
  end.

(** [sub in s] on strings. *)
Fixpoint contains (sub s : string) : bool :=
  match s with
  | EmptyString => String.prefix sub s
  | String _ r => String.prefix sub s || contains sub r
  end.

(** The loop that pops the leading words [stealth] and [forced], read
    without their case, off the list of tokens: the enchantments, in lower
    case, and the tokens that are left. *)
Fixpoint take_enchants (toks : list string) : list string * list string :=
  match toks with
  | [] => ([], [])
  | t :: r =>
      if bool_decide (lower t ∈ ["stealth"; "forced"])
      then let '(es, rest) := take_enchants r in (lower t :: es, rest)
      else ([], toks)
  end.

(** What [knock] makes of its argument: the usage message for a blank
    argument, the message that no target is named, or the enchantments and
    the name of the target. *)
Inductive Parsed :=
| Usage
| NoTarget
| Args (enchants : list string) (target : string).

Definition parse_args (args : string) : Parsed :=
  let raw := strip args in
  if bool_decide (raw = "") then Usage
  else
    let toks :=
      strip <$> filter (λ t, strip t ≠ "")
                  (split (replace_char "}" (replace_char "{"
                            (replace_char "," raw)))) in
    let '(enchants, toks') := take_enchants toks in
    let target := strip (join " " toks') in
    if bool_decide (target = "") then NoTarget else Args enchants target.

(** A message as [on_message] reads it. [reference] is
    [message.reference.message_id], absent also for a message that is not a
    reply. *)
Record Message := {
  author_bot : bool;
  reference : option Z;
  channel : Z;
  content : string
}.

(** What [on_message] sends and does, in order. [Move ok] is the call of
    [move_member_to_house] with its result; [Raised] is the [AttributeError]
    of [target_ch.mention] on a target that is not found. *)
Inductive Event :=
| CannotResolve
| NoVisitsToOpen (phase : string)
| Opened
| Move (ok : bool)
| OriginOpened
| FailedToMove
| Refused
| OriginRefused
| Raised.

(** [on_message]. The three lookups in the guild ([get_member] of the player,
    [get_channel] of the target and of the origin) and the result of the move
    are decided by the chat platform; the sends are taken to succeed. *)
Definition on_message (cog : option VisitCount.Data) (pending : gmap Z Ticket)
    (guild_id : Z) (message : Message)
    (player_found target_found origin_found move_ok : bool)
    : option VisitCount.Data * gmap Z Ticket * list Event :=
  if author_bot message then (cog, pending, [])
  else
    match reference message with
    | None => (cog, pending, [])
    | Some ref =>
        if ref =? 0 then (cog, pending, [])
        else
          match pending !! ref with
          | None => (cog, pending, [])
          | Some info =>
              if negb (channel message =? target_id info)
              then (cog, pending, [])
              else
                let content := strip (lower (content message)) in
                if contains "open" content then
                  if negb player_found || negb target_found
                  then (cog, delete ref pending, [CannotResolve])
                  else
                    match cog with
                    | Some d =>
                        let phase := VisitCount.get_phase d guild_id in
                        let '(d', ok_consume) :=
                          VisitCount.consume_visit d guild_id (player_id info) phase in
                        if ok_consume
                        then (Some d', delete ref pending,
                              Opened :: Move move_ok ::
                                (if move_ok
                                 then (if origin_found then [OriginOpened] else [])
                                 else [FailedToMove]))
                        else (Some d', delete ref pending, [NoVisitsToOpen phase])
                    | None =>
                        (None, delete ref pending,
                         Opened :: Move move_ok ::
                           (if move_ok
                            then (if origin_found then [OriginOpened] else [])
                            else [FailedToMove]))
                    end
                else if contains "refuse" content then
                  if origin_found && player_found
                  then if target_found
                       then (cog, delete ref pending, [Refused; OriginRefused])
                       else (cog, pending, [Refused; Raised])
                  else (cog, delete ref pending, [Refused])
                else (cog, pending, [])
          end
    end.

End KnockReplies.

(** ** action_queue.py: the abilities of a channel and the use command *)
Module Abilities.
Import PyStr ActionQueue.

(** A value of [self.abilities[chid]]. *)
Record AbilityDef := {
  category : string;
  uses : string;
  owner_channel : Z
}.

(** A Python dictionary with string keys, in the order of insertion:
    [d.get(k)], [d[k] = v] and [del d[k]]. *)
Fixpoint dict_get {A} (k : string) (d : list (string * A)) : option A :=
  match d with
  | [] => None
  | (k', v) :: r => if bool_decide (k' = k) then Some v else dict_get k r
  end.

Fixpoint dict_put {A} (k : string) (v : A) (d : list (string * A))
    : list (string * A) :=
  match d with
  | [] => [(k, v)]
  | (k', v') :: r => if bool_decide (k' = k) then (k, v) :: r
                     else (k', v') :: dict_put k v r
  end.

Fixpoint dict_del {A} (k : string) (d : list (string * A)) : list (string * A) :=
  match d with
  | [] => []
  | (k', v') :: r => if bool_decide (k' = k) then r else (k', v') :: dict_del k r
  end.

(** [s[1:]] *)
Definition tail1 (s : string) : string :=
  match s with
  | EmptyString => EmptyString
  | String _ r => r
  end.

(** [a or b] on strings. *)
Definition or_str (a b : string) : string :=
  if bool_decide (a = "") then b else a.

(** [key[1:] if key.upper().startswith("A") else key] *)
Definition num_part (key : string) : string :=
  if startswith (upper key) "A" then tail1 key else key.

(** The aliases of the categories in [give_ability]. *)
Definition cat_map : list (string * string) :=
  [("MANIPULATION", "Manipulation"); ("MANIP", "Manipulation");
   ("PROTECTION", "Protection"); ("PROT", "Protection");
   ("BLOCKING", "Blocking"); ("BLOCK", "Blocking");
   ("CURING", "Curing"); ("CURE", "Curing");
   ("INFORMATION", "Information"); ("INFO", "Information");
   ("ECONOMY", "Economy"); ("ECO", "Economy"); ("ECON", "Economy");
   ("TRANSPORT", "Transport"); ("TRANSPORTATION", "Transport");
   ("COMMUNICATION", "Communication");
   ("LETHAL", "Lethal");
   ("OTHER", "Other")].

(** [config.ABILITY_CATEGORIES] *)
Definition ABILITY_CATEGORIES : list string :=
  ["Manipulation"; "Protection"; "Blocking"; "Curing"; "Information";
   "Economy"; "Transport"; "Communication"; "Lethal"; "Other"].

Inductive GiveReply :=
| BadNumber
| InvalidCategory
| AlreadyAssigned (num existing : string)
| Assigned (key cat uses_raw : string).

(** [give_ability]: the new registry and the answer. *)
Definition give_ability (abilities : gmap Z (list (string * AbilityDef)))
    (rc : Z) (ability_key category uses : string)
    : gmap Z (list (string * AbilityDef)) * GiveReply :=
  let key := upper ability_key in
  if negb (startswith key "A" && isdigit (tail1 key)) && negb (isdigit key)
  then (abilities, BadNumber)
  else
    let cat := default (title category) (dict_get (upper category) cat_map) in
    if negb (bool_decide (cat ∈ ABILITY_CATEGORIES))
    then (abilities, InvalidCategory)
    else
      let uses_raw := lower uses in
      let abilities1 :=
        match abilities !! rc with
        | Some _ => abilities
        | None => <[rc := []]> abilities
        end in
      let chmap := default [] (abilities1 !! rc) in
      let num := num_part key in
      match List.find (λ existing, bool_decide (num_part existing = num))
                      chmap.*1 with
      | Some existing => (abilities1, AlreadyAssigned num existing)
      | None =>
          (<[rc := dict_put key {| category := cat; uses := uses_raw;
                                   owner_channel := rc |} chmap]> abilities1,
           Assigned key cat uses_raw)
      end.

(** [update_ability]; [None] when the ability is not found. The new
    category is stored as it is given. *)
Definition update_ability (abilities : gmap Z (list (string * AbilityDef)))
    (rc : Z) (ability_key new_category : string)
    : option (gmap Z (list (string * AbilityDef))) :=
  let chmap := default [] (abilities !! rc) in
  let key := upper ability_key in
  match dict_get key chmap with
  | None => None
  | Some def =>
      Some (<[rc := dict_put key {| category := new_category; uses := uses def;
                                    owner_channel := owner_channel def |} chmap]>
              abilities)
  end.

(** [remove_ability]; [None] when the ability is not found. *)
Definition remove_ability (abilities : gmap Z (list (string * AbilityDef)))
    (rc : Z) (ability_key : string)
    : option (gmap Z (list (string * AbilityDef))) :=
  let key := upper ability_key in
  match abilities !! rc with
  | Some chmap =>
      match dict_get key chmap with
      | Some _ => Some (<[rc := dict_del key chmap]> abilities)
      | None => None
      end
  | None => None
  end.

(** [set_team] *)
Definition set_team (teams : gmap Z string) (rc : Z) (team_name : string)
    : gmap Z string :=
  <[rc := lower team_name]> teams.

(** The run of characters that are not white space at the head of [s], and
    what follows it. *)
Fixpoint span_word (s : string) : string * string :=
  match s with
  | EmptyString => (EmptyString, EmptyString)
  | String c r =>
      if is_space c then (EmptyString, s)
      else let '(w, rest) := span_word r in (String c w, rest)
  end.

(** [parts = s.split(None, 1)], read as [parts[0]] and
    [parts[1] if len(parts) > 1 else ""]; [None] is the [IndexError] of
    [parts[0]] on a string of white space. *)
Definition split_first (s : string) : option (string * string) :=
  let '(w, rest) := span_word (lstrip s) in
  if bool_decide (w = "") then None else Some (w, lstrip rest).

(** The ability key that the use command reads off the first token. *)
Definition ability_key_of (first_token : string) : option string :=
  let tok := upper first_token in
  if startswith tok "A" && isdigit (tail1 tok) then Some tok
  else if isdigit first_token then Some first_token
  else None.

(** The look-up of the ability in the dictionary of the channel, under the
    key or under its other spelling: the key that is kept and the
    definition. *)
Definition lookup_ability (channel_abilities : list (string * AbilityDef))
    (ability_key : string) : option (string * AbilityDef) :=
  match dict_get ability_key channel_abilities with
  | Some def => Some (ability_key, def)
  | None =>
      let alt :=
        if startswith (upper ability_key) "A" && isdigit (tail1 ability_key)
        then Some (tail1 ability_key)
        else if isdigit ability_key then Some ("A" +:+ ability_key)
        else None in
      match alt with
      | Some alt =>
          match match dict_get (upper alt) channel_abilities with
                | Some def => Some def
                | None => dict_get alt channel_abilities
                end with
          | Some def =>
              Some (default ability_key
                      (List.find (λ k, bool_decide (upper k = upper alt))
                                 channel_abilities.*1),
                    def)
          | None => None
          end
      | None => None
      end
  end.

Inductive UseReply :=
| PlainAction
| NotFound (ability_key : string)
| Registered (ability_key : string).

(** The part of [use] that registers an ability use: [description] is the
    argument of the command, [now] the time and [author] the member.
    [None] is the [IndexError] on a description of white space. *)
Definition use (abilities : gmap Z (list (string * AbilityDef)))
    (teams : gmap Z string) (st : State) (channel : Z)
    (description : option string) (now author : Z)
    : option (State * UseReply) :=
  let rest := default "" description in
  match (if bool_decide (rest = "") then Some None
         else option_map Some (split_first rest)) with
  | None => None
  | Some None => Some (st, PlainAction)
  | Some (Some (first_token, rest)) =>
      match ability_key_of first_token with
      | None => Some (st, PlainAction)
      | Some ability_key =>
          match lookup_ability (default [] (abilities !! channel)) ability_key with
          | None => Some (st, NotFound ability_key)
          | Some (ability_key, ability_def) =>
              Some (submit st channel ability_key (Some (category ability_def))
                      (teams !! channel) now
                      (or_str rest (or_str (default "" description)
                                           "(no description)"))
                      author,
                    Registered ability_key)
          end
      end
  end.

End Abilities.

(** * Properties *)

(** ** Decimal numerals *)
Section Numerals.
Import PyStr.

Lemma all_digits_uint d : all_digits (NilEmpty.string_of_uint d) = true.
Proof. induction d; simpl; auto. Qed.

Lemma all_digits_uint0 d : all_digits (NilZero.string_of_uint d) = true.
Proof. destruct d; try apply (all_digits_uint (_ _)); reflexivity. Qed.

Lemma uint0_nonempty d : NilZero.string_of_uint d ≠ "".
Proof. destruct d; discriminate. Qed.

Lemma to_int_nonneg z : 0 ≤ z → ∃ u, Z.to_int z = Decimal.Pos u ∧ u ≠ Decimal.Nil.
Proof.
  destruct z as [|p|p]; intros Hz; try lia.
  - exists (Decimal.D0 Decimal.Nil). split; [reflexivity | discriminate].
  - exists (Pos.to_uint p). split; [reflexivity |].
    apply DecimalPos.Unsigned.to_uint_nonnil.
Qed.

Lemma to_int_proper z : Z.to_int z ≠ Decimal.Pos Decimal.Nil ∧ Z.to_int z ≠ Decimal.Neg Decimal.Nil.
Proof.
  destruct z as [|p|p]; simpl; split; try discriminate;
    intros [= H]; by apply DecimalPos.Unsigned.to_uint_nonnil in H.
Qed.

(** Reading back a printed integer. *)
Lemma int_str_of_int z : int (str_of_int z) = Some z.
Proof.
  unfold int, str_of_int.
  destruct (to_int_proper z) as [H1 H2].
  rewrite NilZero.isi by assumption. by rewrite DecimalZ.of_to.
Qed.

Lemma str_of_int_inj z1 z2 : str_of_int z1 = str_of_int z2 → z1 = z2.
Proof.
  intros H. assert (Some z1 = Some z2) as [= ->]; [|done].
  by rewrite <- !int_str_of_int, H.
Qed.

Lemma isdigit_str_of_int z : 0 ≤ z → isdigit (str_of_int z) = true.
Proof.
  intros [u [Hu Hn]]%to_int_nonneg. unfold str_of_int. rewrite Hu. simpl.
  unfold isdigit. pose proof (uint0_nonempty u).
  destruct (NilZero.string_of_uint u) eqn:E; [done|].
  rewrite <- E. apply all_digits_uint0.
Qed.

End Numerals.

(** ** Words and numbers in phase strings *)
Section PhaseStrings.
Import PyStr ActionQueue.

Lemma append_cons c s t : String c s +:+ t = String c (s +:+ t).
Proof. reflexivity. Qed.

Lemma append_nil_r s : s +:+ "" = s.
Proof. induction s as [|c s IH]; [done|]. by rewrite append_cons, IH. Qed.

Lemma append_assoc s t u : (s +:+ t) +:+ u = s +:+ (t +:+ u).
Proof. induction s as [|c s IH]; [done|]. by rewrite !append_cons, IH. Qed.

Lemma digit_not_space c : is_digit c = true → is_space c = false.
Proof.
  destruct c as [[|] [|] [|] [|] [|] [|] [|] [|]]; vm_compute; congruence.
Qed.

Lemma all_space_digits s : all_digits s = true → s ≠ "" → all_space s = false.
Proof.
  destruct s as [|c r]; [done|]. simpl. intros [Hc _]%andb_prop _.
  by rewrite (digit_not_space c Hc).
Qed.

Lemma all_space_app_digits w s :
  all_digits s = true → s ≠ "" → all_space (w +:+ s) = false.
Proof.
  intros Hs Hn. induction w as [|c w IH]; simpl.
  - by apply all_space_digits.
  - rewrite IH. apply andb_false_r.
Qed.

Lemma rstrip_digits s : all_digits s = true → rstrip s = s.
Proof.
  induction s as [|d r IHr]; [done|]. intros Hs.
  simpl in Hs. apply andb_prop in Hs as [Hd Hr].
  change (rstrip (String d r)) with
    (if all_space (String d r) then "" else String d (rstrip r)).
  simpl. rewrite (digit_not_space d Hd). simpl. by rewrite IHr.
Qed.

Lemma rstrip_app_digits w s :
  all_digits s = true → s ≠ "" → rstrip (w +:+ s) = w +:+ s.
Proof.
  intros Hs Hn. induction w as [|c w IH].
  - by apply rstrip_digits.
  - change (rstrip (String c w +:+ s)) with
      (if all_space (String c (w +:+ s)) then "" else String c (rstrip (w +:+ s))).
    pose proof (all_space_app_digits (String c w) s Hs Hn) as H.
    change (String c w +:+ s) with (String c (w +:+ s)) in H.
    rewrite H. by rewrite IH.
Qed.

Lemma split_from_digits cur s :
  all_digits s = true →
  split_from (Some cur) s = [cur +:+ s].
Proof.
  revert cur. induction s as [|d r IH]; intros cur Hs; simpl.
  - by rewrite append_nil_r.
  - simpl in Hs. apply andb_prop in Hs as [Hd Hr].
    rewrite (digit_not_space d Hd). rewrite IH by done.
    by rewrite append_assoc.
Qed.

Lemma split_digits s : all_digits s = true → s ≠ "" → split s = [s].
Proof.
  destruct s as [|d r]; [done|]. intros Hs _. unfold split. simpl.
  simpl in Hs. apply andb_prop in Hs as [Hd Hr].
  rewrite (digit_not_space d Hd). by rewrite split_from_digits.
Qed.

(** The epoch of a string made of a word starting with a letter, one blank
    and a printed number. *)
Lemma phase_epoch_day n :
  0 ≤ n → _phase_epoch ("Day " +:+ str_of_int n) = Some ((n - 1) * 2).
Proof.
  intros Hn. pose proof (isdigit_str_of_int n Hn) as Hd.
  assert (all_digits (str_of_int n) = true ∧ str_of_int n ≠ "") as [Ha He].
  { unfold isdigit in Hd. destruct (str_of_int n); [done|]. by split. }
  unfold _phase_epoch. rewrite bool_decide_eq_false_2 by done.
  unfold strip. change (lstrip ("Day " +:+ str_of_int n)) with ("Day " +:+ str_of_int n).
  rewrite rstrip_app_digits by done.
  change (split ("Day " +:+ str_of_int n)) with ("Day" :: split (str_of_int n)).
  rewrite split_digits by done. rewrite Hd, int_str_of_int.
  f_equal. unfold epoch_of.
  replace (startswith (lower "Day") "d") with true by reflexivity. lia.
Qed.

Lemma phase_epoch_night n :
  0 ≤ n → _phase_epoch ("Night " +:+ str_of_int n) = Some ((n - 1) * 2 + 1).
Proof.
  intros Hn. pose proof (isdigit_str_of_int n Hn) as Hd.
  assert (all_digits (str_of_int n) = true ∧ str_of_int n ≠ "") as [Ha He].
  { unfold isdigit in Hd. destruct (str_of_int n); [done|]. by split. }
  unfold _phase_epoch. rewrite bool_decide_eq_false_2 by done.
  unfold strip. change (lstrip ("Night " +:+ str_of_int n)) with ("Night " +:+ str_of_int n).
  rewrite rstrip_app_digits by done.
  change (split ("Night " +:+ str_of_int n)) with ("Night" :: split (str_of_int n)).
  rewrite split_digits by done. rewrite Hd, int_str_of_int.
  f_equal.
Qed.

End PhaseStrings.

(** ** Phase strings without a digit *)
Section NoDigit.
Import PyStr ActionQueue.

Lemma no_digit_app s t : no_digit (s +:+ t) = no_digit s && no_digit t.
Proof.
  induction s as [|c s IH]; [done|].
  rewrite append_cons. simpl. rewrite IH. by rewrite andb_assoc.
Qed.

Lemma lower_char_digit c : is_digit (lower_char c) = is_digit c.
Proof. destruct c as [[|] [|] [|] [|] [|] [|] [|] [|]]; reflexivity. Qed.

Lemma no_digit_lower s : no_digit (lower s) = no_digit s.
Proof. induction s as [|c s IH]; [done|]. simpl. by rewrite lower_char_digit, IH. Qed.

Lemma no_digit_lstrip s : no_digit s = true → no_digit (lstrip s) = true.
Proof.
  induction s as [|c s IH]; [done|]. simpl. intros [Hc Hs]%andb_prop.
  destruct (is_space c); [auto|]. simpl. by rewrite Hc, Hs.
Qed.

Lemma no_digit_rstrip s : no_digit s = true → no_digit (rstrip s) = true.
Proof.
  induction s as [|c s IH]; [done|]. intros H.
  change (rstrip (String c s)) with
    (if all_space (String c s) then "" else String c (rstrip s)).
  destruct (all_space (String c s)); [done|].
  simpl in *. apply andb_prop in H as [Hc Hs]. by rewrite Hc, IH.
Qed.

Lemma no_digit_strip s : no_digit s = true → no_digit (strip s) = true.
Proof. intros H. by apply no_digit_rstrip, no_digit_lstrip. Qed.

Lemma no_digit_split_from cur s w :
  no_digit s = true → from_option no_digit true cur = true →
  w ∈ split_from cur s → no_digit w = true.
Proof.
  revert cur. induction s as [|c s IH]; intros cur Hs Hcur Hw; simpl in *.
  - destruct cur; [|by apply elem_of_nil in Hw].
    apply list_elem_of_singleton in Hw. by subst.
  - apply andb_prop in Hs as [Hc Hs]. destruct (is_space c).
    + destruct cur as [v|].
      * apply elem_of_cons in Hw as [->|Hw]; [done|]. by apply (IH None).
      * by apply (IH None).
    + eapply IH; [done| |exact Hw]. destruct cur as [v|]; simpl in *.
      * rewrite no_digit_app, Hcur. simpl. by rewrite Hc.
      * by rewrite Hc.
Qed.

Lemma no_digit_isdigit s : no_digit s = true → isdigit s = false.
Proof.
  destruct s as [|c s]; [done|]. simpl. intros [Hc _]%andb_prop.
  by destruct (is_digit c).
Qed.

Lemma no_digit_span s : no_digit s = true → (span_digits s).1 = "".
Proof.
  destruct s as [|c s]; [done|]. simpl. intros [Hc _]%andb_prop.
  by destruct (is_digit c).
Qed.

Lemma no_digit_match_number s : no_digit s = true → match_number s = None.
Proof.
  intros H. unfold match_number.
  pose proof (no_digit_span _ (no_digit_lstrip _ H)) as Hd.
  destruct (span_digits (lstrip s)) as [ds rest]. simpl in Hd. by subst.
Qed.

Lemma no_digit_short_epoch s : no_digit s = true → short_epoch s = None.
Proof.
  intros H. unfold short_epoch, match_short. destruct s as [|c r]; [done|].
  simpl in H. apply andb_prop in H as [_ Hr].
  rewrite (no_digit_match_number r Hr). by destruct (_ || _).
Qed.

Lemma no_digit_phase_epoch s : no_digit s = true → _phase_epoch s = None.
Proof.
  intros H. unfold _phase_epoch. case_bool_decide; [done|].
  assert (short_epoch (lower (strip s)) = None) as Hshort.
  { apply no_digit_short_epoch. rewrite no_digit_lower. by apply no_digit_strip. }
  destruct (split (strip s)) as [|p0 [|p1 ps]] eqn:E; try done.
  assert (no_digit p1 = true) as Hp1.
  { apply (no_digit_split_from None (strip s)); [by apply no_digit_strip|done|].
    fold (split (strip s)). rewrite E. set_solver. }
  by rewrite (no_digit_isdigit p1 Hp1).
Qed.

End NoDigit.

(** ** The phase clock *)
Section PhaseClock.
Import PyStr ActionQueue Phases.

(** C7 (as stated, refuted): a string that is not a display string Day n or
    Night n can have an epoch; the short token n2 has the epoch of Night 2,
    as has the until token of a block. *)
Lemma C7_short_token_has_epoch :
  _phase_epoch "n2" = Some 3 ∧
  _until_to_epoch "n2" = Some 3 ∧
  ¬ (∀ s : string,
       (∀ n : Z, s ≠ display "day" n ∧ s ≠ display "night" n) →
       _phase_epoch s = None).
Proof.
  split; [reflexivity|]. split; [reflexivity|].
  intros H. specialize (H "n2"). assert (_phase_epoch "n2" = Some 3) as E by reflexivity.
  rewrite H in E; [discriminate|]. intros n. split; discriminate.
Qed.

End PhaseClock.

Section PhaseSet.
Import PyStr ActionQueue Phases.

Lemma get_phase_record_set phs g p :
  _get_phase_record (_set_phase_for_guild phs g p) g =
  (if bool_decide (p = "") then "pregame" else lower p,
   new_count (_get_phase_record phs g).1 (_get_phase_record phs g).2
             (if bool_decide (p = "") then "pregame" else lower p)).
Proof.
  unfold _set_phase_for_guild. destruct (_get_phase_record phs g) as [op oc] eqn:E.
  unfold _get_phase_record at 1. by rewrite lookup_insert_eq.
Qed.

(** C4: a phase token that is not one of pregame, night, day, postgame (the
    token is compared in lower case) is refused and nothing is stored; for day
    and night the stored counter is 1 when the previous token was neither day
    nor night, the previous counter plus one from night to day, and the
    previous counter from day to night, day to day and night to night. *)
Theorem C4_phase_set_counter (b : Bot) (guild_id : Z) (p : string) :
  (lower p ∉ ["pregame"; "day"; "night"; "postgame"] →
     phase_set b guild_id p = (b, UnknownPhase)) ∧
  (lower p ∈ ["day"; "night"] →
     ∃ c, _get_phase_record (phases (phase_set b guild_id p).1) guild_id = (lower p, c) ∧
       let '(old_phase, old_count) := _get_phase_record (phases b) guild_id in
       (old_phase ∉ ["day"; "night"] → c = 1) ∧
       (old_phase = "night" → lower p = "day" → c = old_count + 1) ∧
       (old_phase = "day" → lower p = "night" → c = old_count) ∧
       (old_phase = "day" → lower p = "day" → c = old_count) ∧
       (old_phase = "night" → lower p = "night" → c = old_count)).
Proof.
  split.
  - intros Hp. unfold phase_set. rewrite bool_decide_eq_false_2; [done|].
    unfold PHASE_ORDER. intros Hin. apply Hp.
    rewrite !elem_of_cons in Hin. rewrite !elem_of_cons. tauto.
  - intros Hp. unfold phase_set.
    rewrite bool_decide_eq_true_2
      by (unfold PHASE_ORDER; rewrite !elem_of_cons in Hp; rewrite !elem_of_cons; tauto).
    simpl. rewrite get_phase_record_set.
    destruct (_get_phase_record (phases b) guild_id) as [op oc]. simpl.
    assert ((if bool_decide (lower p = "") then "pregame" else lower (lower p)) = lower p) as ->.
    { apply elem_of_cons in Hp as [->|Hp]; [done|].
      apply list_elem_of_singleton in Hp as ->. done. }
    eexists. split; [reflexivity|].
    unfold new_count, is_day_or_night.
    rewrite (bool_decide_eq_true_2 (lower p ∈ ["day"; "night"])) by done. simpl.
    repeat split.
    + intros Hop. by rewrite (bool_decide_eq_false_2 _ Hop).
    + intros -> ->. done.
    + intros -> ->. done.
    + intros -> ->. done.
    + intros -> ->. done.
Qed.

(** C4 at work: from night 1, the token Day gives day 2, and the token dusk
    is refused. *)
Lemma C4_phase_set_counter_witness :
  lower "Day" ∈ ["day"; "night"] ∧
  _get_phase_record (phases (phase_set Examples.bot 1 "Day").1) 1 = ("day", 2) ∧
  (lower "dusk" ∉ ["pregame"; "day"; "night"; "postgame"]) ∧
  phase_set Examples.bot 1 "dusk" = (Examples.bot, UnknownPhase).
Proof.
  assert (lower "Day" ∈ ["day"; "night"]) as P1 by (apply elem_of_cons; by left).
  assert (lower "dusk" ∉ ["pregame"; "day"; "night"; "postgame"]) as P2.
  { rewrite !elem_of_cons, elem_of_nil. intros [H|[H|[H|[H|[]]]]]; discriminate H. }
  destruct (C4_phase_set_counter Examples.bot 1 "Day") as [_ H].
  destruct (H P1) as (c & Hc & _ & Hinc & _).
  destruct (C4_phase_set_counter Examples.bot 1 "dusk") as [H' _].
  split; [exact P1|]. split; [|split; [exact P2|exact (H' P2)]].
  rewrite Hc. f_equal. exact (Hinc eq_refl eq_refl).
Defined.

End PhaseSet.

(** ** Expiry of blocks *)
Section Sweep.
Import PyStr ActionQueue.

(** A round of the loop touches the key it visits and no other. *)
Lemma sweep_key_other e rb k k' : k ≠ k' → sweep_key e rb k !! k' = rb !! k'.
Proof.
  intros Hk. unfold sweep_key.
  repeat (case_match; simplify_eq);
    (rewrite ?lookup_delete_ne, ?lookup_insert_ne by done); done.
Qed.

(** What a round leaves under its key depends on what was under that key. *)
Lemma sweep_key_local e rb1 rb2 k :
  rb1 !! k = rb2 !! k → sweep_key e rb1 k !! k = sweep_key e rb2 k !! k.
Proof.
  intros Hk. unfold sweep_key. rewrite <- Hk.
  repeat (case_match; simplify_eq);
    rewrite ?lookup_delete_eq, ?lookup_insert_eq; congruence.
Qed.

Lemma sweep_key_absent e rb k : rb !! k = None → sweep_key e rb k !! k = None.
Proof.
  intros Hk. unfold sweep_key. rewrite Hk.
  repeat (case_match; simplify_eq); rewrite ?lookup_delete_eq; done.
Qed.

Lemma sweep_keys_lookup e keys : ∀ rb k,
  NoDup keys →
  foldl (sweep_key e) rb keys !! k =
  if bool_decide (k ∈ keys) then sweep_key e rb k !! k else rb !! k.
Proof.
  induction keys as [|k0 keys IH]; intros rb k Hnd; cbn [foldl].
  - case_bool_decide as Hin; [by apply elem_of_nil in Hin|done].
  - apply NoDup_cons in Hnd as [Hk0 Hnd]. rewrite IH by done.
    destruct (decide (k = k0)) as [->|Hne].
    + rewrite (bool_decide_eq_false_2 (k0 ∈ keys)) by done.
      by rewrite bool_decide_eq_true_2 by (apply elem_of_cons; by left).
    + case_bool_decide as Hin.
      * rewrite bool_decide_eq_true_2 by (apply elem_of_cons; by right).
        apply sweep_key_local. by apply sweep_key_other.
      * rewrite bool_decide_eq_false_2.
        -- by apply sweep_key_other.
        -- intros [?|?]%elem_of_cons; done.
Qed.

(** The sweep, key by key. *)
Lemma process_phase_change_lookup rb new_phase e k :
  _phase_epoch new_phase = Some e →
  process_phase_change rb new_phase !! k = sweep_key e rb k !! k.
Proof.
  intros He. unfold process_phase_change. rewrite He.
  rewrite sweep_keys_lookup by apply NoDup_fst_map_to_list.
  case_bool_decide as Hin; [done|].
  assert (rb !! k = None) as Hk.
  { apply eq_None_not_Some. intros [x Hx]. apply Hin.
    apply list_elem_of_fmap. exists (k, x). split; [done|].
    by apply elem_of_map_to_list. }
  by rewrite sweep_key_absent.
Qed.

End Sweep.

Section SweepClaims.
Import PyStr ActionQueue.

Lemma expired_spec b e ue :
  expired b e ue = true ↔ (b = "end" ∧ ue < e) ∨ (b = "beginning" ∧ ue ≤ e).
Proof.
  unfold expired. rewrite orb_true_iff, !andb_true_iff, !bool_decide_eq_true.
  rewrite Z.ltb_lt, Z.leb_le. tauto.
Qed.

Lemma until_parsed_proper u ue :
  _until_to_epoch u = Some ue → u ≠ "" ∧ u ≠ "forever".
Proof. intros H. split; intros ->; discriminate. Qed.

Lemma due_parsed e u ue b :
  _until_to_epoch u = Some ue →
  due e (Some u) b = expired (default "end" b) e ue.
Proof.
  intros H. destruct (until_parsed_proper u ue H) as [H1 H2]. unfold due.
  rewrite !bool_decide_eq_true_2 by done. simpl. by rewrite H.
Qed.

Lemma due_unparsed e u b : _until_to_epoch u = None → due e (Some u) b = false.
Proof. intros H. unfold due. rewrite H. by destruct (_ && _). Qed.

(** C2: on a change to a phase that has an epoch, an ability block (stored
    under a key with a colon) whose expiry parses is removed exactly when its
    boundary is end and the new epoch is beyond the expiry, or its boundary
    is beginning and the new epoch has reached the expiry; otherwise it stays
    as it was. The same holds for the visit block of a channel record (key
    without a colon), whose boundary is end unless one is stored. A block
    until forever, and a block whose expiry does not parse, stay in place. *)
Theorem C2_sweep_expiry (rb : gmap string Entry) (new_phase : string)
    (new_epoch : Z) (key : string) (entry : Entry) :
  _phase_epoch new_phase = Some new_epoch →
  rb !! key = Some entry →
  let rb' := process_phase_change rb new_phase in
  (contains_char ":" key = true →
     (∀ u until_epoch,
        until entry = Some u → _until_to_epoch u = Some until_epoch →
        let b := default "end" (boundary entry) in
        (rb' !! key = None ↔
           (b = "end" ∧ until_epoch < new_epoch)
           ∨ (b = "beginning" ∧ until_epoch ≤ new_epoch)) ∧
        (rb' !! key ≠ None → rb' !! key = Some entry)) ∧
     (until entry = Some "forever" → rb' !! key = Some entry) ∧
     (∀ u, until entry = Some u → _until_to_epoch u = None →
           rb' !! key = Some entry)) ∧
  (contains_char ":" key = false →
     ∀ vb, visit_block entry = Some vb →
     (∀ u until_epoch,
        vb_until vb = Some u → _until_to_epoch u = Some until_epoch →
        let b := default "end" (vb_boundary vb) in
        (rb' !! key ≫= visit_block = None ↔
           (b = "end" ∧ until_epoch < new_epoch)
           ∨ (b = "beginning" ∧ until_epoch ≤ new_epoch)) ∧
        (rb' !! key ≫= visit_block ≠ None → rb' !! key = Some entry)) ∧
     (vb_until vb = Some "forever" → rb' !! key = Some entry) ∧
     (∀ u, vb_until vb = Some u → _until_to_epoch u = None →
           rb' !! key = Some entry)).
Proof.
  intros He Hk rb'. subst rb'.
  rewrite (process_phase_change_lookup rb new_phase new_epoch key He).
  unfold sweep_key. rewrite Hk. simpl. split; intros Hc; rewrite Hc.
  - split; [|split].
    + intros u ue Hu Hp. rewrite Hu, (due_parsed _ _ _ _ Hp).
      rewrite <- expired_spec.
      destruct (expired _ new_epoch ue).
      * rewrite lookup_delete_eq. by split.
      * rewrite Hk. split; [|done]. split; intros [=].
    + intros Hu. by rewrite Hu.
    + intros u Hu Hp. by rewrite Hu, (due_unparsed _ _ _ Hp).
  - intros vb Hvb. rewrite Hvb.
    split; [|split].
    + intros u ue Hu Hp.
      assert (vb_nonempty vb = true) as ->.
      { unfold vb_nonempty. rewrite Hu. done. }
      rewrite Hu, (due_parsed _ _ _ _ Hp). rewrite <- expired_spec.
      simpl. destruct (expired _ new_epoch ue).
      * destruct (entry_nonempty (del_visit_block entry)).
        -- rewrite lookup_insert_eq. simpl. by split.
        -- rewrite lookup_delete_eq. simpl. by split.
      * rewrite Hk. simpl. rewrite Hvb. split; [|done]. split; intros [=].
    + intros Hu. rewrite Hu. simpl. by rewrite andb_false_r.
    + intros u Hu Hp. rewrite Hu, (due_unparsed _ _ _ Hp). by rewrite andb_false_r.
Qed.

End SweepClaims.

Section SweepFrame.
Import PyStr ActionQueue Phases.

(** The until tokens of blocks and the display strings of the clock are on
    the same scale. *)
Lemma until_epoch_examples :
  _until_to_epoch "Night 2" = _phase_epoch "Night 2" ∧
  _until_to_epoch "n2" = _phase_epoch "Night 2" ∧
  _until_to_epoch "d3" = _phase_epoch "Day 3" ∧
  _until_to_epoch "day3" = _phase_epoch "Day 3" ∧
  _until_to_epoch "forever" = None ∧
  _until_to_epoch "soon" = None.
Proof. repeat split. Qed.

(** C2 at work: the block until the end of night 2 is gone on day 3. *)
Lemma C2_sweep_expiry_witness :
  _phase_epoch "Day 3" = Some 4 ∧
  Examples.blocks !! "5:A1" = Some Examples.block_n2_end ∧
  (process_phase_change Examples.blocks "Day 3" !! "5:A1" = None ↔
     ("end" = "end" ∧ 3 < 4) ∨ ("end" = "beginning" ∧ 3 ≤ 4)).
Proof.
  split; [reflexivity|]. split; [reflexivity|].
  pose proof (C2_sweep_expiry Examples.blocks "Day 3" 4 "5:A1"
                Examples.block_n2_end eq_refl eq_refl) as [H _].
  destruct (H eq_refl) as [H1 _].
  exact (proj1 (H1 "n2" 3 eq_refl eq_refl)).
Defined.

Lemma get_phase_for_guild_set phs g p :
  p ∈ ["pregame"; "postgame"] →
  _get_phase_for_guild (_set_phase_for_guild phs g p) g = p.
Proof.
  intros Hp. unfold _get_phase_for_guild. rewrite get_phase_record_set.
  rewrite !elem_of_cons, elem_of_nil in Hp. by destruct Hp as [->|[->|[]]].
Qed.

(** C10: a change to a phase string that has no epoch leaves the block
    registry as it was, whatever the expiries of the blocks; in particular
    a phase command for a token other than day and night (pregame, postgame,
    or a token that is refused) removes no block. *)
Theorem C10_no_epoch_no_sweep (st : State) (new_phase : string) :
  _phase_epoch new_phase = None →
  process_phase_change (roleblocks st) new_phase = roleblocks st ∧
  roleblocks (set_phase st new_phase) = roleblocks st ∧
  (∀ (b : Bot) (guild_id : Z) (p : string),
      lower p ∉ ["day"; "night"] →
      roleblocks (action_queue (phase_set b guild_id p).1)
      = roleblocks (action_queue b)).
Proof.
  intros He. assert (∀ rb, process_phase_change rb new_phase = rb) as Hsame.
  { intros rb. unfold process_phase_change. by rewrite He. }
  split; [apply Hsame|]. split; [apply Hsame|].
  intros b g p Hp. unfold phase_set. case_bool_decide as Hin; [|done].
  simpl. rewrite get_phase_for_guild_set.
  - unfold PHASE_ORDER in Hin. rewrite !elem_of_cons, elem_of_nil in Hin.
    destruct Hin as [->|[Hn|[Hd|[->|[]]]]]; try reflexivity;
      exfalso; apply Hp; rewrite !elem_of_cons; tauto.
  - unfold PHASE_ORDER in Hin. rewrite !elem_of_cons, elem_of_nil in Hin.
    rewrite !elem_of_cons.
    destruct Hin as [?|[Hn|[Hd|[?|[]]]]]; try tauto;
      exfalso; apply Hp; rewrite !elem_of_cons; tauto.
Qed.

(** C10 at work: the block that day 3 removes survives the change to
    postgame. *)
Lemma C10_no_epoch_no_sweep_witness :
  _phase_epoch "postgame" = None ∧
  process_phase_change Examples.blocks "postgame" = Examples.blocks ∧
  process_phase_change Examples.blocks "Day 3" !! "5:A1" = None.
Proof.
  split; [reflexivity|]. split; [|reflexivity].
  exact (proj1 (C10_no_epoch_no_sweep
                  {| pending_abilities := []; current_phase := "Night 2";
                     visits := ∅; roleblocks := Examples.blocks |}
                  "postgame" eq_refl)).
Defined.

End SweepFrame.

(** ** Inventory keys *)
Section Keys.
Import PyStr VisitCount.

Lemma no_underscore_uint d : contains_char "_" (NilEmpty.string_of_uint d) = false.
Proof. induction d; simpl; auto. Qed.

Lemma no_underscore_uint0 d : contains_char "_" (NilZero.string_of_uint d) = false.
Proof. destruct d; try apply (no_underscore_uint (_ _)); reflexivity. Qed.

Lemma no_underscore_str z : contains_char "_" (str_of_int z) = false.
Proof.
  unfold str_of_int. destruct (Z.to_int z); simpl; apply no_underscore_uint0.
Qed.

Lemma split_once_app sep a b :
  contains_char sep a = false →
  split_once sep (a +:+ String sep b) = Some (a, b).
Proof.
  induction a as [|c a IH]; intros Ha.
  - change ("" +:+ String sep b) with (String sep b). simpl.
    by rewrite Ascii.eqb_refl.
  - rewrite append_cons. simpl in *.
    rewrite Ascii.eqb_sym. destruct (Ascii.eqb sep c); [done|].
    by rewrite IH.
Qed.

Lemma split_once_key g m :
  split_once "_" (_key g m) = Some (str_of_int g, str_of_int m).
Proof. apply split_once_app, no_underscore_str. Qed.

Lemma member_of_key_key g m : member_of_key (_key g m) = Some m.
Proof. unfold member_of_key. by rewrite split_once_key, int_str_of_int. Qed.

Lemma key_inj g m g' m' : _key g m = _key g' m' → g = g' ∧ m = m'.
Proof.
  intros H. pose proof (split_once_key g m) as E. rewrite H, split_once_key in E.
  injection E as Hg Hm. split; by apply str_of_int_inj.
Qed.

Lemma prefix_app a b : String.prefix a (a +:+ b) = true.
Proof.
  induction a as [|c a IH]; [by destruct b|].
  rewrite append_cons. simpl. destruct (ascii_dec c c); [done|congruence].
Qed.

Lemma startswith_key g m : startswith (_key g m) (str_of_int g +:+ "_") = true.
Proof.
  unfold startswith, _key.
  replace (str_of_int g +:+ "_" +:+ str_of_int m)
    with ((str_of_int g +:+ "_") +:+ str_of_int m) by apply append_assoc.
  apply prefix_app.
Qed.

(** A key belongs to one guild only. *)
Lemma prefix_sep_eq sep a b c :
  contains_char sep a = false → contains_char sep b = false →
  String.prefix (a +:+ String sep "") (b +:+ String sep c) = true → a = b.
Proof.
  revert b. induction a as [|x a IH]; intros [|y b] Ha Hb H; try done.
  - rewrite append_cons in H. simpl in H, Hb.
    destruct (ascii_dec sep y) as [->|Hne]; [|done].
    by rewrite Ascii.eqb_refl in Hb.
  - rewrite append_cons in H. simpl in H, Ha.
    change ("" +:+ String sep c) with (String sep c) in H.
    destruct (ascii_dec x sep) as [->|Hne]; [|done].
    by rewrite Ascii.eqb_refl in Ha.
  - rewrite !append_cons in H. simpl in H, Ha, Hb.
    destruct (ascii_dec x y) as [->|Hne]; [|done].
    destruct (Ascii.eqb sep y); [done|]. f_equal. by apply IH.
Qed.

Lemma startswith_key_guild g g' m :
  startswith (_key g' m) (str_of_int g +:+ "_") = true → g = g'.
Proof.
  intros H. apply str_of_int_inj.
  eapply prefix_sep_eq; [apply no_underscore_str..|exact H].
Qed.

End Keys.

(** ** Visit inventories *)
Section Inventory.
Import PyStr VisitCount.

(** The two outcomes of [consume_visit] and what it leaves alone. *)
Lemma consume_visit_spec (d : Data) (guild_id member_id : Z) (kind : string) :
  let cur := default 0 (get_counts d guild_id member_id !! kind) in
  let d' := (consume_visit d guild_id member_id kind).1 in
  let got := (consume_visit d guild_id member_id kind).2 in
  (0 < cur →
     got = true ∧
     get_counts d' guild_id member_id
     = <[kind := cur - 1]> (get_counts d guild_id member_id)) ∧
  (cur ≤ 0 →
     got = false ∧
     get_counts d' guild_id member_id = get_counts d guild_id member_id) ∧
  (0 ≤ cur → 0 ≤ default 0 (get_counts d' guild_id member_id !! kind)) ∧
  (∀ g m, (g, m) ≠ (guild_id, member_id) →
          get_counts d' g m = get_counts d g m) ∧
  income d' = income d ∧ phase d' = phase d.
Proof.
  intros cur d' got. subst cur d' got. unfold consume_visit, get_counts.
  set (k := _key guild_id member_id).
  set (c := default zero_counts (counts d !! k)).
  set (cur := default 0 (c !! kind)).
  destruct (0 <? cur) eqn:E; simpl;
    [apply Z.ltb_lt in E | apply Z.ltb_ge in E];
    rewrite ?lookup_insert_eq; simpl.
  - split; [done|]. split; [lia|]. split.
    { intros _. rewrite lookup_insert_eq. simpl. lia. }
    split; [|done]. intros g m Hne. rewrite lookup_insert_ne; [done|].
    intros Hk. apply Hne. subst k. apply key_inj in Hk as [-> ->]. done.
  - split; [lia|]. split; [done|]. split; [done|].
    split; [|done]. intros g m Hne. rewrite lookup_insert_ne; [done|].
    intros Hk. apply Hne. subst k. apply key_inj in Hk as [-> ->]. done.
Qed.

(** C6: [consume_visit] returns true and takes exactly one unit from the
    counter when the counter is positive; otherwise it returns false and the
    counters of the player are as before. The other counters of the player,
    the counters of the other players, the incomes and the phases are never
    touched, and a counter that is not negative stays so. *)
Theorem C6_consume_visit (d : Data) (guild_id member_id : Z) (kind : string) :
  let cur := default 0 (get_counts d guild_id member_id !! kind) in
  let d' := (consume_visit d guild_id member_id kind).1 in
  let got := (consume_visit d guild_id member_id kind).2 in
  (0 < cur →
     got = true ∧
     get_counts d' guild_id member_id
     = <[kind := cur - 1]> (get_counts d guild_id member_id)) ∧
  (cur ≤ 0 →
     got = false ∧
     get_counts d' guild_id member_id = get_counts d guild_id member_id) ∧
  (0 ≤ cur → 0 ≤ default 0 (get_counts d' guild_id member_id !! kind)) ∧
  (∀ g m, (g, m) ≠ (guild_id, member_id) →
          get_counts d' g m = get_counts d g m) ∧
  income d' = income d ∧ phase d' = phase d.
Proof. apply consume_visit_spec. Qed.

(** C6 at work: a stealth visit is there to take, a forced visit is not. *)
Lemma C6_consume_visit_witness :
  0 < default 0 (get_counts Examples.inventory 1 2 !! "stealth") ∧
  (consume_visit Examples.inventory 1 2 "stealth").2 = true ∧
  default 0 (get_counts Examples.inventory 1 2 !! "forced") ≤ 0 ∧
  (consume_visit Examples.inventory 1 2 "forced").2 = false.
Proof.
  pose proof (C6_consume_visit Examples.inventory 1 2 "stealth") as [H1 _].
  pose proof (C6_consume_visit Examples.inventory 1 2 "forced") as [_ [H2 _]].
  assert (0 < default 0 (get_counts Examples.inventory 1 2 !! "stealth")) as P1
    by (vm_compute; reflexivity).
  assert (default 0 (get_counts Examples.inventory 1 2 !! "forced") ≤ 0) as P2
    by (vm_compute; discriminate).
  exact (conj P1 (conj (proj1 (H1 P1)) (conj P2 (proj1 (H2 P2))))).
Defined.

End Inventory.

(** ** Knocks with enchantments *)
Section KnockModifiers.
Import PyStr VisitCount Knocks.

(** C1 (the code at the failing input): a player with one stealth visit and
    no forced visit knocks with both enchantments. The knock is refused for
    the missing forced visit, and the stealth visit that was taken first is
    not given back: the stealth counter goes from 1 to 0. *)
Theorem C1_refused_knock_keeps_stealth :
  let r := knock (Some Examples.inventory) ∅ 1 2 50 60
                 ["stealth"; "forced"] false true (Some 900) in
  r.2 = LacksEnchantments ["forced"] ∧
  r.1.2 = ∅ ∧
  get_counts Examples.inventory 1 2 !! "stealth" = Some 1 ∧
  get_counts Examples.inventory 1 2 !! "forced" = Some 0 ∧
  from_option (λ d, get_counts d 1 2 !! "stealth") None r.1.1 = Some 0 ∧
  from_option (λ d, get_counts d 1 2 !! "forced") None r.1.1 = Some 0.
Proof. vm_compute. repeat split. Qed.

(** With the enchantments in the other order the loop goes on after
    the failed forced visit and still takes the stealth visit. *)
Lemma refused_knock_consumes_after_failure :
  let r := knock (Some Examples.inventory) ∅ 1 2 50 60
                 ["forced"; "stealth"] false true (Some 900) in
  r.2 = LacksEnchantments ["forced"] ∧
  from_option (λ d, get_counts d 1 2 !! "stealth") None r.1.1 = Some 0.
Proof. vm_compute. by split. Qed.

(** When the move itself fails, the enchantments that were taken are given
    back. *)
Lemma failed_move_refunds :
  let r := knock (Some Examples.inventory) ∅ 1 2 50 60
                 ["stealth"] false false (Some 900) in
  r.2 = MoveFailed ∧
  from_option (λ d, get_counts d 1 2 !! "stealth") None r.1.1 = Some 1.
Proof. vm_compute. by split. Qed.

(** The same for every store: when the stealth visit is there and the forced
    visit is not, the refused knock costs the stealth visit. *)
Lemma knock_stealth_forced_partial (d : Data) (pending : gmap Z Ticket)
    (g m origin target : Z) (move_ok : bool) (sent : option Z) :
  0 < default 0 (get_counts d g m !! "stealth") →
  default 0 (get_counts d g m !! "forced") ≤ 0 →
  let r := knock (Some d) pending g m origin target
                 ["stealth"; "forced"] false move_ok sent in
  r.2 = LacksEnchantments ["forced"] ∧
  ∃ d', r.1.1 = Some d' ∧
        default 0 (get_counts d' g m !! "stealth")
        = default 0 (get_counts d g m !! "stealth") - 1.
Proof.
  intros Hs Hf r. subst r.
  pose proof (consume_visit_spec d g m "stealth") as (H1 & _ & _ & _ & _ & _).
  destruct (H1 Hs) as [Hgot Hc]. clear H1.
  unfold knock. cbn [foldl]. unfold consume_enchant. cbn [cog consumed ok].
  destruct (consume_visit d g m "stealth") as [d1 got1]. simpl in Hgot, Hc.
  subst got1. cbn [cog consumed ok dict_set].
  pose proof (consume_visit_spec d1 g m "forced") as (_ & H2 & _ & _ & _ & _).
  assert (default 0 (get_counts d1 g m !! "forced") ≤ 0) as Hf1.
  { rewrite Hc. by rewrite lookup_insert_ne. }
  destruct (H2 Hf1) as [Hgot2 Hc2]. clear H2.
  destruct (consume_visit d1 g m "forced") as [d2 got2]. simpl in Hgot2, Hc2.
  subst got2. cbn. split; [done|]. exists d2. split; [done|].
  rewrite Hc2, Hc. by rewrite lookup_insert_eq.
Qed.

End KnockModifiers.

(** ** The refill on a phase change *)
Section Refill.
Import PyStr VisitCount.

(** What the loop of a reset leaves under a key. *)
Lemma reset_fold g kind amount (items : list (string * Income)) : ∀ d,
  NoDup items.*1 →
  (∀ k inc, (k, inc) ∈ items → is_Some (member_of_key k)) →
  ∃ d', foldl (reset_step g kind amount) (Ok d) items = Ok d' ∧
        income d' = income d ∧ phase d' = phase d ∧
        ∀ k, counts d' !! k =
             match (list_to_map items : gmap string Income) !! k with
             | Some inc =>
                 if startswith k (str_of_int g +:+ "_")
                 then Some (<[kind := amount inc]> (default zero_counts (counts d !! k)))
                 else counts d !! k
             | None => counts d !! k
             end.
Proof.
  induction items as [|[k0 inc0] items IH]; intros d Hnd Hkeys.
  - exists d. by repeat split.
  - rewrite fmap_cons in Hnd. apply NoDup_cons in Hnd as [Hk0 Hnd].
    assert (∀ k inc, (k, inc) ∈ items → is_Some (member_of_key k)) as Hkeys'.
    { intros k inc Hin. apply (Hkeys k inc). by apply elem_of_cons; right. }
    assert ((list_to_map items : gmap string Income) !! k0 = None) as Hfresh.
    { by apply not_elem_of_list_to_map_1. }
    cbn [foldl]. unfold reset_step at 2.
    destruct (startswith k0 (str_of_int g +:+ "_")) eqn:Hpre.
    + destruct (Hkeys k0 inc0) as [mem Hmem]; [by apply elem_of_cons; left|].
      rewrite Hmem.
      destruct (IH (with_counts d (<[k0 := <[kind := amount inc0]>
                       (default zero_counts (counts d !! k0))]> (counts d)))
                  Hnd Hkeys') as (d' & Hd' & Hi & Hp & Hc).
      exists d'. split; [done|]. split; [done|]. split; [done|].
      intros k. rewrite Hc. cbn [list_to_map foldr with_counts counts].
      destruct (decide (k = k0)) as [->|Hne].
      * rewrite Hfresh, !lookup_insert_eq. by rewrite Hpre.
      * by rewrite !lookup_insert_ne by done.
    + destruct (IH d Hnd Hkeys') as (d' & Hd' & Hi & Hp & Hc).
      exists d'. split; [done|]. split; [done|]. split; [done|].
      intros k. rewrite Hc. cbn [list_to_map foldr].
      destruct (decide (k = k0)) as [->|Hne].
      * rewrite Hfresh, lookup_insert_eq. by rewrite Hpre.
      * by rewrite lookup_insert_ne by done.
Qed.

(** A reset ends normally on a store whose keys come from [_key], and sets
    the counter of the players of the guild that have an income record. *)
Lemma reset_ok d g kind amount :
  keys_from_key d →
  ∃ d', foldl (reset_step g kind amount) (Ok d) (map_to_list (income d)) = Ok d' ∧
        income d' = income d ∧ phase d' = phase d ∧
        ∀ g' m, get_counts d' g' m =
                match income d !! _key g' m with
                | Some inc =>
                    if bool_decide (g' = g)
                    then <[kind := amount inc]> (get_counts d g' m)
                    else get_counts d g' m
                | None => get_counts d g' m
                end.
Proof.
  intros Hwf.
  destruct (reset_fold g kind amount (map_to_list (income d)) d)
    as (d' & Hd' & Hi & Hp & Hc).
  - apply NoDup_fst_map_to_list.
  - intros k inc Hin%elem_of_map_to_list.
    destruct (Hwf k) as (g' & m & ->); [by eexists|].
    rewrite member_of_key_key. by eexists.
  - exists d'. split; [done|]. split; [done|]. split; [done|].
    intros g' m. unfold get_counts. rewrite Hc, list_to_map_to_list.
    destruct (income d !! _key g' m) as [inc|]; [|done].
    case_bool_decide as Hg.
    + subst g'. by rewrite startswith_key.
    + destruct (startswith (_key g' m) (str_of_int g +:+ "_")) eqn:Hpre; [|done].
      apply startswith_key_guild in Hpre. congruence.
Qed.

Lemma get_counts_set_phase d g p g' m :
  get_counts (default d (set_phase d g p)) g' m = get_counts d g' m.
Proof. unfold set_phase. by case_bool_decide. Qed.

Lemma refill_night_counts d g :
  keys_from_key d →
  ∀ g' m, get_counts (Phases.refill_visits d g "night") g' m =
          match income d !! _key g' m with
          | Some inc =>
              if bool_decide (g' = g)
              then <["night" := night_income inc]> (get_counts d g' m)
              else get_counts d g' m
          | None => get_counts d g' m
          end.
Proof.
  intros Hwf g' m. unfold Phases.refill_visits, reset_night.
  destruct (reset_ok d g "night" night_income Hwf) as (d' & -> & _ & _ & Hc).
  rewrite bool_decide_eq_true_2 by done.
  by rewrite get_counts_set_phase, Hc.
Qed.

Lemma refill_day_counts d g :
  keys_from_key d →
  ∀ g' m, get_counts (Phases.refill_visits d g "day") g' m =
          match income d !! _key g' m with
          | Some inc =>
              if bool_decide (g' = g)
              then <["day" := day_income inc]> (get_counts d g' m)
              else get_counts d g' m
          | None => get_counts d g' m
          end.
Proof.
  intros Hwf g' m. unfold Phases.refill_visits, reset_day.
  destruct (reset_ok d g "day" day_income Hwf) as (d' & -> & _ & _ & Hc).
  rewrite bool_decide_eq_false_2 by done. rewrite bool_decide_eq_true_2 by done.
  by rewrite get_counts_set_phase, Hc.
Qed.

(** C5 (the code at the failing input): in a guild where player 4 has an
    income record, player 2 has stored counters and no income record, so
    that the income read for player 2 is 0. The refill for night sets the
    night counter of player 4 to the income of two, and leaves player 2
    with the three night visits held before: the loop of [reset_night] goes
    over the income records only. *)
Theorem C5_no_income_record_no_refill :
  income Examples.salaried !! _key 1 2 = None ∧
  night_income (get_income Examples.salaried 1 2) = 0 ∧
  get_counts Examples.salaried 1 2 !! "night" = Some 3 ∧
  get_counts (Phases.refill_visits Examples.salaried 1 "night") 1 2 !! "night"
  = Some 3 ∧
  get_counts (Phases.refill_visits Examples.salaried 1 "night") 1 4 !! "night"
  = Some 2.
Proof. vm_compute. repeat split. Qed.

(** What a refill does, for every store whose keys come from [_key]: the
    refill for night sets the night counter of every player of the guild
    who has an income record to the night income of that record, whatever
    the counter was, and the refill for day sets the day counter to the day
    income; the other counters of the player stay. A player without an
    income record keeps all counters, as do the players of the other
    guilds; for a token other than night and day the store is unchanged. *)
Lemma refill_resets_to_income (d : Data) (guild_id : Z) :
  keys_from_key d →
  (∀ m inc, income d !! _key guild_id m = Some inc →
     get_counts (Phases.refill_visits d guild_id "night") guild_id m
     = <["night" := night_income (get_income d guild_id m)]> (get_counts d guild_id m) ∧
     get_counts (Phases.refill_visits d guild_id "day") guild_id m
     = <["day" := day_income (get_income d guild_id m)]> (get_counts d guild_id m)) ∧
  (∀ m, income d !! _key guild_id m = None →
     get_counts (Phases.refill_visits d guild_id "night") guild_id m
     = get_counts d guild_id m ∧
     get_counts (Phases.refill_visits d guild_id "day") guild_id m
     = get_counts d guild_id m) ∧
  (∀ g m p, g ≠ guild_id →
     get_counts (Phases.refill_visits d guild_id p) g m = get_counts d g m) ∧
  (∀ p, p ≠ "night" → p ≠ "day" → Phases.refill_visits d guild_id p = d).
Proof.
  intros Hwf. split; [|split; [|split]].
  - intros m inc Hinc.
    rewrite (refill_night_counts d guild_id Hwf), (refill_day_counts d guild_id Hwf).
    unfold get_income. rewrite Hinc. simpl.
    by rewrite bool_decide_eq_true_2 by done.
  - intros m Hinc.
    rewrite (refill_night_counts d guild_id Hwf), (refill_day_counts d guild_id Hwf).
    by rewrite Hinc.
  - intros g m p Hg.
    destruct (decide (p = "night")) as [->|Hn];
      [|destruct (decide (p = "day")) as [->|Hd]].
    + rewrite (refill_night_counts d guild_id Hwf).
      destruct (income d !! _key g m); [|done].
      by rewrite bool_decide_eq_false_2 by done.
    + rewrite (refill_day_counts d guild_id Hwf).
      destruct (income d !! _key g m); [|done].
      by rewrite bool_decide_eq_false_2 by done.
    + unfold Phases.refill_visits. by rewrite !bool_decide_eq_false_2 by done.
  - intros p Hn Hd. unfold Phases.refill_visits.
    by rewrite !bool_decide_eq_false_2 by done.
Qed.

(** The sample store with an income record is well formed. *)
Lemma salaried_keys : keys_from_key Examples.salaried.
Proof.
  intros k [x Hx]. exists 1, 4. unfold Examples.salaried, set_income in Hx.
  simpl in Hx. apply lookup_insert_Some in Hx as [[<- _]|[_ Hx]]; [done|].
  by rewrite lookup_empty in Hx.
Defined.

End Refill.

(** ** The resolution order *)
Section Order.
Import PyStr ActionQueue.

Lemma insert_by_perm {A} (key : A → Z * Z * Z) x l : insert_by key x l ≡ₚ x :: l.
Proof.
  induction l as [|y l IH]; [done|]. simpl.
  destruct (key_ltb (key y) (key x)); [|done].
  rewrite IH. apply Permutation_swap.
Qed.

Lemma sorted_perm {A} (key : A → Z * Z * Z) l : sorted key l ≡ₚ l.
Proof.
  induction l as [|x l IH]; [done|]. unfold sorted in *. simpl.
  by rewrite insert_by_perm, IH.
Qed.

(** [sorted] is the stable sort by the key: its result is in the order of
    the keys, and the elements of one key keep the order they had. *)
Lemma key_ltb_irrefl k : key_ltb k k = false.
Proof.
  destruct k as [[k1 k2] k3]. unfold key_ltb.
  rewrite !Z.ltb_irrefl, !Z.eqb_refl. reflexivity.
Qed.

Lemma key_ltb_spec a b :
  key_ltb a b = true ↔
  a.1.1 < b.1.1 ∨ (a.1.1 = b.1.1 ∧ (a.1.2 < b.1.2 ∨ (a.1.2 = b.1.2 ∧ a.2 < b.2))).
Proof.
  destruct a as [[a1 a2] a3], b as [[b1 b2] b3]. unfold key_ltb. simpl.
  rewrite !orb_true_iff, !andb_true_iff, !orb_true_iff, !andb_true_iff.
  rewrite !Z.ltb_lt, !Z.eqb_eq. tauto.
Qed.

Lemma key_not_ltb_trans a b c :
  key_ltb b a = false → key_ltb c b = false → key_ltb c a = false.
Proof.
  rewrite <- !not_true_iff_false, !key_ltb_spec.
  destruct a as [[a1 a2] a3], b as [[b1 b2] b3], c as [[c1 c2] c3]. simpl. lia.
Qed.

Lemma key_not_ltb_total a b : key_ltb a b = false → key_ltb b a = false → a = b.
Proof.
  rewrite <- !not_true_iff_false, !key_ltb_spec.
  destruct a as [[a1 a2] a3], b as [[b1 b2] b3]. simpl. intros H1 H2.
  assert (a1 = b1) as -> by lia. assert (a2 = b2) as -> by lia.
  assert (a3 = b3) as -> by lia. done.
Qed.

Lemma insert_by_sorted {A} (key : A → Z * Z * Z) x l :
  StronglySorted (λ u v, key_ltb (key v) (key u) = false) l →
  StronglySorted (λ u v, key_ltb (key v) (key u) = false) (insert_by key x l).
Proof.
  induction 1 as [|y l Hl IH Hy]; simpl.
  - repeat constructor.
  - destruct (key_ltb (key y) (key x)) eqn:E.
    + constructor; [done|]. rewrite insert_by_perm. constructor; [|done].
      apply not_true_iff_false. intros Hxy.
      apply key_ltb_spec in E. apply key_ltb_spec in Hxy.
      destruct (key x) as [[? ?] ?], (key y) as [[? ?] ?]. simpl in *. lia.
    + constructor; [by constructor|]. constructor; [done|].
      rewrite Forall_forall in Hy. apply Forall_forall. intros z Hz.
      by apply (key_not_ltb_trans _ (key y)); [|apply Hy].
Qed.

Lemma sorted_sorted {A} (key : A → Z * Z * Z) l :
  StronglySorted (λ u v, key_ltb (key v) (key u) = false) (sorted key l).
Proof.
  induction l as [|x l IH]; [constructor|]. by apply insert_by_sorted.
Qed.

Lemma insert_by_stable {A} (key : A → Z * Z * Z) (k : Z * Z * Z) x l :
  filter (λ u, key u = k) (insert_by key x l) = filter (λ u, key u = k) (x :: l).
Proof.
  induction l as [|y l IH]; [done|]. simpl.
  destruct (key_ltb (key y) (key x)) eqn:E; [|done].
  rewrite filter_cons, IH, !filter_cons.
  destruct (decide (key y = k)) as [Hy|Hy], (decide (key x = k)) as [Hx|Hx]; try done.
  rewrite Hx, Hy, key_ltb_irrefl in E. discriminate.
Qed.

Lemma sorted_stable {A} (key : A → Z * Z * Z) (k : Z * Z * Z) l :
  filter (λ u, key u = k) (sorted key l) = filter (λ u, key u = k) l.
Proof.
  induction l as [|x l IH]; [done|]. unfold sorted in *. simpl.
  by rewrite insert_by_stable, !filter_cons, IH.
Qed.

(** C3 (as stated, refuted): with the lethal action of team shadow submitted
    before the one of team dark, the order does not put dark first. *)
Lemma C3_dark_not_before_shadow :
  os_abilities [Examples.lethal_shadow; Examples.lethal_dark]
  ≠ [Examples.lethal_dark; Examples.lethal_shadow] ∧
  os_abilities [Examples.lethal_shadow; Examples.lethal_dark]
  = [Examples.lethal_shadow; Examples.lethal_dark].
Proof. split; [|reflexivity]. vm_compute. discriminate. Qed.

(** C3 (amended): two pending actions of category Lethal, one of team
    shadow and one of team dark, are resolved shadow first, whatever the
    order and the times of submission. The category Lethal uses the team
    order sublime, shadow, dark, neutral and every other category the order
    dark, rk, sublime, neutral; a team that is not in the list has the
    index 99. *)
Theorem C3_lethal_shadow_before_dark (a b : PendingAction) :
  category a = Some "Lethal" → category b = Some "Lethal" →
  team a = Some "shadow" → team b = Some "dark" →
  os_abilities [a; b] = [a; b] ∧
  os_abilities [b; a] = [a; b] ∧
  ordered [a; b] = [0; 1]%nat ∧
  ordered [b; a] = [1; 0]%nat ∧
  team_order (Some "Lethal") = ["sublime"; "shadow"; "dark"; "neutral"] ∧
  (∀ c, lower (str_of_category c) ≠ "lethal" →
        team_order c = ["dark"; "rk"; "sublime"; "neutral"]) ∧
  (∀ item, lower (team_or_unknown (team item)) ∉ team_order (category item) →
           team_idx item = 99).
Proof.
  intros Ha Hb Hta Htb.
  assert (sort_key a = (5, 1, timestamp a)) as Ka.
  { unfold sort_key, team_idx. by rewrite Ha, Hta. }
  assert (sort_key b = (5, 2, timestamp b)) as Kb.
  { unfold sort_key, team_idx. by rewrite Hb, Htb. }
  assert (key_ltb (sort_key b) (sort_key a) = false) as Hba.
  { rewrite Ka, Kb. reflexivity. }
  assert (key_ltb (sort_key a) (sort_key b) = true) as Hab.
  { rewrite Ka, Kb. reflexivity. }
  unfold os_abilities, ordered, sorted. cbn -[sort_key key_ltb].
  rewrite Hba, Hab. cbn -[sort_key key_ltb].
  repeat (split; [reflexivity|]). split.
  - intros c Hc. unfold team_order. by rewrite bool_decide_eq_false_2.
  - intros item. unfold team_idx.
    generalize (lower (team_or_unknown (team item))) as t.
    generalize (team_order (category item)) as l. generalize 0 as i.
    intros i l. revert i. induction l as [|x l IH]; intros i t Ht; [done|].
    simpl. rewrite not_elem_of_cons in Ht. destruct Ht as [Hx Hl].
    rewrite bool_decide_eq_false_2 by done. by apply IH.
Qed.

(** C3 at work, with dark submitted first. *)
Lemma C3_lethal_shadow_before_dark_witness :
  category Examples.lethal_shadow = Some "Lethal" ∧
  team Examples.lethal_dark = Some "dark" ∧
  os_abilities [Examples.lethal_dark; Examples.lethal_shadow]
  = [Examples.lethal_shadow; Examples.lethal_dark].
Proof.
  split; [reflexivity|]. split; [reflexivity|].
  exact (proj1 (proj2 (C3_lethal_shadow_before_dark
                         Examples.lethal_shadow Examples.lethal_dark
                         eq_refl eq_refl eq_refl eq_refl))).
Defined.

End Order.

(** ** The resolve cycle *)
Section Cycle.
Import PyStr ActionQueue.

Lemma uint_of_string_digits s :
  all_digits s = true → is_Some (NilEmpty.uint_of_string s).
Proof.
  induction s as [|c s IH]; [by eexists|]. simpl. intros [Hc Hs]%andb_prop.
  destruct (IH Hs) as [d ->]. revert Hc.
  destruct c as [[|] [|] [|] [|] [|] [|] [|] [|]]; vm_compute; intros H;
    by (discriminate || eexists).
Qed.

Lemma digit_not_minus c : is_digit c = true → Ascii.eqb c "-" = false.
Proof.
  destruct c as [[|] [|] [|] [|] [|] [|] [|] [|]]; vm_compute; congruence.
Qed.

(** [int] never raises on a group of digits. *)
Lemma int_digits s : all_digits s = true → s ≠ "" → is_Some (int s).
Proof.
  intros Hs Hn. unfold int, NilZero.int_of_string.
  destruct s as [|c r]; [done|].
  assert (is_digit c = true) as Hc by (simpl in Hs; by apply andb_prop in Hs as [? _]).
  rewrite (digit_not_minus c Hc). unfold NilZero.uint_of_string.
  destruct (uint_of_string_digits (String c r) Hs) as [d ->]. by eexists.
Qed.

Lemma span_digits_all s : all_digits (span_digits s).1 = true.
Proof.
  induction s as [|c s IH]; [done|]. simpl.
  destruct (is_digit c) eqn:Hc; [|done].
  destruct (span_digits s) as [ds rest]. simpl in *. by rewrite Hc, IH.
Qed.

Lemma span_digits_app s : (span_digits s).1 +:+ (span_digits s).2 = s.
Proof.
  induction s as [|c s IH]; [done|]. simpl.
  destruct (is_digit c); [|done].
  destruct (span_digits s) as [ds rest]. simpl in *.
  by rewrite append_cons, IH.
Qed.

Lemma consume_kind_some t val inv : is_Some (consume_kind t val inv).
Proof.
  unfold consume_kind. pose proof (span_digits_all val) as Hd.
  destruct (span_digits val) as [ds rest]. simpl in Hd.
  destruct ds as [|c r]; [by eexists|].
  destruct (int_digits (String c r) Hd) as [n ->]; [done|].
  destruct (n - 1 <=? 0); by eexists.
Qed.

Lemma consume_first_some kinds inv : is_Some (consume_first kinds inv).
Proof.
  induction kinds as [|t r IH]; [by eexists|]. simpl.
  destruct (inv !! t); [apply consume_kind_some|done].
Qed.

(** Taking a visit never fails. *)
Lemma consume_for_some ch vs : is_Some (consume_for ch vs).
Proof.
  unfold consume_for. destruct (vs !! ch) as [inv|]; [|by eexists].
  case_bool_decide; [|by eexists].
  destruct (consume_first_some visit_kinds inv) as [inv' ->]. by eexists.
Qed.



(** The body of the loop on a reference that is in the store. *)
Lemma process_one_spec rb c i p :
  store c !! i = Some p →
  process_one rb c i =
    if ability_blocked rb p then skip c i "ability_blocked"
    else if visit_blocked rb p then skip c i "visit_blocked"
    else {| store := <[i := mark_processed p]> (store c);
            cycle_visits := default (cycle_visits c)
                              (consume_for (channel_id p) (cycle_visits c));
            processed := processed c ++ [i];
            skipped := skipped c |}.
Proof.
  intros Hi. unfold process_one. rewrite Hi.
  destruct (ability_blocked rb p); [done|]. destruct (visit_blocked rb p); [done|].
  by destruct (consume_for_some (channel_id p) (cycle_visits c)) as [vs ->].
Qed.

(** The loop over a list of distinct references whose entries were not yet
    visited. *)
Lemma cycle_fold rb (pending : list PendingAction) (refs : list nat) : ∀ c,
  NoDup refs →
  (∀ i, i ∈ refs → store c !! i = pending !! i) →
  let c' := foldl (process_one rb) c refs in
  (∀ j, store c' !! j =
        if bool_decide (j ∈ refs)
        then (λ p, if blocked rb p then p else mark_processed p) <$> pending !! j
        else store c !! j) ∧
  (∀ i, i ∈ processed c' ↔
        i ∈ processed c ∨
        (i ∈ refs ∧ ∃ p, pending !! i = Some p ∧ blocked rb p = false)) ∧
  (∀ i r, (i, r) ∈ skipped c' ↔
          (i, r) ∈ skipped c ∨
          (i ∈ refs ∧ ∃ p, pending !! i = Some p ∧ blocked rb p = true ∧
                           r = skip_reason rb p)).
Proof.
  induction refs as [|i0 refs IH]; intros c Hnd Hst; cbn [foldl].
  - split; [|split].
    + intros j. by rewrite bool_decide_eq_false_2 by apply not_elem_of_nil.
    + intros i. split; [by left|]. intros [?|[[]%elem_of_nil _]]. done.
    + intros i r. split; [by left|]. intros [?|[[]%elem_of_nil _]]. done.
  - apply NoDup_cons in Hnd as [Hi0 Hnd].
    set (c1 := process_one rb c i0) in *.
    set (c' := foldl (process_one rb) c1 refs).
    assert (∀ j, j ≠ i0 → store c1 !! j = store c !! j) as Hother.
    { intros j Hj. subst c1. unfold process_one.
      destruct (store c !! i0) as [p|]; [|done].
      destruct (ability_blocked rb p); [done|].
      destruct (visit_blocked rb p); [done|].
      destruct (consume_for _ _); [|done]. simpl.
      by rewrite list_lookup_insert_ne. }
    destruct (IH c1 Hnd) as (Hs & Hp & Hk).
    { intros i Hi. rewrite Hother; [|intros ->; done].
      apply Hst. by apply elem_of_cons; right. }
    cbv zeta in Hs, Hp, Hk. fold c' in Hs, Hp, Hk.
    pose proof (Hst i0 ltac:(by apply elem_of_cons; left)) as Hi0st.
    destruct (pending !! i0) as [p|] eqn:Ep.
    + pose proof (process_one_spec rb c i0 p Hi0st) as Hc1. fold c1 in Hc1.
      assert (blocked rb p = ability_blocked rb p || visit_blocked rb p) as Hb by done.
      split; [|split].
      * intros j. rewrite Hs. destruct (decide (j = i0)) as [->|Hne].
        -- rewrite (bool_decide_eq_false_2 (i0 ∈ refs)) by done.
           rewrite bool_decide_eq_true_2 by (by apply elem_of_cons; left).
           rewrite Ep, Hc1. cbn [fmap option_fmap option_map]. rewrite Hb.
           destruct (ability_blocked rb p); [done|].
           destruct (visit_blocked rb p); [done|]. cbn [orb store].
           apply list_lookup_insert_eq. by eapply lookup_lt_Some.
        -- rewrite Hother by done.
           case_bool_decide as Hin.
           ++ by rewrite bool_decide_eq_true_2 by (by apply elem_of_cons; right).
           ++ rewrite bool_decide_eq_false_2; [done|].
              by intros [?|?]%elem_of_cons.
      * intros i. rewrite Hp, Hc1, elem_of_cons.
        destruct (ability_blocked rb p) eqn:Ea; [|destruct (visit_blocked rb p) eqn:Ev];
          simpl.
        -- split; [tauto|]. intros [?|[[->|?] ?]]; [tauto| |tauto].
           destruct H as (q & Hq & Hbq). rewrite Ep in Hq. injection Hq as <-.
           unfold blocked in Hbq. by rewrite Ea in Hbq.
        -- split; [tauto|]. intros [?|[[->|?] ?]]; [tauto| |tauto].
           destruct H as (q & Hq & Hbq). rewrite Ep in Hq. injection Hq as <-.
           unfold blocked in Hbq. by rewrite Ea, Ev in Hbq.
        -- rewrite elem_of_app, list_elem_of_singleton. split.
           ++ intros [[?| ->]|?]; [tauto| |tauto].
              right. split; [by left|]. exists p. unfold blocked. by rewrite Ea, Ev.
           ++ intros [?|[[->|?] ?]]; tauto.
      * intros i r. rewrite Hk, Hc1, elem_of_cons. unfold skip_reason.
        destruct (ability_blocked rb p) eqn:Ea; [|destruct (visit_blocked rb p) eqn:Ev];
          simpl; rewrite ?elem_of_app, ?list_elem_of_singleton.
        -- split.
           ++ intros [[?|[= -> ->]]|?]; [tauto| |tauto].
              right. split; [by left|]. exists p. unfold blocked. by rewrite Ea.
           ++ intros [?|[[->|?] ?]]; [tauto| |tauto].
              destruct H as (q & Hq & _ & ->). rewrite Ep in Hq. injection Hq as <-.
              rewrite Ea. tauto.
        -- split.
           ++ intros [[?|[= -> ->]]|?]; [tauto| |tauto].
              right. split; [by left|]. exists p. unfold blocked.
              by rewrite Ea, Ev.
           ++ intros [?|[[->|?] ?]]; [tauto| |tauto].
              destruct H as (q & Hq & _ & ->). rewrite Ep in Hq. injection Hq as <-.
              rewrite Ea. tauto.
        -- split; [tauto|]. intros [?|[[->|?] ?]]; [tauto| |tauto].
           destruct H as (q & Hq & Hbq & _). rewrite Ep in Hq. injection Hq as <-.
           unfold blocked in Hbq. by rewrite Ea, Ev in Hbq.
    + assert (c1 = c) as Hc1.
      { subst c1. unfold process_one. by rewrite Hi0st. }
      rewrite Hc1 in Hs, Hp, Hk. split; [|split].
      * intros j. rewrite Hs. destruct (decide (j = i0)) as [->|Hne].
        -- rewrite (bool_decide_eq_false_2 (i0 ∈ refs)) by done.
           rewrite bool_decide_eq_true_2 by (by apply elem_of_cons; left).
           by rewrite Ep, Hi0st.
        -- case_bool_decide as Hin.
           ++ by rewrite bool_decide_eq_true_2 by (by apply elem_of_cons; right).
           ++ rewrite bool_decide_eq_false_2; [done|].
              by intros [?|?]%elem_of_cons.
      * intros i. rewrite Hp, elem_of_cons. split; [tauto|].
        intros [?|[[->|?] ?]]; [tauto| |tauto].
        destruct H as (q & Hq & _). by rewrite Ep in Hq.
      * intros i r. rewrite Hk, elem_of_cons. split; [tauto|].
        intros [?|[[->|?] ?]]; [tauto| |tauto].
        destruct H as (q & Hq & _). by rewrite Ep in Hq.
Qed.

Lemma ordered_perm pending : ordered pending ≡ₚ seq 0 (length pending).
Proof.
  unfold ordered. rewrite sorted_perm, fmap_imap.
  change (imap (λ n, fst ∘ pair n) pending)
    with (imap (λ (j : nat) (_ : PendingAction), id j) pending).
  by rewrite imap_seq_0, list_fmap_id.
Qed.

Lemma ordered_NoDup pending : NoDup (ordered pending).
Proof. rewrite ordered_perm. apply NoDup_seq. Qed.

Lemma elem_of_ordered pending i : i ∈ ordered pending ↔ (i < length pending)%nat.
Proof. rewrite ordered_perm, elem_of_seq. lia. Qed.

(** The cycle as a whole: every entry of the queue is visited once. *)
Lemma run_cycle_spec st :
  let rb := roleblocks st in
  let pending := pending_abilities st in
  let c := run_cycle st in
  store c = (λ p, if blocked rb p then p else mark_processed p) <$> pending ∧
  (∀ i, i ∈ processed c ↔ ∃ p, pending !! i = Some p ∧ blocked rb p = false) ∧
  (∀ i r, (i, r) ∈ skipped c ↔
          ∃ p, pending !! i = Some p ∧ blocked rb p = true ∧ r = skip_reason rb p).
Proof.
  intros rb pending c. subst rb pending c. unfold run_cycle.
  destruct (cycle_fold (roleblocks st) (pending_abilities st)
              (ordered (pending_abilities st))
              {| store := pending_abilities st; cycle_visits := visits st;
                 processed := []; skipped := [] |}
              (ordered_NoDup _) (λ _ _, eq_refl)) as (Hs & Hp & Hk).
  cbv zeta in Hs, Hp, Hk. cbn [store processed skipped] in Hs, Hp, Hk.
  split; [|split].
  - apply list_eq. intros j. rewrite Hs, list_lookup_fmap.
    case_bool_decide as Hin; [done|].
    rewrite elem_of_ordered in Hin.
    by rewrite lookup_ge_None_2 by lia.
  - intros i. rewrite Hp, elem_of_ordered. split.
    + intros [[]%elem_of_nil|[_ ?]]. done.
    + intros (p & Hi & Hb). right. split; [by eapply lookup_lt_Some|]. by exists p.
  - intros i r. rewrite Hk, elem_of_ordered. split.
    + intros [[]%elem_of_nil|[_ ?]]. done.
    + intros (p & Hi & Hb). right. split; [by eapply lookup_lt_Some|]. by exists p.
Qed.

(** The entries that stay in the queue. *)
Lemma filter_resolved rb (pending : list PendingAction) :
  Forall (λ p, status p ≠ "processed") pending →
  filter (λ p, status p ≠ "processed")
         ((λ p, if blocked rb p then p else mark_processed p) <$> pending)
  = filter (λ p, blocked rb p = true) pending.
Proof.
  induction 1 as [|p l Hp Hl IH]; [done|].
  rewrite fmap_cons, !filter_cons, IH.
  destruct (blocked rb p) eqn:Eb.
  - rewrite decide_True by done. by rewrite decide_True by done.
  - rewrite decide_False by (intros H; by apply H).
    by rewrite decide_False by done.
Qed.

Lemma process_os_pending st :
  pending_abilities (process_os st).1
  = filter (λ p, status p ≠ "processed") (store (run_cycle st)).
Proof.
  unfold process_os. destruct (pending_abilities st) eqn:E; [|done].
  simpl. unfold run_cycle. by rewrite E.
Qed.

(** No entry of the queue is marked processed between two cycles: the queue
    starts empty, and a registration appends a pending entry. *)
Lemma submit_unprocessed st ch_id ability_key cat tm now descr author :
  Forall (λ p, status p ≠ "processed") (pending_abilities st) →
  Forall (λ p, status p ≠ "processed")
         (pending_abilities (submit st ch_id ability_key cat tm now descr author)).
Proof.
  intros H. unfold submit. simpl. apply Forall_app. split; [done|].
  by repeat constructor.
Qed.

(** C8: when no entry of the queue is marked processed beforehand, the
    queue after a resolve cycle is made of the entries that were skipped, in
    the order they had and as they were: an entry is skipped exactly when its
    ability or the visits of its channel are blocked, every other entry is
    marked processed and is no longer in the queue. *)
Theorem C8_skipped_stay_queued (st : State) :
  Forall (λ p, status p ≠ "processed") (pending_abilities st) →
  let rb := roleblocks st in
  let c := run_cycle st in
  let st' := (process_os st).1 in
  pending_abilities st'
  = filter (λ p, blocked rb p = true) (pending_abilities st) ∧
  (∀ i, i ∈ (skipped c).*1 ↔
        ∃ p, pending_abilities st !! i = Some p ∧ blocked rb p = true) ∧
  (∀ i r, (i, r) ∈ skipped c → r = "ability_blocked" ∨ r = "visit_blocked") ∧
  (∀ i p, pending_abilities st !! i = Some p → i ∈ (skipped c).*1 →
          store c !! i = Some p ∧ p ∈ pending_abilities st') ∧
  (∀ i, i ∈ processed c ↔
        ∃ p, pending_abilities st !! i = Some p ∧ blocked rb p = false) ∧
  (∀ i, i ∈ processed c →
        ∃ p, store c !! i = Some p ∧ status p = "processed" ∧
             p ∉ pending_abilities st') ∧
  Forall (λ p, status p ≠ "processed") (pending_abilities st') ∧
  roleblocks st' = roleblocks st.
Proof.
  intros Hinv rb c st'. subst rb c st'.
  destruct (run_cycle_spec st) as (Hs & Hp & Hk). cbv zeta in Hs, Hp, Hk.
  assert (pending_abilities (process_os st).1
          = filter (λ p, blocked (roleblocks st) p = true) (pending_abilities st))
    as Hq.
  { rewrite process_os_pending, Hs. by apply filter_resolved. }
  assert (∀ i, i ∈ (skipped (run_cycle st)).*1 ↔
               ∃ p, pending_abilities st !! i = Some p
                    ∧ blocked (roleblocks st) p = true) as Hsk.
  { intros i. rewrite list_elem_of_fmap. split.
    - intros ([j r] & -> & Hin). apply Hk in Hin as (p & ? & ? & _). by exists p.
    - intros (p & Hi & Hb). exists (i, skip_reason (roleblocks st) p).
      split; [done|]. apply Hk. by exists p. }
  split; [done|]. split; [done|]. split; [|split; [|split; [done|split; [|split]]]].
  - intros i r (p & _ & _ & ->)%Hk. unfold skip_reason.
    destruct (ability_blocked _ _); tauto.
  - intros i p Hi (q & Hq' & Hb)%Hsk. rewrite Hi in Hq'. injection Hq' as <-.
    split.
    + by rewrite Hs, list_lookup_fmap, Hi; simpl; rewrite Hb.
    + rewrite Hq. apply list_elem_of_filter. split; [done|].
      by eapply list_elem_of_lookup_2.
  - intros i (p & Hi & Hb)%Hp. exists (mark_processed p).
    split; [by rewrite Hs, list_lookup_fmap, Hi; simpl; rewrite Hb|].
    split; [done|]. rewrite Hq. intros [_ Hin]%list_elem_of_filter.
    rewrite Forall_forall in Hinv. by apply (Hinv _ Hin).
  - rewrite Hq. apply Forall_forall. intros p [_ Hin]%list_elem_of_filter.
    rewrite Forall_forall in Hinv. by apply Hinv.
  - unfold process_os. by destruct (pending_abilities st).
Qed.

(** C8 at work: the two blocked uses stay, the healing is gone. *)
Lemma C8_skipped_stay_queued_witness :
  Forall (λ p, status p ≠ "processed") (pending_abilities Examples.session) ∧
  pending_abilities (process_os Examples.session).1
  = [Examples.lethal_shadow; Examples.lethal_dark].
Proof.
  assert (Forall (λ p, status p ≠ "processed")
                 (pending_abilities Examples.session)) as P
    by (repeat (constructor; [discriminate|]); constructor).
  split; [exact P|].
  exact (eq_trans (proj1 (C8_skipped_stay_queued Examples.session P)) eq_refl).
Defined.

End Cycle.

(** ** Commands on blocks *)
Section BlockCommandsFacts.
Import PyStr ActionQueue BlockCommands.

Lemma no_colon_uint d : contains_char ":" (NilEmpty.string_of_uint d) = false.
Proof. induction d; simpl; auto. Qed.

Lemma no_colon_str z : contains_char ":" (str_of_int z) = false.
Proof.
  unfold str_of_int. destruct (Z.to_int z) as [d|d]; simpl;
    destruct d; try apply (no_colon_uint (_ _)); reflexivity.
Qed.

Lemma contains_char_app_sep sep a b : contains_char sep (a +:+ String sep b) = true.
Proof.
  induction a as [|c a IH]; [simpl; by rewrite Ascii.eqb_refl|].
  rewrite append_cons. simpl. by destruct (Ascii.eqb sep c).
Qed.

Lemma rb_key_colon rc key : contains_char ":" (rb_key rc key) = true.
Proof. apply contains_char_app_sep. Qed.

Lemma rb_key_inj rc key rc' key' :
  rb_key rc key = rb_key rc' key' → rc = rc' ∧ key = key'.
Proof.
  intros H. unfold rb_key in H.
  change (str_of_int rc +:+ String ":" key = str_of_int rc' +:+ String ":" key') in H.
  pose proof (split_once_app ":" (str_of_int rc) key (no_colon_str rc)) as E.
  rewrite H in E.
  rewrite (split_once_app ":" (str_of_int rc') key' (no_colon_str rc')) in E.
  injection E as Hc Hk. split; [by apply str_of_int_inj|done].
Qed.

Lemma rb_key_not_channel rc key rc' : rb_key rc key ≠ str_of_int rc'.
Proof.
  intros H. pose proof (rb_key_colon rc key) as E. rewrite H in E.
  by rewrite no_colon_str in E.
Qed.

(** A block until forever stays through a phase change. *)
Lemma forever_block_stays rb k e s :
  contains_char ":" k = true → rb !! k = Some e →
  ActionQueue.until e = Some "forever" →
  process_phase_change rb s !! k = Some e.
Proof.
  intros Hc Hk Hu. destruct (_phase_epoch s) as [ep|] eqn:E.
  - rewrite (process_phase_change_lookup rb s ep k E).
    unfold sweep_key. by rewrite Hc, Hk; simpl; rewrite Hu.
  - unfold process_phase_change. by rewrite E.
Qed.

(** A block whose boundary is neither of the two words stays as well. *)
Lemma odd_boundary_block_stays rb k e s b :
  contains_char ":" k = true → rb !! k = Some e →
  ActionQueue.boundary e = Some b → b ≠ "end" → b ≠ "beginning" →
  process_phase_change rb s !! k = Some e.
Proof.
  intros Hc Hk Hb H1 H2. destruct (_phase_epoch s) as [ep|] eqn:E.
  - rewrite (process_phase_change_lookup rb s ep k E).
    unfold sweep_key. rewrite Hc, Hk. simpl.
    assert (due ep (ActionQueue.until e) (ActionQueue.boundary e) = false) as ->; [|done].
    unfold due. destruct (ActionQueue.until e) as [u|]; [|done].
    destruct (_ && _); [|done]. destruct (_until_to_epoch u); [|done].
    rewrite Hb. simpl. unfold expired.
    by rewrite !bool_decide_eq_false_2 by done.
  - unfold process_phase_change. by rewrite E.
Qed.

End BlockCommandsFacts.

(** ** Until tokens and the clock *)
Section UntilTokens.
Import PyStr ActionQueue BlockCommands.

Lemma lower_char_digit_id c : is_digit c = true → lower_char c = c.
Proof.
  destruct c as [[|] [|] [|] [|] [|] [|] [|] [|]]; vm_compute; congruence.
Qed.

Lemma lower_digits s : all_digits s = true → lower s = s.
Proof.
  induction s as [|c s IH]; [done|]. simpl. intros [Hc Hs]%andb_prop.
  by rewrite lower_char_digit_id, IH.
Qed.

Lemma lstrip_digits s : all_digits s = true → lstrip s = s.
Proof.
  destruct s as [|c s]; [done|]. simpl. intros [Hc _]%andb_prop.
  by rewrite digit_not_space.
Qed.

Lemma span_digits_digits s : all_digits s = true → span_digits s = (s, "").
Proof.
  induction s as [|c s IH]; [done|]. simpl. intros [Hc Hs]%andb_prop.
  by rewrite Hc, IH.
Qed.

Lemma str_of_int_digits n :
  0 ≤ n → all_digits (str_of_int n) = true ∧ str_of_int n ≠ "".
Proof.
  intros Hn. pose proof (isdigit_str_of_int n Hn) as Hd.
  unfold isdigit in Hd. destruct (str_of_int n); [done|]. by split.
Qed.

Lemma match_number_str n : 0 ≤ n → match_number (str_of_int n) = Some (str_of_int n).
Proof.
  intros [Ha He]%str_of_int_digits. unfold match_number.
  rewrite lstrip_digits, span_digits_digits by done.
  by destruct (str_of_int n).
Qed.

(** The short until tokens n<k> and d<k>, as an administrator types them. *)
Lemma until_epoch_short (day : bool) n :
  0 ≤ n →
  _until_to_epoch ((if day then "d" else "n") +:+ str_of_int n)
  = Some (epoch_of day n).
Proof.
  intros Hn. destruct (str_of_int_digits n Hn) as [Ha He].
  assert (lower (strip ((if day then "d" else "n") +:+ str_of_int n))
          = (if day then "d" else "n") +:+ str_of_int n) as Hl.
  { unfold strip.
    assert (lstrip ((if day then "d" else "n") +:+ str_of_int n)
            = (if day then "d" else "n") +:+ str_of_int n) as -> by by destruct day.
    rewrite rstrip_app_digits by done.
    destruct day; rewrite append_cons; simpl; by rewrite lower_digits. }
  unfold _until_to_epoch. rewrite Hl.
  rewrite bool_decide_eq_false_2 by by destruct day.
  rewrite bool_decide_eq_false_2 by by destruct day.
  destruct day; rewrite append_cons; unfold match_short;
    change ("" +:+ str_of_int n) with (str_of_int n);
    simpl; rewrite match_number_str by done; by rewrite int_str_of_int.
Qed.

End UntilTokens.

(** ** Blocks: what the commands and the clock do to them *)
Section BlockLifetime.
Import PyStr ActionQueue BlockCommands.

Lemma ability_blocked_lookup rb p :
  ability_blocked rb p = bool_decide (is_Some (rb !! rb_key (channel_id p) (ability p))).
Proof. reflexivity. Qed.

(** What [block_ability] and [unblock_ability] do to the registry. *)
Lemma block_ability_spec (st : State) (rc : Z) (key : string)
    (until : option string) (boundary now : string) :
  let st1 := block_ability st rc key until boundary now in
  (∀ p, channel_id p = rc → ability p = upper key →
        ability_blocked (roleblocks st1) p = true) ∧
  (∀ p, channel_id p ≠ rc ∨ ability p ≠ upper key →
        ability_blocked (roleblocks st1) p = ability_blocked (roleblocks st) p) ∧
  (∀ p, visit_blocked (roleblocks st1) p = visit_blocked (roleblocks st) p) ∧
  (∀ key', upper key' = upper key →
        (unblock_ability st1 rc key').2 = true ∧
        ∀ p, channel_id p = rc → ability p = upper key →
             ability_blocked (roleblocks (unblock_ability st1 rc key').1) p = false) ∧
  (roleblocks st !! rb_key rc (upper key) = None →
        roleblocks (unblock_ability st1 rc key).1 = roleblocks st) ∧
  pending_abilities st1 = pending_abilities st ∧ visits st1 = visits st.
Proof.
  intros st1. subst st1. unfold block_ability, with_roleblocks.
  cbn [roleblocks pending_abilities visits].
  split; [|split; [|split; [|split; [|split; [|done]]]]].
  - intros p Hc Ha. rewrite ability_blocked_lookup, Hc, Ha, lookup_insert_eq.
    by apply bool_decide_eq_true_2.
  - intros p Hp. rewrite !ability_blocked_lookup, lookup_insert_ne; [done|].
    intros [E1 E2]%rb_key_inj. destruct Hp; congruence.
  - intros p. unfold visit_blocked. rewrite lookup_insert_ne; [done|].
    apply rb_key_not_channel.
  - intros key' Hk. unfold unblock_ability, with_roleblocks.
    cbn [roleblocks]. rewrite Hk, lookup_insert_eq.
    cbn [fst snd roleblocks]. split; [done|]. intros p Hc Ha.
    rewrite ability_blocked_lookup, Hc, Ha, lookup_delete_eq.
    apply bool_decide_eq_false_2. by intros [? ?].
  - intros Hfresh. unfold unblock_ability, with_roleblocks.
    cbn [roleblocks]. rewrite lookup_insert_eq. cbn [fst roleblocks].
    by rewrite delete_insert_eq, delete_id.
Qed.

(** X1: [block_ability] blocks the uses of that ability of that channel (the
    key is compared in upper case) and no other use; it never blocks visits.
    [unblock_ability] with the key in any case finds the block and lifts it,
    and gives the registry back when nothing was stored under the key
    before. *)
Theorem X1_block_unblock_round_trip (st : State) (rc : Z) (key : string)
    (until : option string) (boundary now : string) :
  let st1 := block_ability st rc key until boundary now in
  (∀ p, channel_id p = rc → ability p = upper key →
        ability_blocked (roleblocks st1) p = true) ∧
  (∀ p, channel_id p ≠ rc ∨ ability p ≠ upper key →
        ability_blocked (roleblocks st1) p = ability_blocked (roleblocks st) p) ∧
  (∀ p, visit_blocked (roleblocks st1) p = visit_blocked (roleblocks st) p) ∧
  (∀ key', upper key' = upper key →
        (unblock_ability st1 rc key').2 = true ∧
        ∀ p, channel_id p = rc → ability p = upper key →
             ability_blocked (roleblocks (unblock_ability st1 rc key').1) p = false) ∧
  (roleblocks st !! rb_key rc (upper key) = None →
        roleblocks (unblock_ability st1 rc key).1 = roleblocks st) ∧
  pending_abilities st1 = pending_abilities st ∧ visits st1 = visits st.
Proof. apply block_ability_spec. Qed.

(** A use the cycle skips is still in the queue; a use it does not skip is
    gone. *)
Lemma cycle_keeps_blocked st p :
  Forall (λ q, status q ≠ "processed") (pending_abilities st) →
  p ∈ pending_abilities st →
  (p ∈ pending_abilities (process_os st).1 ↔ blocked (roleblocks st) p = true) ∧
  Forall (λ q, status q ≠ "processed") (pending_abilities (process_os st).1) ∧
  roleblocks (process_os st).1 = roleblocks st.
Proof.
  intros Hinv Hp. destruct (run_cycle_spec st) as (Hs & _ & _). cbv zeta in Hs.
  assert (pending_abilities (process_os st).1
          = filter (λ q, blocked (roleblocks st) q = true) (pending_abilities st))
    as Hq by (rewrite process_os_pending, Hs; by apply filter_resolved).
  split; [|split].
  - rewrite Hq, list_elem_of_filter. tauto.
  - rewrite Hq. apply Forall_forall. intros q [_ Hin]%list_elem_of_filter.
    rewrite Forall_forall in Hinv. by apply Hinv.
  - unfold process_os. by destruct (pending_abilities st).
Qed.

(** X2: a use whose ability gets blocked stays in the queue over a resolve
    cycle, and is applied by the first cycle after the block is lifted. *)
Theorem X2_blocked_use_waits_for_unblock (st : State) (rc : Z) (key : string)
    (until : option string) (boundary now : string) (p : PendingAction) :
  Forall (λ q, status q ≠ "processed") (pending_abilities st) →
  p ∈ pending_abilities st →
  channel_id p = rc → ability p = upper key →
  visit_blocked (roleblocks st) p = false →
  let st2 := (process_os (block_ability st rc key until boundary now)).1 in
  let st3 := (unblock_ability st2 rc key).1 in
  p ∈ pending_abilities st2 ∧ p ∉ pending_abilities (process_os st3).1.
Proof.
  intros Hinv Hp Hc Ha Hv st2 st3.
  destruct (block_ability_spec st rc key until boundary now)
    as (Hb & _ & Hvb & Hun & _).
  set (st1 := block_ability st rc key until boundary now) in *.
  destruct (cycle_keeps_blocked st1 p Hinv Hp) as (Hin & Hinv2 & Hrb).
  assert (p ∈ pending_abilities st2) as Hp2.
  { apply Hin. unfold blocked. by rewrite (Hb p Hc Ha). }
  split; [done|].
  assert (roleblocks st3 = delete (rb_key rc (upper key)) (roleblocks st1)) as Hrb3.
  { subst st3 st2. unfold unblock_ability. cbv zeta. rewrite Hrb.
    subst st1. unfold block_ability, with_roleblocks. cbn [roleblocks].
    by rewrite lookup_insert_eq. }
  assert (pending_abilities st3 = pending_abilities st2) as Hq3.
  { subst st3. unfold unblock_ability. by destruct (_ !! _). }
  destruct (cycle_keeps_blocked st3 p) as (Hin3 & _ & _);
    [by rewrite Hq3|by rewrite Hq3|].
  rewrite Hin3, Hrb3. unfold blocked.
  assert (ability_blocked (delete (rb_key rc (upper key)) (roleblocks st1)) p = false) as ->.
  { rewrite ability_blocked_lookup, Hc, Ha, lookup_delete_eq.
    apply bool_decide_eq_false_2. by intros [? ?]. }
  assert (visit_blocked (delete (rb_key rc (upper key)) (roleblocks st1)) p = false) as ->.
  { unfold visit_blocked. rewrite lookup_delete_ne by apply rb_key_not_channel.
    fold (visit_blocked (roleblocks st1) p). by rewrite Hvb. }
  done.
Qed.

End BlockLifetime.

Section BlockClock.
Import PyStr ActionQueue BlockCommands.

(** X2 at work: the healing of channel 9 waits while A3 is blocked. *)
Lemma X2_blocked_use_waits_for_unblock_witness :
  Forall (λ q, status q ≠ "processed") (pending_abilities Examples.session) ∧
  Examples.healing ∈ pending_abilities Examples.session ∧
  visit_blocked (roleblocks Examples.session) Examples.healing = false ∧
  Examples.healing ∈ pending_abilities
    (process_os (block_ability Examples.session 9 "a3" None "end" "t0")).1.
Proof.
  assert (Forall (λ q, status q ≠ "processed")
                 (pending_abilities Examples.session)) as P1
    by (repeat (constructor; [discriminate|]); constructor).
  assert (Examples.healing ∈ pending_abilities Examples.session) as P2
    by (apply elem_of_cons; right; apply elem_of_cons; right;
        apply elem_of_cons; by left).
  split; [exact P1|]. split; [exact P2|]. split; [reflexivity|].
  exact (proj1 (X2_blocked_use_waits_for_unblock Examples.session 9 "a3" None
                  "end" "t0" Examples.healing P1 P2 eq_refl eq_refl eq_refl)).
Defined.

Lemma set_phases_keep (l : list string) : ∀ st k e,
  roleblocks st !! k = Some e →
  (∀ rb s, rb !! k = Some e → process_phase_change rb s !! k = Some e) →
  roleblocks (foldl set_phase st l) !! k = Some e.
Proof.
  induction l as [|s l IH]; intros st k e Hk Hkeep; [done|].
  cbn [foldl]. apply IH; [|done]. unfold set_phase. cbn [roleblocks].
  by apply Hkeep.
Qed.

(** X3: a block set without an until token (stored as forever), or with a
    boundary word other than end and beginning, is never lifted by the
    clock: the ability stays blocked after any sequence of phase changes. *)
Theorem X3_clock_never_lifts (st : State) (rc : Z) (key : string)
    (until : option string) (boundary now : string) (phases : list string) :
  until_or_forever until = "forever"
  ∨ (boundary ≠ "end" ∧ boundary ≠ "beginning") →
  ∀ p, channel_id p = rc → ability p = upper key →
       ability_blocked
         (roleblocks (foldl set_phase (block_ability st rc key until boundary now)
                            phases)) p = true.
Proof.
  intros Hcase p Hc Ha. rewrite ability_blocked_lookup, Hc, Ha.
  apply bool_decide_eq_true_2. eexists.
  apply set_phases_keep.
  - unfold block_ability, with_roleblocks. cbn [roleblocks].
    apply lookup_insert_eq.
  - intros rb s Hk. destruct Hcase as [Hf|[H1 H2]].
    + apply forever_block_stays; [apply rb_key_colon|done|].
      cbn. by rewrite Hf.
    + by apply (odd_boundary_block_stays rb _ _ s boundary);
        [apply rb_key_colon|..].
Qed.

(** X3 at work: blocked without an until token, through a whole game. *)
Lemma X3_clock_never_lifts_witness :
  until_or_forever None = "forever" ∧
  ability_blocked
    (roleblocks (foldl set_phase
                   (block_ability Examples.session 9 "a3" None "end" "t0")
                   ["Night 1"; "Day 2"; "Night 2"; "postgame"]))
    Examples.healing = true.
Proof.
  split; [reflexivity|].
  exact (X3_clock_never_lifts Examples.session 9 "a3" None "end" "t0"
           ["Night 1"; "Day 2"; "Night 2"; "postgame"] (or_introl eq_refl)
           Examples.healing eq_refl eq_refl).
Defined.

(** The registry after a block command and one phase change, under the key
    of the block. *)
Lemma block_then_phase st rc key tok b now s ep ue :
  tok ≠ "" → tok ≠ "forever" →
  _until_to_epoch tok = Some ue → _phase_epoch s = Some ep →
  roleblocks (set_phase (block_ability st rc key (Some tok) b now) s)
    !! rb_key rc (upper key)
  = if expired b ep ue then None
    else Some {| ActionQueue.until := Some tok; ActionQueue.boundary := Some b;
                 set_at := Some now; ActionQueue.visit_block := None |}.
Proof.
  intros Hne Hnf Hue Hep. unfold set_phase, block_ability, with_roleblocks.
  cbn [roleblocks]. rewrite (process_phase_change_lookup _ s ep _ Hep).
  unfold sweep_key. rewrite rb_key_colon, lookup_insert_eq.
  unfold until_or_forever. rewrite (bool_decide_eq_false_2 (tok = "")) by done.
  cbn -[due expired]. rewrite (due_parsed ep tok ue (Some b) Hue).
  cbn -[expired].
  destruct (expired b ep ue).
  - apply lookup_delete_eq.
  - apply lookup_insert_eq.
Qed.

(** X4: an ability blocked until night k with the boundary end is still
    blocked during night k and free from day k+1 on; with the boundary
    beginning it is still blocked during day k and free as soon as night k
    starts. *)
Theorem X4_block_boundary_semantics (st : State) (rc : Z) (key now : string)
    (k : Z) (p : PendingAction) :
  1 ≤ k → channel_id p = rc → ability p = upper key →
  let tok := "n" +:+ str_of_int k in
  let after b s :=
    ability_blocked
      (roleblocks (set_phase (block_ability st rc key (Some tok) b now) s)) p in
  after "end" (Phases.display "night" k) = true ∧
  after "end" (Phases.display "day" (k + 1)) = false ∧
  after "beginning" (Phases.display "day" k) = true ∧
  after "beginning" (Phases.display "night" k) = false.
Proof.
  intros Hk Hc Ha tok after. subst after tok. cbv beta.
  rewrite !ability_blocked_lookup, Hc, Ha.
  change (Phases.display "night" k) with ("Night " +:+ str_of_int k).
  change (Phases.display "day" k) with ("Day " +:+ str_of_int k).
  change (Phases.display "day" (k + 1)) with ("Day " +:+ str_of_int (k + 1)).
  assert ("n" +:+ str_of_int k ≠ "") as H1 by done.
  assert ("n" +:+ str_of_int k ≠ "forever") as H2 by done.
  pose proof (until_epoch_short false k ltac:(lia)) as Hu.
  cbn [negb] in Hu.
  rewrite (block_then_phase st rc key _ "end" now _ _ _ H1 H2 Hu
             (phase_epoch_night k ltac:(lia))).
  rewrite (block_then_phase st rc key _ "end" now _ _ _ H1 H2 Hu
             (phase_epoch_day (k + 1) ltac:(lia))).
  rewrite (block_then_phase st rc key _ "beginning" now _ _ _ H1 H2 Hu
             (phase_epoch_day k ltac:(lia))).
  rewrite (block_then_phase st rc key _ "beginning" now _ _ _ H1 H2 Hu
             (phase_epoch_night k ltac:(lia))).
  unfold expired, epoch_of.
  rewrite !(bool_decide_eq_true_2 ("end" = "end")) by done.
  rewrite !(bool_decide_eq_false_2 ("end" = "beginning")) by done.
  rewrite !(bool_decide_eq_true_2 ("beginning" = "beginning")) by done.
  rewrite !(bool_decide_eq_false_2 ("beginning" = "end")) by done.
  cbn [andb orb].
  rewrite (proj2 (Z.ltb_ge _ _)) by lia.
  rewrite (proj2 (Z.ltb_lt ((k - 1) * 2 + 1) ((k + 1 - 1) * 2))) by lia.
  rewrite (proj2 (Z.leb_gt _ _)) by lia.
  rewrite (proj2 (Z.leb_le _ _)) by lia.
  cbn [orb]. repeat split;
    (by apply bool_decide_eq_true_2) || (apply bool_decide_eq_false_2; by intros [? ?]).
Qed.

(** X4 at k = 2. *)
Lemma X4_block_boundary_semantics_witness :
  1 ≤ 2 ∧
  ability_blocked
    (roleblocks (set_phase (block_ability Examples.session 9 "a3" (Some "n2")
                              "end" "t0") "Night 2")) Examples.healing = true ∧
  ability_blocked
    (roleblocks (set_phase (block_ability Examples.session 9 "a3" (Some "n2")
                              "end" "t0") "Day 3")) Examples.healing = false.
Proof.
  pose proof (X4_block_boundary_semantics Examples.session 9 "a3" "t0" 2
                Examples.healing ltac:(lia) eq_refl eq_refl) as (H1 & H2 & _).
  split; [lia|]. split; [exact H1|exact H2].
Defined.

End BlockClock.

(** ** Visit blocks and visit inventories of channels *)
Section VisitCommands.
Import PyStr ActionQueue BlockCommands.

(** X5: [visit_block] blocks the visits of the channel and of no other
    channel, and blocks no ability; [unvisit_block] then finds the block and
    lifts it, leaving the channel record in the registry. *)
Theorem X5_visit_block_round_trip (st : State) (rc : Z) (until now : string) :
  let st1 := visit_block st rc until now in
  (∀ p, channel_id p = rc → visit_blocked (roleblocks st1) p = true) ∧
  (∀ p, channel_id p ≠ rc →
        visit_blocked (roleblocks st1) p = visit_blocked (roleblocks st) p) ∧
  (∀ p, ability_blocked (roleblocks st1) p = ability_blocked (roleblocks st) p) ∧
  (unvisit_block st1 rc).2 = true ∧
  (∀ p, channel_id p = rc →
        visit_blocked (roleblocks (unvisit_block st1 rc).1) p = false) ∧
  is_Some (roleblocks (unvisit_block st1 rc).1 !! str_of_int rc) ∧
  (unvisit_block (unvisit_block st1 rc).1 rc).2 = false.
Proof.
  intros st1. subst st1. unfold visit_block, with_roleblocks.
  cbn [roleblocks]. split; [|split; [|split]].
  - intros p Hc. unfold visit_blocked. by rewrite Hc, lookup_insert_eq.
  - intros p Hc. unfold visit_blocked. rewrite lookup_insert_ne; [done|].
    intros H. apply Hc. by apply str_of_int_inj.
  - intros p. rewrite !ability_blocked_lookup, lookup_insert_ne; [done|].
    intros H. symmetry in H. by apply rb_key_not_channel in H.
  - unfold unvisit_block, with_roleblocks. cbn [roleblocks].
    rewrite lookup_insert_eq. cbn [ActionQueue.visit_block fst snd roleblocks].
    split; [done|]. split; [|split].
    + intros p Hc. unfold visit_blocked. by rewrite Hc, lookup_insert_eq.
    + rewrite lookup_insert_eq. by eexists.
    + by rewrite lookup_insert_eq.
Qed.

(** The registry after a visit block command and one phase change. *)
Lemma visit_block_then_phase st rc tok now s ep ue (p : PendingAction) :
  channel_id p = rc →
  _until_to_epoch tok = Some ue → _phase_epoch s = Some ep →
  visit_blocked (roleblocks (set_phase (visit_block st rc tok now) s)) p
  = negb (expired "end" ep ue).
Proof.
  intros Hc Hue Hep. unfold visit_blocked, set_phase, visit_block, with_roleblocks.
  cbn [roleblocks]. rewrite Hc.
  rewrite (process_phase_change_lookup _ s ep _ Hep).
  unfold sweep_key. rewrite no_colon_str, lookup_insert_eq.
  cbn -[due expired]. rewrite (due_parsed ep tok ue None Hue).
  cbn -[expired]. destruct (expired "end" ep ue); [|by rewrite lookup_insert_eq].
  destruct (entry_nonempty _).
  - by rewrite lookup_insert_eq.
  - by rewrite lookup_delete_eq.
Qed.

(** X6: a visit block stores no boundary and so ends with its phase: set
    until day k, it still holds during day k and is lifted when night k
    starts. *)
Theorem X6_visit_block_ends_with_phase (st : State) (rc : Z) (now : string) (k : Z)
    (p : PendingAction) :
  1 ≤ k → channel_id p = rc →
  let st1 := visit_block st rc ("d" +:+ str_of_int k) now in
  visit_blocked (roleblocks (set_phase st1 (Phases.display "day" k))) p = true ∧
  visit_blocked (roleblocks (set_phase st1 (Phases.display "night" k))) p = false.
Proof.
  intros Hk Hc st1. subst st1.
  change (Phases.display "night" k) with ("Night " +:+ str_of_int k).
  change (Phases.display "day" k) with ("Day " +:+ str_of_int k).
  pose proof (until_epoch_short true k ltac:(lia)) as Hu.
  rewrite (visit_block_then_phase st rc _ now _ _ _ p Hc Hu
             (phase_epoch_day k ltac:(lia))).
  rewrite (visit_block_then_phase st rc _ now _ _ _ p Hc Hu
             (phase_epoch_night k ltac:(lia))).
  unfold expired, epoch_of.
  rewrite !(bool_decide_eq_true_2 ("end" = "end")) by done.
  rewrite !(bool_decide_eq_false_2 ("end" = "beginning")) by done.
  cbn [andb orb].
  rewrite (proj2 (Z.ltb_ge _ _)) by lia.
  rewrite (proj2 (Z.ltb_lt _ _)) by lia. done.
Qed.

(** X6 at k = 3, for the channel of the healing. *)
Lemma X6_visit_block_ends_with_phase_witness :
  1 ≤ 3 ∧ channel_id Examples.healing = 9 ∧
  visit_blocked (roleblocks (set_phase (visit_block Examples.session 9 "d3" "t0")
                               "Night 3")) Examples.healing = false.
Proof.
  split; [lia|]. split; [reflexivity|].
  exact (proj2 (X6_visit_block_ends_with_phase Examples.session 9 "t0" 3
                  Examples.healing ltac:(lia) eq_refl)).
Defined.

(** X7: [remove_visits] deletes the whole entry of the type, whatever count
    is given, and leaves the other types and channels alone; it refuses when
    the channel has no entry of the type. *)
Theorem X7_remove_visits_ignores_count (st : State) (rc : Z)
    (count count' : string) (vtype : option string) :
  remove_visits st rc count vtype = remove_visits st rc count' vtype ∧
  (∀ st', remove_visits st rc count vtype = Some st' →
     (visits st' !! rc ≫= (.!! visit_type vtype)) = None ∧
     (∀ t, t ≠ visit_type vtype →
           (visits st' !! rc ≫= (.!! t)) = (visits st !! rc ≫= (.!! t))) ∧
     (∀ rc', rc' ≠ rc → visits st' !! rc' = visits st !! rc') ∧
     roleblocks st' = roleblocks st ∧
     pending_abilities st' = pending_abilities st) ∧
  (remove_visits st rc count vtype = None ↔
     (visits st !! rc ≫= (.!! visit_type vtype)) = None).
Proof.
  unfold remove_visits. destruct (visits st !! rc) as [inv|] eqn:E; simpl.
  - destruct (inv !! visit_type vtype) as [val|] eqn:Et.
    + split; [by repeat case_bool_decide|].
      split; [|case_bool_decide; split; intros [=]].
      intros st' Hst'.
      assert (st' = with_visits st (<[rc := delete (visit_type vtype) inv]> (visits st)))
        as -> by (case_bool_decide; congruence).
      unfold with_visits. cbn [visits roleblocks pending_abilities].
      rewrite lookup_insert_eq. simpl. rewrite lookup_delete_eq.
      split; [done|]. split; [|split; [|done]].
      * intros t Ht. by rewrite lookup_delete_ne.
      * intros rc' Hrc. by rewrite lookup_insert_ne.
    + split; [done|]. split; [by intros st' [=]|done].
  - split; [done|]. split; [by intros st' [=]|done].
Qed.

End VisitCommands.

Section GrantedVisits.
Import PyStr ActionQueue BlockCommands.

Lemma lower_app a b : lower (a +:+ b) = lower a +:+ lower b.
Proof. induction a as [|c a IH]; [done|]. rewrite append_cons. simpl. by rewrite IH. Qed.






End GrantedVisits.

(** ** The sweep as an operation on the registry *)
Section SweepAlgebra.
Import PyStr ActionQueue.

Lemma expired_mono b e1 e2 ue :
  e1 ≤ e2 → expired b e1 ue = true → expired b e2 ue = true.
Proof.
  intros He [[? ?]|[? ?]]%expired_spec; apply expired_spec;
    [left|right]; (split; [done|lia]).
Qed.

Lemma due_mono e1 e2 u b : e1 ≤ e2 → due e1 u b = true → due e2 u b = true.
Proof.
  intros He. unfold due. destruct u as [u|]; [|done].
  destruct (_ && _); [|done]. destruct (_until_to_epoch u); [|done].
  by apply expired_mono.
Qed.

(** Visiting a key at a later epoch after an earlier one leaves what the
    later epoch alone leaves. *)
Lemma sweep_key_twice e1 e2 rb k :
  e1 ≤ e2 →
  sweep_key e2 (sweep_key e1 rb k) k !! k = sweep_key e2 rb k !! k.
Proof.
  intros He. unfold sweep_key at 2. destruct (contains_char ":" k) eqn:Hc.
  - destruct (due e1 _ _) eqn:Hd1; [|done].
    pose proof (due_mono e1 e2 _ _ He Hd1) as Hd2.
    unfold sweep_key. rewrite Hc, lookup_delete_eq, Hd2. simpl.
    by rewrite !lookup_delete_eq.
  - destruct (rb !! k) as [entry|] eqn:Hk; [|done].
    destruct (visit_block entry) as [vb|] eqn:Hvb; [|done].
    destruct (vb_nonempty vb && due e1 (vb_until vb) (vb_boundary vb)) eqn:Hd1; [|done].
    assert (vb_nonempty vb && due e2 (vb_until vb) (vb_boundary vb) = true) as Hd2.
    { apply andb_prop in Hd1 as [-> Hd1]. simpl. by apply (due_mono e1). }
    unfold sweep_key. rewrite Hc, Hk, Hvb, Hd2.
    destruct (entry_nonempty (del_visit_block entry)).
    + rewrite !lookup_insert_eq. cbn [visit_block del_visit_block].
      by rewrite lookup_insert_eq.
    + rewrite !lookup_delete_eq. by rewrite ?lookup_delete_eq.
Qed.

(** X9: the sweep on a change to a later phase does all the work of the
    sweeps of the earlier phases: sweeping at an earlier phase first changes
    nothing in the result, and sweeping twice for the same phase is the same
    as once. *)
Theorem X9_later_sweep_subsumes (rb : gmap string Entry) (s1 s2 : string) (e1 e2 : Z) :
  _phase_epoch s1 = Some e1 → _phase_epoch s2 = Some e2 → e1 ≤ e2 →
  process_phase_change (process_phase_change rb s1) s2 = process_phase_change rb s2 ∧
  process_phase_change (process_phase_change rb s2) s2 = process_phase_change rb s2.
Proof.
  intros H1 H2 He.
  assert (∀ sa sb ea eb, _phase_epoch sa = Some ea → _phase_epoch sb = Some eb →
            ea ≤ eb →
            process_phase_change (process_phase_change rb sa) sb
            = process_phase_change rb sb) as Hgen.
  { intros sa sb ea eb Ha Hb Hab. apply map_eq. intros k.
    rewrite (process_phase_change_lookup _ sb eb k Hb).
    rewrite (process_phase_change_lookup rb sb eb k Hb).
    rewrite (sweep_key_local eb _ (sweep_key ea rb k) k
               (process_phase_change_lookup rb sa ea k Ha)).
    by apply sweep_key_twice. }
  split; [by eapply Hgen|]. eapply Hgen; [done..|lia].
Qed.

(** X9 at work: day 2, then day 3, is day 3. *)
Lemma X9_later_sweep_subsumes_witness :
  _phase_epoch "Day 2" = Some 2 ∧ _phase_epoch "Day 3" = Some 4 ∧ 2 ≤ 4 ∧
  process_phase_change (process_phase_change Examples.blocks "Day 2") "Day 3"
  = process_phase_change Examples.blocks "Day 3".
Proof.
  split; [reflexivity|]. split; [reflexivity|]. split; [lia|].
  exact (proj1 (X9_later_sweep_subsumes Examples.blocks "Day 2" "Day 3" 2 4
                  eq_refl eq_refl ltac:(lia))).
Defined.

(** What is under a key after the sweep was under it before, with at most
    the visit block taken out. *)
Lemma sweep_only_removes rb s k e' :
  process_phase_change rb s !! k = Some e' →
  ∃ e, rb !! k = Some e ∧ (e' = e ∨ (e' = del_visit_block e ∧ is_Some (visit_block e))).
Proof.
  destruct (_phase_epoch s) as [ep|] eqn:E.
  - rewrite (process_phase_change_lookup rb s ep k E). unfold sweep_key.
    destruct (contains_char ":" k).
    + destruct (due ep _ _); [by rewrite lookup_delete_eq|].
      intros H. exists e'. by split; [|left].
    + destruct (rb !! k) as [entry|] eqn:Hk; [|by rewrite Hk].
      destruct (visit_block entry) as [vb|] eqn:Hvb;
        [|rewrite Hk; intros [= <-]; exists entry; by split; [|left]].
      destruct (_ && _); [|rewrite Hk; intros [= <-]; exists entry; by split; [|left]].
      destruct (entry_nonempty _); [|by rewrite lookup_delete_eq].
      rewrite lookup_insert_eq. intros [= <-]. exists entry. split; [done|].
      right. split; [done|]. rewrite Hvb. by eexists.
  - unfold process_phase_change. rewrite E. intros H. exists e'. by split; [|left].
Qed.

(** X10: a phase change never blocks anything: a use that is blocked after
    the change was blocked before it, for ability blocks and for visit
    blocks alike. *)
Theorem X10_sweep_never_blocks (st : State) (s : string) (p : PendingAction) :
  (ability_blocked (roleblocks (set_phase st s)) p = true →
   ability_blocked (roleblocks st) p = true) ∧
  (visit_blocked (roleblocks (set_phase st s)) p = true →
   visit_blocked (roleblocks st) p = true) ∧
  pending_abilities (set_phase st s) = pending_abilities st ∧
  visits (set_phase st s) = visits st.
Proof.
  unfold set_phase. cbn [roleblocks pending_abilities visits].
  split; [|split; [|done]].
  - unfold ability_blocked. rewrite !bool_decide_eq_true.
    intros [e' (e & He & _)%sweep_only_removes]. by eexists.
  - unfold visit_blocked.
    destruct (process_phase_change (roleblocks st) s !! _) as [e'|] eqn:E; [|done].
    apply sweep_only_removes in E as (e & -> & [->|[-> _]]); done.
Qed.

End SweepAlgebra.

(** ** The resolve cycle as an operation on the session *)
Section CycleAlgebra.
Import PyStr ActionQueue.

Lemma strongly_sorted_lookup {A} (R : relation A) l (i j : nat) a b :
  StronglySorted R l → (i < j)%nat → l !! i = Some a → l !! j = Some b → R a b.
Proof.
  intros Hs. revert i j. induction Hs as [|x l Hl IH Hx]; intros i j Hij Hi Hj; [done|].
  destruct j as [|j]; [lia|]. destruct i as [|i]; simpl in *.
  - injection Hi as ->. rewrite Forall_forall in Hx. apply Hx.
    by eapply list_elem_of_lookup_2.
  - apply (IH i j); [lia|done..].
Qed.

Lemma insert_by_fmap {A B} (f : A → B) (key : B → Z * Z * Z) x l :
  f <$> insert_by (λ r, key (f r)) x l = insert_by key (f x) (f <$> l).
Proof.
  induction l as [|y l IH]; [done|]. cbn [insert_by fmap list_fmap].
  destruct (key_ltb (key (f y)) (key (f x))); [|done].
  cbn [fmap list_fmap]. f_equal. apply IH.
Qed.

Lemma sorted_fmap {A B} (f : A → B) (key : B → Z * Z * Z) l :
  f <$> sorted (λ r, key (f r)) l = sorted key (f <$> l).
Proof.
  induction l as [|x l IH]; [done|]. unfold sorted in *. cbn [foldr fmap list_fmap].
  by rewrite insert_by_fmap, IH.
Qed.

(** X11: the order of [os_abilities] is the queue rearranged by category
    first (Manipulation, Blocking, Protection, Curing, Lethal, Other,
    Transport, then every other category), by the index of the team within
    one category, and by submission time within one team; uses with the same
    key keep the order of the queue. *)
Theorem X11_resolution_order (pending : list PendingAction) :
  os_abilities pending ≡ₚ pending ∧
  (∀ (i j : nat) a b, (i < j)%nat →
     os_abilities pending !! i = Some a → os_abilities pending !! j = Some b →
     priority (category a) ≤ priority (category b) ∧
     (priority (category a) = priority (category b) →
        team_idx a ≤ team_idx b ∧
        (team_idx a = team_idx b → timestamp a ≤ timestamp b))) ∧
  (∀ key, filter (λ p, sort_key p = key) (os_abilities pending)
          = filter (λ p, sort_key p = key) pending) ∧
  (λ i, pending !! i) <$> ordered pending = Some <$> os_abilities pending.
Proof.
  split; [apply sorted_perm|]. split; [|split; [intros; apply sorted_stable|]].
  - intros i j a b Hij Hi Hj.
    pose proof (strongly_sorted_lookup _ _ i j a b
                  (sorted_sorted sort_key pending) Hij Hi Hj) as H.
    cbv beta in H. apply not_true_iff_false in H. rewrite key_ltb_spec in H.
    unfold sort_key in H. simpl in H. lia.
  - unfold ordered, os_abilities.
    pose proof (sorted_fmap (snd : nat * PendingAction → PendingAction) sort_key)
      as Hsnd.
    assert (∀ r, r ∈ sorted (λ r : nat * PendingAction, sort_key r.2) (imap pair pending) →
                 pending !! r.1 = Some r.2) as Hin.
    { intros r. rewrite sorted_perm. intros (i & y & -> & Hy)%elem_of_lookup_imap. done. }
    assert ((imap pair pending).*2 = pending) as Himap.
    { rewrite fmap_imap.
      change (imap (λ n, snd ∘ pair n) pending) with (imap (const (@id PendingAction)) pending).
      by rewrite imap_const, list_fmap_id. }
    rewrite <- Himap at 2. rewrite <- Hsnd.
    rewrite <- !list_fmap_compose. apply list_fmap_ext.
    intros i r Hr. simpl. apply Hin. by eapply list_elem_of_lookup_2.
Qed.

(** A cycle over a queue of blocked uses only skips. *)
Lemma cycle_all_blocked rb (refs : list nat) : ∀ c,
  (∀ i, i ∈ refs → ∃ p, store c !! i = Some p ∧ blocked rb p = true) →
  store (foldl (process_one rb) c refs) = store c ∧
  cycle_visits (foldl (process_one rb) c refs) = cycle_visits c ∧
  processed (foldl (process_one rb) c refs) = processed c ∧
  length (skipped (foldl (process_one rb) c refs))
  = (length (skipped c) + length refs)%nat.
Proof.
  induction refs as [|i refs IH]; intros c Hall; cbn [foldl].
  - repeat split. simpl. lia.
  - destruct (Hall i) as (p & Hp & Hb); [by apply elem_of_cons; left|].
    assert (∃ r, process_one rb c i = skip c i r) as [r Hr].
    { rewrite (process_one_spec rb c i p Hp). unfold blocked in Hb.
      destruct (ability_blocked rb p); [by eexists|].
      destruct (visit_blocked rb p); [by eexists|done]. }
    rewrite Hr. destruct (IH (skip c i r)) as (H1 & H2 & H3 & H4).
    { intros i' Hi'. apply Hall. by apply elem_of_cons; right. }
    rewrite H1, H2, H3, H4. unfold skip. cbn [store cycle_visits processed skipped].
    repeat split. rewrite length_app. simpl. lia.
Qed.

Lemma filter_all {A} (P : A → Prop) `{∀ x, Decision (P x)} (l : list A) :
  Forall P l → filter P l = l.
Proof.
  induction 1 as [|x l Hx Hl IH]; [done|].
  by rewrite filter_cons, decide_True, IH.
Qed.

Lemma length_ordered pending : length (ordered pending) = length pending.
Proof. by rewrite ordered_perm, length_seq. Qed.

(** X12: a second resolve cycle right after a first one does nothing: the
    queue, the inventories and the blocks stay as the first cycle left them,
    and the cycle reports no processed use and as many skipped uses as the
    queue holds. *)
Theorem X12_second_cycle_is_idle (st : State) :
  Forall (λ p, status p ≠ "processed") (pending_abilities st) →
  let st1 := (process_os st).1 in
  pending_abilities (process_os st1).1 = pending_abilities st1 ∧
  visits (process_os st1).1 = visits st1 ∧
  roleblocks (process_os st1).1 = roleblocks st1 ∧
  current_phase (process_os st1).1 = current_phase st1 ∧
  (process_os st1).2 = (0%nat, length (pending_abilities st1)).
Proof.
  intros Hinv st1.
  assert (roleblocks st1 = roleblocks st) as Hrb.
  { subst st1. unfold process_os. by destruct (pending_abilities st). }
  assert (Forall (λ p, blocked (roleblocks st1) p = true
                       ∧ status p ≠ "processed") (pending_abilities st1)) as Hall.
  { rewrite Hrb. subst st1. destruct (run_cycle_spec st) as (Hs & _ & _).
    cbv zeta in Hs. rewrite process_os_pending, Hs, filter_resolved by done.
    apply Forall_forall. intros p [Hb Hin]%list_elem_of_filter. split; [done|].
    rewrite Forall_forall in Hinv. by apply Hinv. }
  clearbody st1. clear Hrb Hinv st.
  unfold process_os. destruct (pending_abilities st1) as [|q l] eqn:E; [done|].
  rewrite <- E in *. cbn [fst snd pending_abilities visits roleblocks current_phase].
  destruct (cycle_all_blocked (roleblocks st1) (ordered (pending_abilities st1))
              {| store := pending_abilities st1; cycle_visits := visits st1;
                 processed := []; skipped := [] |}) as (H1 & H2 & H3 & H4).
  { intros i Hi%elem_of_ordered. cbn [store].
    destruct (lookup_lt_is_Some_2 _ _ Hi) as [p Hp]. exists p. split; [done|].
    rewrite Forall_forall in Hall. apply Hall. by eapply list_elem_of_lookup_2. }
  fold (run_cycle st1) in H1, H2, H3, H4. rewrite H1, H2, H3, H4.
  cbn [store cycle_visits processed skipped length]. rewrite length_ordered.
  split; [|done]. apply filter_all. eapply Forall_impl; [exact Hall|]. by intros p [_ ?].
Qed.

(** X12 at work on the sample session. *)
Lemma X12_second_cycle_is_idle_witness :
  Forall (λ p, status p ≠ "processed") (pending_abilities Examples.session) ∧
  (process_os (process_os Examples.session).1).2 = (0%nat, 2%nat).
Proof.
  assert (Forall (λ p, status p ≠ "processed")
                 (pending_abilities Examples.session)) as P1
    by (repeat (constructor; [discriminate|]); constructor).
  split; [exact P1|].
  exact (eq_trans (proj2 (proj2 (proj2 (proj2
           (X12_second_cycle_is_idle Examples.session P1))))) eq_refl).
Defined.

End CycleAlgebra.

(** ** The clock under the phase commands *)
Section ClockCommands.
Import PyStr ActionQueue Phases PhaseCommands.

Lemma display_epoch tok n :
  0 ≤ n → tok ∈ ["day"; "night"] →
  _phase_epoch (display tok n) = Some (epoch_of (bool_decide (tok = "day")) n).
Proof.
  intros Hn Htok. rewrite !elem_of_cons, elem_of_nil in Htok.
  destruct Htok as [->|[->|[]]].
  - change (display "day" n) with ("Day " +:+ str_of_int n).
    rewrite phase_epoch_day by done. unfold epoch_of. f_equal. simpl. lia.
  - change (display "night" n) with ("Night " +:+ str_of_int n).
    by rewrite phase_epoch_night.
Qed.

Lemma get_phase_for_guild_record phs g tok n :
  _get_phase_record phs g = (tok, n) → _get_phase_for_guild phs g = display tok n.
Proof. intros H. unfold _get_phase_for_guild. by rewrite H. Qed.

(** X13: while the game alternates between day and night, the epoch of the
    displayed phase goes up by exactly one at each change from night to day
    and from day to night, and stays where it is when the same token is set
    again. *)
Theorem X13_epoch_advances_by_one (b : Bot) (guild_id : Z) (tok : string) (n : Z) :
  1 ≤ n → tok ∈ ["day"; "night"] →
  _get_phase_record (phases b) guild_id = (tok, n) →
  let epoch b' := _phase_epoch (_get_phase_for_guild (phases b') guild_id) in
  ∃ e, epoch b = Some e ∧
    (tok = "night" → epoch (set_day b guild_id).1 = Some (e + 1) ∧
                     epoch (set_night b guild_id).1 = Some e) ∧
    (tok = "day" → epoch (set_night b guild_id).1 = Some (e + 1) ∧
                   epoch (set_day b guild_id).1 = Some e) ∧
    phases (phase_set b guild_id "day").1 = phases (set_day b guild_id).1 ∧
    phases (phase_set b guild_id "night").1 = phases (set_night b guild_id).1.
Proof.
  intros Hn Htok Hrec epoch. subst epoch. cbv beta.
  rewrite (get_phase_for_guild_record _ _ _ _ Hrec), display_epoch by (done || lia).
  eexists. split; [done|].
  assert (∀ p, p ∈ ["day"; "night"] →
            _get_phase_for_guild (_set_phase_for_guild (phases b) guild_id p) guild_id
            = display p (new_count tok n p)) as Hset.
  { intros p Hp. apply get_phase_for_guild_record. rewrite get_phase_record_set, Hrec.
    rewrite !elem_of_cons, elem_of_nil in Hp. by destruct Hp as [->|[->|[]]]. }
  unfold set_day, set_night. cbn [fst phases].
  rewrite !Hset by (rewrite !elem_of_cons; tauto).
  split; [|split; [|done]].
  - intros ->. rewrite !display_epoch;
      [|unfold new_count; simpl; lia|rewrite !elem_of_cons; tauto
       |unfold new_count; simpl; lia|rewrite !elem_of_cons; tauto].
    unfold new_count, epoch_of. simpl. split; f_equal; lia.
  - intros ->. rewrite !display_epoch;
      [|unfold new_count; simpl; lia|rewrite !elem_of_cons; tauto
       |unfold new_count; simpl; lia|rewrite !elem_of_cons; tauto].
    unfold new_count, epoch_of. simpl. split; f_equal; lia.
Qed.

(** X13 at work: from night 1 to day 2. *)
Lemma X13_epoch_advances_by_one_witness :
  1 ≤ 1 ∧ "night" ∈ ["day"; "night"] ∧
  _get_phase_record (phases Examples.bot) 1 = ("night", 1) ∧
  _phase_epoch (_get_phase_for_guild (phases (set_day Examples.bot 1).1) 1) = Some 2.
Proof.
  assert ("night" ∈ ["day"; "night"]) as P
    by (apply elem_of_cons; right; apply elem_of_cons; by left).
  split; [lia|]. split; [exact P|]. split; [reflexivity|].
  destruct (X13_epoch_advances_by_one Examples.bot 1 "night" 1 ltac:(lia) P eq_refl)
    as (e & He & Hnight & _).
  destruct (Hnight eq_refl) as [H _]. rewrite H. f_equal.
  assert (Some e = Some 1) as [= ->] by (rewrite <- He; reflexivity). reflexivity.
Defined.

Lemma next_phase_spec t :
  next_phase t = if bool_decide (t = "night") then "day"
                 else if bool_decide (t = "day") then "postgame"
                 else if bool_decide (t = "postgame") then "pregame"
                 else "night".
Proof.
  unfold next_phase, PHASE_ORDER. cbn [index].
  repeat case_bool_decide; subst; done.
Qed.

(** X14: [phase_next] moves along pregame, night, day, postgame and back to
    pregame; a stored token outside the list is followed by night. The
    counter is 1 after every step except the one from night to day, which
    adds one. The action queue is left alone: no block is swept. *)
Theorem X14_phase_next_cycle (b : Bot) (guild_id : Z) :
  let '(tok, n) := _get_phase_record (phases b) guild_id in
  let b' := (phase_next b guild_id).1 in
  _get_phase_record (phases b') guild_id
  = (if bool_decide (tok = "night") then ("day", n + 1)
     else if bool_decide (tok = "day") then ("postgame", 1)
     else if bool_decide (tok = "postgame") then ("pregame", 1)
     else ("night", 1)) ∧
  (_get_phase_record (phases b') guild_id).1 ∈ PHASE_ORDER ∧
  action_queue b' = action_queue b ∧
  (tok ∈ PHASE_ORDER →
   get_phase_token
     (phases (phase_next (phase_next (phase_next (phase_next b guild_id).1
                                        guild_id).1 guild_id).1 guild_id).1)
     guild_id = tok).
Proof.
  destruct (_get_phase_record (phases b) guild_id) as [tok n] eqn:Hrec.
  assert (∀ b0 t m, _get_phase_record (phases b0) guild_id = (t, m) →
            _get_phase_record (phases (phase_next b0 guild_id).1) guild_id
            = (if bool_decide (t = "night") then ("day", m + 1)
               else if bool_decide (t = "day") then ("postgame", 1)
               else if bool_decide (t = "postgame") then ("pregame", 1)
               else ("night", 1))) as Hstep.
  { intros b0 t m H0. unfold phase_next, get_phase_token. cbn [fst phases].
    rewrite get_phase_record_set, H0. cbn [fst snd]. rewrite next_phase_spec.
    repeat case_bool_decide; subst; try done.
    unfold new_count, is_day_or_night. cbn [lower].
    rewrite (bool_decide_eq_false_2 (t ∈ ["day"; "night"]));
      [done|rewrite !elem_of_cons, elem_of_nil; intros [?|[?|[]]]; done]. }
  cbv zeta. rewrite (Hstep b tok n Hrec). split; [done|]. split; [|split; [done|]].
  - unfold PHASE_ORDER. repeat case_bool_decide; cbn [fst];
      rewrite !elem_of_cons; tauto.
  - intros Htok.
    assert (∀ b0, get_phase_token (phases (phase_next b0 guild_id).1) guild_id
                  = next_phase (get_phase_token (phases b0) guild_id)) as Hnext.
    { intros b0. unfold get_phase_token.
      destruct (_get_phase_record (phases b0) guild_id) as [t m] eqn:H0.
      rewrite (Hstep b0 t m H0), next_phase_spec. cbn [fst].
      by repeat case_bool_decide. }
    rewrite !Hnext. unfold get_phase_token. rewrite Hrec. cbn [fst].
    unfold PHASE_ORDER in Htok. rewrite !elem_of_cons, elem_of_nil in Htok.
    by destruct Htok as [->|[->|[->|[->|[]]]]].
Qed.

End ClockCommands.

(** ** Inventories of players *)
Section PlayerInventories.
Import PyStr VisitCount VisitCountMore.

(** X15: the keys of two different players never coincide, so that the
    counters and the income of a player are touched by no command on another
    player: [add_visits], [set_counts], [set_income] and [consume_visit] for
    one player leave what [get_counts] and [get_income] give for any other
    player. *)
Theorem X15_players_are_separate (d : Data) (g m g' m' : Z) :
  (g, m) ≠ (g', m') →
  _key g m ≠ _key g' m' ∧
  (∀ kind amount d1, add_visits d g m kind amount = Some d1 →
     get_counts d1 g' m' = get_counts d g' m' ∧ get_income d1 g' m' = get_income d g' m') ∧
  (∀ c, get_counts (set_counts d g m c) g' m' = get_counts d g' m') ∧
  (∀ night day, get_income (set_income d g m night day) g' m' = get_income d g' m' ∧
                get_counts (set_income d g m night day) g' m' = get_counts d g' m') ∧
  (∀ kind, get_counts (consume_visit d g m kind).1 g' m' = get_counts d g' m').
Proof.
  intros Hne.
  assert (_key g m ≠ _key g' m') as Hk.
  { intros [-> ->]%key_inj. done. }
  split; [done|]. split; [|split; [|split]].
  - intros kind amount d1. unfold add_visits. destruct (valid_kind kind); [|done].
    intros [= <-]. unfold get_counts, get_income, with_counts. cbn [counts income].
    by rewrite lookup_insert_ne.
  - intros c. unfold get_counts, set_counts, with_counts. cbn [counts].
    by rewrite lookup_insert_ne.
  - intros night day. unfold get_counts, get_income, set_income. cbn [counts income].
    by rewrite lookup_insert_ne.
  - intros kind. unfold get_counts, consume_visit.
    destruct (0 <? _); cbn [fst with_counts counts]; by rewrite lookup_insert_ne.
Qed.

(** X15 at work: players 2 and 4 of guild 1. *)
Lemma X15_players_are_separate_witness :
  (1, 2) ≠ (1, 4) ∧
  get_counts (consume_visit Examples.inventory 1 2 "stealth").1 1 4
  = get_counts Examples.inventory 1 4.
Proof.
  assert ((1, 2) ≠ (1, 4)) as P by discriminate.
  split; [exact P|].
  exact (proj2 (proj2 (proj2 (proj2
           (X15_players_are_separate Examples.inventory 1 2 1 4 P)))) "stealth").
Defined.

(** X16: [add_visits] refuses a kind other than night, day, forced and
    stealth and stores nothing; for one of the four it adds the amount to
    that counter (a missing counter counting as 0) and leaves the three
    others. The amount is not checked: a negative amount can take the
    counter below zero, and the player then has no visit of the kind. *)
Theorem X16_add_visits (d : Data) (g m : Z) (kind : string) (amount : Z) :
  (kind ∉ ["night"; "day"; "forced"; "stealth"] →
     add_visits d g m kind amount = None) ∧
  (kind ∈ ["night"; "day"; "forced"; "stealth"] →
     ∃ d1, add_visits d g m kind amount = Some d1 ∧
       get_counts d1 g m
       = <[kind := default 0 (get_counts d g m !! kind) + amount]> (get_counts d g m) ∧
       income d1 = income d ∧ phase d1 = phase d ∧
       (default 0 (get_counts d g m !! kind) + amount ≤ 0 →
          has_visit d1 g m kind = false ∧ (consume_visit d1 g m kind).2 = false)).
Proof.
  unfold add_visits, valid_kind. split; intros Hk.
  - by rewrite bool_decide_eq_false_2.
  - rewrite bool_decide_eq_true_2 by done. eexists. split; [done|].
    unfold get_counts, with_counts. cbn [counts income phase].
    rewrite lookup_insert_eq. cbn [default from_option id].
    split; [done|]. split; [done|]. split; [done|]. intros Hneg.
    unfold has_visit, consume_visit, get_counts, with_counts. cbn [counts].
    rewrite !lookup_insert_eq. simpl. rewrite !lookup_insert_eq. simpl.
    rewrite (proj2 (Z.ltb_ge _ _)) by done. done.
Qed.

(** X17: [get_counts] after [set_counts] gives the four counters that were
    stored, 0 for each one the dictionary did not have, and nothing else;
    storing again what [get_counts] gives changes nothing. *)
Theorem X17_set_counts_round_trip (d : Data) (g m : Z) (c : gmap string Z) :
  let c' := get_counts (set_counts d g m c) g m in
  (∀ kind, kind ∈ ["night"; "day"; "forced"; "stealth"] →
           c' !! kind = Some (default 0 (c !! kind))) ∧
  (∀ kind, kind ∉ ["night"; "day"; "forced"; "stealth"] → c' !! kind = None) ∧
  set_counts (set_counts d g m c) g m c' = set_counts d g m c ∧
  get_counts (set_counts d g m ∅) g m = zero_counts.
Proof.
  intros c'. subst c'. unfold get_counts, set_counts, with_counts. cbn [counts].
  rewrite lookup_insert_eq. cbn [default from_option id].
  split; [|split; [|split]].
  - intros kind Hk. rewrite !elem_of_cons, elem_of_nil in Hk.
    destruct Hk as [->|[->|[->|[->|[]]]]]; by simplify_map_eq.
  - intros kind Hk. rewrite !not_elem_of_cons in Hk.
    destruct Hk as (? & ? & ? & ? & _). by simplify_map_eq.
  - rewrite insert_insert_eq. repeat f_equal; by simplify_map_eq.
  - rewrite lookup_insert_eq, !lookup_empty. reflexivity.
Qed.

End PlayerInventories.

(** ** The cost of a knock *)
Section KnockCosts.
Import PyStr VisitCount Knocks KnockReplies.

Lemma take_enchants_kinds (toks : list string) :
  Forall (λ e, e ∈ ["stealth"; "forced"]) (take_enchants toks).1.
Proof.
  induction toks as [|t r IH]; simpl; [constructor|].
  case_bool_decide as Ht; [|constructor].
  destruct (take_enchants r) as [es rest]. simpl in *. by constructor.
Qed.

Lemma parse_args_kinds (args : string) (es : list string) (tgt : string) :
  parse_args args = Args es tgt →
  Forall (λ e, e ∈ ["night"; "day"; "forced"; "stealth"]) es ∧ tgt ≠ "".
Proof.
  unfold parse_args. case_bool_decide; [done|].
  match goal with |- context [take_enchants ?t] =>
    pose proof (take_enchants_kinds t) as Hk; destruct (take_enchants t) as [es' rest]
  end.
  case_bool_decide as Ht; [done|]. intros [= <- <-]. split; [|done].
  simpl in Hk. eapply Forall_impl; [exact Hk|]. intros e. rewrite !elem_of_cons. tauto.
Qed.

(** One refund: [add_visits(..., e, 1)], an exception being ignored. *)
Lemma refund_comm (g m : Z) (d : Data) (a b : string) :
  default (default d (add_visits d g m a 1))
          (add_visits (default d (add_visits d g m a 1)) g m b 1)
  = default (default d (add_visits d g m b 1))
            (add_visits (default d (add_visits d g m b 1)) g m a 1).
Proof.
  destruct (decide (a = b)) as [->|Hab]; [done|].
  unfold add_visits.
  destruct (valid_kind a), (valid_kind b); cbn [default from_option id]; try done.
  unfold with_counts. cbn [counts income phase].
  rewrite !lookup_insert_eq. cbn [default from_option id].
  rewrite !insert_insert_eq. rewrite !lookup_insert_ne by done.
  f_equal. f_equal. by apply insert_insert_ne.
Qed.

Lemma refund_snoc (g m : Z) (es : list string) (d : Data) (e : string) :
  refund g m (default d (add_visits d g m e 1)) es
  = default (refund g m d es) (add_visits (refund g m d es) g m e 1).
Proof.
  revert d. induction es as [|a es IH]; intros d; [done|].
  unfold refund in *. cbn [foldl]. rewrite <- IH. f_equal. apply refund_comm.
Qed.

Lemma consume_refund (g m : Z) (d : Data) (e : string) :
  e ∈ ["night"; "day"; "forced"; "stealth"] →
  (consume_visit d g m e).2 = true →
  add_visits (consume_visit d g m e).1 g m e 1 = Some d.
Proof.
  intros He. unfold consume_visit, add_visits, valid_kind.
  rewrite bool_decide_eq_true_2 by done.
  set (k := _key g m).
  destruct (counts d !! k) as [c|] eqn:Ek; cbn [default from_option id].
  - destruct (c !! e) as [cur|] eqn:Ee; cbn [default from_option id]; [|done].
    destruct (0 <? cur); [|done]. intros _. cbn [fst with_counts counts income phase].
    rewrite lookup_insert_eq. cbn [default from_option id].
    rewrite lookup_insert_eq. cbn [default from_option id].
    rewrite !insert_insert_eq. replace (cur - 1 + 1) with cur by lia.
    rewrite (insert_id c e cur Ee), (insert_id (counts d) k c Ek). by destruct d.
  - replace (zero_counts !! e) with (Some 0); [done|].
    rewrite !elem_of_cons, elem_of_nil in He.
    by destruct He as [->|[->|[->|[->|[]]]]].
Qed.

Lemma ok_fold_false (ov : bool) (g m : Z) (es : list string) (l : Loop) :
  ok l = false → ok (foldl (consume_enchant ov g m) l es) = false.
Proof.
  revert l. induction es as [|e es IH]; intros l Hl; [done|].
  cbn [foldl]. apply IH. unfold consume_enchant.
  destruct ov; [by rewrite Hl|].
  destruct (cog l) as [d|]; [|by rewrite Hl].
  destruct (consume_visit d g m e) as [d' got]. cbn [ok]. rewrite Hl. by destruct got.
Qed.

Lemma consume_fold_refund (g m : Z) (es : list string) (d : Data)
    (cs : list (string * bool)) :
  Forall (λ e, e ∈ ["night"; "day"; "forced"; "stealth"]) es →
  let l := foldl (consume_enchant false g m)
                 {| cog := Some d; consumed := cs; ok := true |} es in
  ok l = true → ∃ d', cog l = Some d' ∧ refund g m d' es = d.
Proof.
  revert d cs. induction es as [|e es IH]; intros d cs Hv l Hok; subst l.
  { eexists. by split. }
  apply Forall_cons in Hv as [He Hv]. cbn [foldl] in *.
  unfold consume_enchant in Hok at 2. unfold consume_enchant at 2. cbn [cog consumed ok] in *.
  pose proof (consume_refund g m d e He) as Hr.
  destruct (consume_visit d g m e) as [d1 got]. cbn [fst snd] in Hr.
  destruct got; [|by rewrite ok_fold_false in Hok].
  destruct (IH d1 _ Hv Hok) as (d' & Hc & Hd').
  exists d'. split; [done|].
  change (refund g m d' (e :: es))
    with (refund g m (default d' (add_visits d' g m e 1)) es).
  rewrite refund_snoc, Hd', Hr; done.
Qed.

(** X18: an enchanted knock whose move fails costs the player nothing. The
    enchantments that [knock] reads off its argument are all visit kinds, so
    that every refund goes through, and the store of the visit cog after the
    failed knock is the store before it; no ticket is stored. *)
Theorem X18_failed_move_costs_nothing (d : Data) (pending : gmap Z Ticket)
    (g m origin target : Z) (args : string) (es : list string) (tgt : string)
    (sent : option Z) :
  parse_args args = Args es tgt →
  let r := knock (Some d) pending g m origin target es false false sent in
  r.2 = MoveFailed →
  r.1.1 = Some d ∧ r.1.2 = pending.
Proof.
  intros [Hv _]%parse_args_kinds r. subst r. unfold knock.
  destruct es as [|e es].
  { destruct (negb false && _); [done|]. by destruct sent. }
  pose proof (consume_fold_refund g m (e :: es) d [] Hv) as H. cbv zeta in H.
  destruct (ok (foldl _ _ _)) eqn:Hok; cbn [negb]; [|done].
  destruct (H eq_refl) as (d' & -> & Hd'). cbn [fst snd]. by rewrite Hd'.
Qed.

(** X18 at work: the stealth knock "Stealth, {Manor}" of player 2. *)
Lemma X18_failed_move_costs_nothing_witness :
  parse_args "Stealth, {Manor}" = Args ["stealth"] "Manor" ∧
  (knock (Some Examples.inventory) ∅ 1 2 50 60 ["stealth"] false false None).1.1
  = Some Examples.inventory.
Proof.
  assert (parse_args "Stealth, {Manor}" = Args ["stealth"] "Manor") as P
    by (vm_compute; reflexivity).
  split; [exact P|].
  refine (proj1 (X18_failed_move_costs_nothing Examples.inventory ∅ 1 2 50 60
                   "Stealth, {Manor}" ["stealth"] "Manor" None P _)).
  vm_compute. reflexivity.
Defined.

End KnockCosts.

(** ** Who pays for a knock *)
Section KnockPayers.
Import PyStr VisitCount Knocks KnockReplies.

Lemma free_fold (ov : bool) (g m : Z) (es : list string) (l : Loop) :
  ov = true ∨ cog l = None →
  cog (foldl (consume_enchant ov g m) l es) = cog l ∧
  ok (foldl (consume_enchant ov g m) l es) = ok l.
Proof.
  revert l. induction es as [|e es IH]; intros l Hl; [done|].
  cbn [foldl].
  assert (cog (consume_enchant ov g m l e) = cog l ∧
          ok (consume_enchant ov g m l e) = ok l) as [Hc Ho].
  { unfold consume_enchant. destruct Hl as [-> | ->]; [done|]. by destruct ov. }
  destruct (IH (consume_enchant ov g m l e)) as [-> ->]; [|done].
  destruct Hl as [?| Hl]; [by left|right; congruence].
Qed.

(** X19: a knock by an overseer, and any knock while the visit cog is not
    loaded, is free: the store of the visit cog is left as it is, an
    enchanted knock is never refused for a lacking enchantment (the move is
    tried, announced unless stealth is among the enchantments) and a plain
    knock is never refused for a lacking visit (the ticket is stored under
    the id of the narration, with the overseer flag). *)
Theorem X19_overseer_knock_is_free (cog : option Data) (pending : gmap Z Ticket)
    (g m origin target : Z) (es : list string) (overseer move_ok : bool)
    (sent : option Z) :
  overseer = true ∨ cog = None →
  let r := knock cog pending g m origin target es overseer move_ok sent in
  r.1.1 = cog ∧
  (es ≠ [] →
     r.1.2 = pending ∧
     r.2 = if move_ok then Executed (negb (bool_decide ("stealth" ∈ es)))
           else MoveFailed) ∧
  (es = [] → ∀ id, sent = Some id →
     r.2 = KnockSent ∧
     r.1.2 = <[id := {| origin_channel := origin; player_id := m;
                        target_id := target;
                        initiator_is_overseer := overseer |}]> pending).
Proof.
  intros Hfree r. subst r. unfold knock. destruct es as [|e es].
  - cbv zeta.
    destruct Hfree as [-> | ->]; [destruct cog|]; cbn [negb andb];
      (split; [by destruct sent|]); (split; [done|]); by intros _ id ->.
  - destruct (free_fold overseer g m (e :: es)
                {| Knocks.cog := cog; consumed := []; ok := true |}) as [Hc Ho];
      [by destruct Hfree; [left|right]|].
    rewrite Ho, Hc. cbn [Knocks.cog ok negb]. split; [|split; [|done]].
    + destruct move_ok; [done|]. cbn [fst].
      destruct Hfree as [-> | ->]; [by destruct cog|done].
    + intros _. by destruct move_ok.
Qed.

(** X19 at work: an overseer knocks with both enchantments for player 2, who
    holds no forced visit. *)
Lemma X19_overseer_knock_is_free_witness :
  (knock (Some Examples.inventory) ∅ 1 2 50 60 ["stealth"; "forced"]
         true true None).1.1 = Some Examples.inventory.
Proof.
  exact (proj1 (X19_overseer_knock_is_free (Some Examples.inventory) ∅ 1 2 50 60
                  ["stealth"; "forced"] true true None (or_introl eq_refl))).
Defined.

Lemma need_notin (k : string) (es : list string) :
  k ∉ es → length (filter (eq k) es) = 0%nat.
Proof.
  induction es as [|e es IH]; [done|]. rewrite not_elem_of_cons. intros [Hne Hk].
  rewrite filter_cons_False by done. by apply IH.
Qed.

Lemma need_cons (k e : string) (es : list string) :
  length (filter (eq k) (e :: es))
  = ((if bool_decide (k = e) then 1 else 0) + length (filter (eq k) es))%nat.
Proof.
  case_bool_decide.
  - by rewrite filter_cons_True.
  - by rewrite filter_cons_False.
Qed.

(** The loop over the enchantments for a player who pays: it ends with [ok]
    exactly when each enchantment is held as often as it is named, and has
    then taken that many visits of each kind. *)
Lemma consume_fold_supply (g m : Z) (es : list string) (d : Data)
    (cs : list (string * bool)) (okb : bool) :
  let l := foldl (consume_enchant false g m)
                 {| cog := Some d; consumed := cs; ok := okb |} es in
  ∃ d', cog l = Some d' ∧
    (ok l = true ↔
       okb = true ∧
       ∀ k, k ∈ es → Z.of_nat (length (filter (eq k) es))
                     ≤ default 0 (get_counts d g m !! k)) ∧
    (ok l = true →
       ∀ k, default 0 (get_counts d' g m !! k)
            = default 0 (get_counts d g m !! k)
              - Z.of_nat (length (filter (eq k) es))) ∧
    (∀ g' m', (g', m') ≠ (g, m) → get_counts d' g' m' = get_counts d g' m') ∧
    income d' = income d ∧ phase d' = phase d.
Proof.
  revert d cs okb. induction es as [|e es IH]; intros d cs okb l; subst l.
  { exists d. cbn [foldl cog ok]. split; [done|]. split.
    - split; [intros ->; split; [done|]; by intros k ?%elem_of_nil|by intros [-> _]].
    - split; [|done]. intros _ k. simpl. lia. }
  cbn [foldl].
  assert (consume_enchant false g m {| cog := Some d; consumed := cs; ok := okb |} e
          = {| cog := Some (consume_visit d g m e).1;
               consumed := dict_set e (consume_visit d g m e).2 cs;
               ok := if (consume_visit d g m e).2 then okb else false |}) as ->.
  { unfold consume_enchant. cbn [cog consumed ok].
    by destruct (consume_visit d g m e). }
  pose proof (consume_visit_spec d g m e) as (Hpos & Hneg & _ & Hfr & Hinc & Hph).
  cbv zeta in Hpos, Hneg, Hfr, Hinc, Hph.
  destruct (consume_visit d g m e) as [d1 got]. cbn [fst snd] in *.
  destruct (IH d1 (dict_set e got cs) (if got then okb else false))
    as (d' & Hc & Hiff & Hcost & Hfr' & Hinc' & Hph').
  exists d'. split; [done|].
  split; [|split; [|split; [|split; congruence]]].
  - rewrite Hiff. clear Hiff Hcost.
    destruct (Z_lt_le_dec 0 (default 0 (get_counts d g m !! e))) as [Hlt|Hle].
    + destruct (Hpos Hlt) as [-> Hd1]. rewrite Hd1.
      split; intros [Hokb Hall]; (split; [done|]); intros k Hk.
      * rewrite need_cons. case_bool_decide as Hke.
        -- subst k. destruct (decide (e ∈ es)) as [Hin|Hnin].
           ++ specialize (Hall e Hin). rewrite lookup_insert_eq in Hall.
              cbn [default from_option id] in Hall. lia.
           ++ rewrite (need_notin e es Hnin). lia.
        -- apply elem_of_cons in Hk as [?|Hk]; [done|].
           specialize (Hall k Hk). rewrite lookup_insert_ne in Hall by done.
           simpl. lia.
      * specialize (Hall k (proj2 (elem_of_cons _ _ _) (or_intror Hk))).
        rewrite need_cons in Hall. case_bool_decide as Hke.
        -- subst k. rewrite lookup_insert_eq. cbn [default from_option id]. lia.
        -- rewrite lookup_insert_ne by done. simpl in Hall. lia.
    + destruct (Hneg Hle) as [-> _]. split; [by intros [? _]|].
      intros [_ Hall]. specialize (Hall e (proj2 (elem_of_cons _ _ _) (or_introl eq_refl))).
      rewrite need_cons, bool_decide_eq_true_2 in Hall by done. lia.
  - intros Hok k. rewrite (Hcost Hok k). apply Hiff in Hok as [Hgot _].
    destruct got; [|done].
    destruct (Z_lt_le_dec 0 (default 0 (get_counts d g m !! e))) as [Hlt|Hle];
      [|by destruct (Hneg Hle)].
    destruct (Hpos Hlt) as [_ ->]. rewrite need_cons. case_bool_decide as Hke.
    + subst k. rewrite lookup_insert_eq. cbn [default from_option id]. lia.
    + rewrite lookup_insert_ne by done. simpl. lia.
  - intros g' m' Hne. rewrite Hfr' by done. by apply Hfr.
Qed.

(** X20: an enchanted knock by a player who pays is refused for lacking
    enchantments exactly when some enchantment is named more often than the
    player holds it. When the knock is carried out it has taken, for each
    kind, as many visits as the kind was named, from this player only; it is
    announced unless stealth is among the enchantments, and no ticket is
    stored. *)
Theorem X20_enchanted_knock_supply (d : Data) (pending : gmap Z Ticket)
    (g m origin target : Z) (es : list string) (move_ok : bool)
    (sent : option Z) :
  es ≠ [] →
  let r := knock (Some d) pending g m origin target es false move_ok sent in
  let have k := default 0 (get_counts d g m !! k) in
  let need k := Z.of_nat (length (filter (eq k) es)) in
  ((∃ missing, r.2 = LacksEnchantments missing) ↔ ∃ k, k ∈ es ∧ have k < need k) ∧
  (∀ announce, r.2 = Executed announce →
     announce = negb (bool_decide ("stealth" ∈ es)) ∧
     ∃ d', r.1.1 = Some d' ∧
       (∀ k, default 0 (get_counts d' g m !! k) = have k - need k) ∧
       (∀ g' m', (g', m') ≠ (g, m) → get_counts d' g' m' = get_counts d g' m')) ∧
  r.1.2 = pending.
Proof.
  intros Hne r have need. subst r have need. unfold knock.
  destruct es as [|e es]; [done|]. clear Hne.
  destruct (consume_fold_supply g m (e :: es) d [] true)
    as (d' & Hc & Hiff & Hcost & Hfr & _).
  cbv zeta in *.
  destruct (ok (foldl _ _ _)) eqn:Hok; cbn [negb].
  - split; [|split].
    + split.
      * intros [missing Hm]. by destruct move_ok.
      * intros (k & Hk & Hlt). apply proj1 in Hiff.
        destruct (Hiff eq_refl) as [_ Hall]. specialize (Hall k Hk). lia.
    + intros announce. destruct move_ok; [|done]. intros [= <-]. split; [done|].
      exists d'. split; [done|]. split; [by apply Hcost|done].
    + by destruct move_ok.
  - split; [|split; [done|done]]. split; [|by eexists].
    intros _.
    destruct (decide (Exists (λ k, default 0 (get_counts d g m !! k)
                                   < Z.of_nat (length (filter (eq k) (e :: es))))
                             (e :: es))) as [Hex|Hn].
    { by apply Exists_exists in Hex. }
    exfalso. assert (false = true); [|done]. apply Hiff. split; [done|].
    intros k Hk. apply not_Exists_Forall in Hn; [|intros ?; apply _].
    rewrite Forall_forall in Hn. specialize (Hn k Hk). simpl in Hn. lia.
Qed.

(** X20 at work: player 2 holds one stealth visit and names it once. *)
Lemma X20_enchanted_knock_supply_witness :
  ["stealth"] ≠ [] ∧
  (knock (Some Examples.inventory) ∅ 1 2 50 60 ["stealth"] false true None).1.2 = ∅.
Proof.
  assert (["stealth"] ≠ @nil string) as P by discriminate.
  split; [exact P|].
  exact (proj2 (proj2 (X20_enchanted_knock_supply Examples.inventory ∅ 1 2 50 60
                         ["stealth"] true None P))).
Defined.

End KnockPayers.

(** ** Replies to a knock *)
Section KnockAnswers.
Import PyStr VisitCount Knocks KnockReplies.

(** X21: a plain knock of a player who holds a visit of the current phase
    takes nothing; the visit is taken when the knock is opened. A reply with
    the word open, written in the target manor to the narration, takes one
    visit of the phase from the player and from nobody else, tries the move
    and drops the ticket. The visit is not given back when the move fails,
    and a second reply to the same narration does nothing. *)
Theorem X21_knock_then_open (d : Data) (pending : gmap Z Ticket)
    (g m origin target id : Z) (overseer mv1 origin_found mv : bool)
    (msg : Message) :
  id ≠ 0 →
  has_visit d g m (get_phase d g) = true →
  author_bot msg = false → reference msg = Some id → channel msg = target →
  contains "open" (strip (lower (content msg))) = true →
  let r1 := knock (Some d) pending g m origin target [] overseer mv1 (Some id) in
  let r2 := on_message r1.1.1 r1.1.2 g msg true true origin_found mv in
  r1.2 = KnockSent ∧ r1.1.1 = Some d ∧
  (∃ d', r2.1.1 = Some d' ∧
     get_counts d' g m
     = <[get_phase d g := default 0 (get_counts d g m !! get_phase d g) - 1]>
         (get_counts d g m) ∧
     (∀ g' m', (g', m') ≠ (g, m) → get_counts d' g' m' = get_counts d g' m')) ∧
  r2.1.2 = delete id pending ∧
  r2.2 = Opened :: Move mv ::
           (if mv then (if origin_found then [OriginOpened] else [])
            else [FailedToMove]) ∧
  on_message r2.1.1 r2.1.2 g msg true true origin_found mv
  = (r2.1.1, r2.1.2, []).
Proof.
  intros Hid Hv Hbot Href Hch Hopen r1 r2. subst r2 r1.
  unfold knock. cbv zeta. rewrite Hv. cbn [negb andb fst snd].
  rewrite andb_false_r. cbn [fst snd]. split; [done|]. split; [done|].
  unfold on_message. rewrite Hbot, Href, (proj2 (Z.eqb_neq id 0) Hid).
  rewrite lookup_insert_eq. cbn [target_id player_id].
  rewrite Hch, Z.eqb_refl. cbn [negb orb]. cbv zeta. rewrite Hopen.
  pose proof (consume_visit_spec d g m (get_phase d g)) as (Hpos & _ & _ & Hfr & _).
  cbv zeta in Hpos, Hfr. apply Z.ltb_lt in Hv. destruct (Hpos Hv) as [Hgot Hc].
  destruct (consume_visit d g m (get_phase d g)) as [d' got].
  cbn [fst snd] in *. subst got. cbn [fst snd].
  rewrite delete_insert_eq, lookup_delete_eq. eauto 10.
Qed.

(** X21 at work: player 2 knocks at night and the manor answers. *)
Lemma X21_knock_then_open_witness :
  (knock (Some Examples.inventory) ∅ 1 2 50 60 [] false true (Some 900)).2
  = KnockSent.
Proof.
  refine (proj1 (X21_knock_then_open Examples.inventory ∅ 1 2 50 60 900
                   false true true true
                   {| author_bot := false; reference := Some 900; channel := 60;
                      content := " Open the door " |} _ _ _ _ _ _));
    [discriminate | vm_compute; reflexivity | reflexivity | reflexivity
    | reflexivity | vm_compute; reflexivity].
Defined.

Lemma on_message_ignores_flag cog (pending : gmap Z Ticket) g msg
    player_found target_found origin_found mv id t flag :
  pending !! id = Some t →
  let pending' :=
    <[id := {| origin_channel := origin_channel t; player_id := player_id t;
               target_id := target_id t; initiator_is_overseer := flag |}]>
      pending in
  (on_message cog pending' g msg player_found target_found origin_found mv).1.1
  = (on_message cog pending g msg player_found target_found origin_found mv).1.1 ∧
  (on_message cog pending' g msg player_found target_found origin_found mv).2
  = (on_message cog pending g msg player_found target_found origin_found mv).2.
Proof.
  intros Ht pending'. subst pending'. unfold on_message.
  destruct (author_bot msg); [done|].
  destruct (reference msg) as [ref|]; [|done].
  destruct (ref =? 0); [done|].
  destruct (decide (ref = id)) as [->|Hne].
  - rewrite lookup_insert_eq, Ht. cbn [target_id player_id].
    destruct (negb _); [done|]. cbv zeta.
    destruct (contains "open" _).
    + destruct (negb player_found || negb target_found); [done|].
      destruct cog as [d|]; [|done].
      by destruct (consume_visit d g (player_id t) (get_phase d g)) as [d' []].
    + destruct (contains "refuse" _); [|done].
      by destruct (origin_found && player_found); [destruct target_found|].
  - rewrite lookup_insert_ne by done.
    destruct (pending !! ref) as [info|]; [|done].
    destruct (negb _); [done|]. cbv zeta.
    destruct (contains "open" _).
    + destruct (negb player_found || negb target_found); [done|].
      destruct cog as [d|]; [|done].
      by destruct (consume_visit d g (player_id info) (get_phase d g)) as [d' []].
    + destruct (contains "refuse" _); [|done].
      by destruct (origin_found && player_found); [destruct target_found|].
Qed.

(** X22: the overseer flag of a ticket is stored and never read: with the
    flag of a ticket changed, [on_message] leaves the same visit store and
    sends the same answers. So a plain knock by an overseer for a player who
    holds no visit of the current phase is sent, but opening it is refused
    for the lacking visit: the ticket is dropped, no move is tried and the
    counters of the player stay as they were. *)
Theorem X22_opening_charges_overseer_knock (d : Data) (pending : gmap Z Ticket)
    (g m origin target id : Z) (mv1 origin_found mv : bool) (msg : Message) :
  id ≠ 0 →
  has_visit d g m (get_phase d g) = false →
  author_bot msg = false → reference msg = Some id → channel msg = target →
  contains "open" (strip (lower (content msg))) = true →
  let r1 := knock (Some d) pending g m origin target [] true mv1 (Some id) in
  let r2 := on_message r1.1.1 r1.1.2 g msg true true origin_found mv in
  r1.2 = KnockSent ∧ r1.1.1 = Some d ∧
  (∃ t, r1.1.2 !! id = Some t ∧ initiator_is_overseer t = true) ∧
  r2.2 = [NoVisitsToOpen (get_phase d g)] ∧
  r2.1.2 = delete id pending ∧
  (∃ d', r2.1.1 = Some d' ∧ ∀ g' m', get_counts d' g' m' = get_counts d g' m') ∧
  (∀ cog tickets reply pf tf fo mv' ref t flag,
     tickets !! ref = Some t →
     let tickets' :=
       <[ref := {| origin_channel := origin_channel t; player_id := player_id t;
                   target_id := target_id t; initiator_is_overseer := flag |}]>
         tickets in
     (on_message cog tickets' g reply pf tf fo mv').1.1
     = (on_message cog tickets g reply pf tf fo mv').1.1 ∧
     (on_message cog tickets' g reply pf tf fo mv').2
     = (on_message cog tickets g reply pf tf fo mv').2).
Proof.
  intros Hid Hv Hbot Href Hch Hopen r1 r2. subst r2 r1.
  unfold knock. cbv zeta. cbn [negb andb fst snd].
  split; [done|]. split; [done|].
  split; [eexists; by rewrite lookup_insert_eq|].
  unfold on_message. rewrite Hbot, Href, (proj2 (Z.eqb_neq id 0) Hid).
  rewrite lookup_insert_eq. cbn [target_id player_id].
  rewrite Hch, Z.eqb_refl. cbn [negb orb]. cbv zeta. rewrite Hopen.
  pose proof (consume_visit_spec d g m (get_phase d g)) as (_ & Hneg & _ & Hfr & _).
  cbv zeta in Hneg, Hfr. apply Z.ltb_ge in Hv. destruct (Hneg Hv) as [Hgot Hc].
  destruct (consume_visit d g m (get_phase d g)) as [d' got].
  cbn [fst snd] in *. subst got. cbn [fst snd].
  rewrite delete_insert_eq. split; [done|]. split; [done|].
  split; [|by intros; apply on_message_ignores_flag].
  exists d'. split; [done|]. intros g' m'.
  destruct (decide ((g', m') = (g, m))) as [[= -> ->]|Hne]; [done|by apply Hfr].
Qed.

(** X22 at work: an overseer knocks by day for player 2, who holds night
    visits only. *)
Lemma X22_opening_charges_overseer_knock_witness :
  let d := default Examples.inventory (VisitCount.set_phase Examples.inventory 1 "day") in
  (on_message (Some d)
     (knock (Some d) ∅ 1 2 50 60 [] true true (Some 900)).1.2 1
     {| author_bot := false; reference := Some 900; channel := 60;
        content := "OPEN" |} true true true true).2
  = [NoVisitsToOpen "day"].
Proof.
  refine (proj1 (proj2 (proj2 (proj2
    (X22_opening_charges_overseer_knock
       (default Examples.inventory (VisitCount.set_phase Examples.inventory 1 "day"))
       ∅ 1 2 50 60 900 true true true
       {| author_bot := false; reference := Some 900; channel := 60;
          content := "OPEN" |} _ _ _ _ _ _)))));
    [discriminate | vm_compute; reflexivity | reflexivity | reflexivity
    | reflexivity | vm_compute; reflexivity].
Defined.

(** X23: what a message can change. A message by a bot, a message that is
    not a reply to a pending narration, a reply written outside the target
    manor and a reply with neither open nor refuse change nothing and are
    not answered. A reply without the word open never touches the visit
    store and never moves anybody. No message adds a ticket, and only the
    ticket of the narration that is replied to can be dropped. *)
Theorem X23_reply_frame (cog : option Data) (pending : gmap Z Ticket) (g : Z)
    (msg : Message) (player_found target_found origin_found mv : bool) :
  let r := on_message cog pending g msg player_found target_found origin_found mv in
  let text := strip (lower (content msg)) in
  (author_bot msg = true ∨
   (∀ id t, reference msg = Some id → pending !! id = Some t →
            id = 0 ∨ channel msg ≠ target_id t) ∨
   (contains "open" text = false ∧ contains "refuse" text = false) →
   r = (cog, pending, [])) ∧
  (contains "open" text = false → r.1.1 = cog ∧ ∀ ok, Move ok ∉ r.2) ∧
  (∀ id t, r.1.2 !! id = Some t → pending !! id = Some t) ∧
  (∀ id, reference msg ≠ Some id → r.1.2 !! id = pending !! id).
Proof.
  intros r text. subst r text. unfold on_message.
  destruct (author_bot msg).
  { repeat split; try done. intros ok. apply not_elem_of_nil. }
  destruct (reference msg) as [ref|].
  2:{ repeat split; try done. intros ok. apply not_elem_of_nil. }
  destruct (ref =? 0) eqn:Eref.
  { repeat split; try done. intros ok. apply not_elem_of_nil. }
  apply Z.eqb_neq in Eref.
  destruct (pending !! ref) as [info|] eqn:Einfo.
  2:{ repeat split; try done. intros ok. apply not_elem_of_nil. }
  destruct (channel msg =? target_id info) eqn:Ech; cbn [negb].
  2:{ repeat split; try done. intros ok. apply not_elem_of_nil. }
  apply Z.eqb_eq in Ech. cbv zeta.
  assert (∀ id, Some ref ≠ Some id → delete ref pending !! id = pending !! id) as Hdel.
  { intros id Hne. apply lookup_delete_ne. congruence. }
  assert (∀ id t, delete ref pending !! id = Some t → pending !! id = Some t) as Hsub.
  { intros id t. rewrite lookup_delete_Some. tauto. }
  destruct (contains "open" _) eqn:Eopen.
  - split.
    { intros [?|[Hno|[? _]]]; [done| |done].
      destruct (Hno ref info eq_refl Einfo); done. }
    split; [done|].
    destruct (negb player_found || negb target_found); [by split|].
    destruct cog as [d|]; [|by split].
    destruct (consume_visit d g (player_id info) (get_phase d g)) as [d' []];
      by split.
  - destruct (contains "refuse" _) eqn:Erefuse.
    + split.
      { intros [?|[Hno|[_ ?]]]; [done| |done].
        destruct (Hno ref info eq_refl Einfo); done. }
      destruct (origin_found && player_found); [destruct target_found|];
        (split; [intros _; split; [done|];
                 intros ok; cbn [fst snd]; rewrite !not_elem_of_cons;
                 repeat split; try done; apply not_elem_of_nil|]);
        by split.
    + repeat split; try done. intros ok. apply not_elem_of_nil.
Qed.

End KnockAnswers.

(** ** Ability keys and their two spellings *)
Section AbilityKeys.
Import PyStr ActionQueue BlockCommands Abilities.

Lemma upper_char_digit c : is_digit c = true → upper_char c = c.
Proof.
  destruct c as [[|] [|] [|] [|] [|] [|] [|] [|]]; vm_compute; congruence.
Qed.

Lemma upper_char_digit_inv c : is_digit (upper_char c) = true → upper_char c = c.
Proof.
  destruct c as [[|] [|] [|] [|] [|] [|] [|] [|]]; vm_compute; congruence.
Qed.

Lemma upper_char_A c : upper_char c = "A"%char → c = "A"%char ∨ c = "a"%char.
Proof.
  destruct c as [[|] [|] [|] [|] [|] [|] [|] [|]]; vm_compute; intros [=]; auto.
Qed.

Lemma digit_not_A c : is_digit c = true → c ≠ "A"%char ∧ upper_char c ≠ "A"%char.
Proof.
  destruct c as [[|] [|] [|] [|] [|] [|] [|] [|]]; vm_compute; intros [=]; by split.
Qed.

Lemma upper_digits s : all_digits s = true → upper s = s.
Proof.
  induction s as [|c s IH]; [done|]. simpl. intros [Hc Hs]%andb_prop.
  by rewrite upper_char_digit, IH.
Qed.

Lemma upper_eq_digits k n : all_digits n = true → upper k = n → k = n.
Proof.
  revert n. induction k as [|c k IH]; intros n Hn; simpl; [done|].
  destruct n as [|d n]; [done|]. simpl in Hn. apply andb_prop in Hn as [Hd Hn].
  intros [= Hc Hk]. rewrite <- Hc in Hd. apply upper_char_digit_inv in Hd.
  rewrite (IH n Hn Hk). congruence.
Qed.

Lemma startswith_A s :
  startswith s "A" = true ↔ ∃ r, s = String "A" r.
Proof.
  unfold startswith. destruct s as [|c r]; cbn [String.prefix].
  - split; [done|]. by intros [? ?].
  - destruct (ascii_dec "A" c) as [<-|Hne].
    + split; [by eexists|by destruct r].
    + split; [done|]. intros [? [= ? ?]]. done.
Qed.

Lemma digits_not_A n : isdigit n = true → startswith (upper n) "A" = false.
Proof.
  destruct n as [|c n]; [done|]. cbn [isdigit all_digits upper].
  intros [Hc _]%andb_prop. apply not_true_is_false. intros [r [= Hr _]]%startswith_A.
  by apply (digit_not_A c Hc).
Qed.

Lemma isdigit_all n : isdigit n = true → all_digits n = true.
Proof. by destruct n. Qed.

Lemma num_part_digits n : isdigit n = true → num_part n = n.
Proof. intros H. unfold num_part. by rewrite digits_not_A. Qed.

Lemma num_part_A c n : c = "A"%char ∨ c = "a"%char → num_part (String c n) = n.
Proof. intros [-> | ->]; by destruct n. Qed.

(** A key whose upper case is a number or the letter A and a number has
    that number as its number part. *)
Lemma num_part_upper k K n :
  isdigit n = true → K = n ∨ K = String "A" n → upper k = K → num_part k = n.
Proof.
  intros Hn [-> | ->] Hk.
  - apply upper_eq_digits in Hk; [|by apply isdigit_all]. subst k.
    by apply num_part_digits.
  - destruct k as [|c k]; [done|]. simpl in Hk. injection Hk as Hc Hk.
    apply upper_eq_digits in Hk; [|by apply isdigit_all]. subst k.
    apply num_part_A. by apply upper_char_A.
Qed.

(** The keys [give_ability] accepts. *)
Lemma accepted_key K :
  negb (startswith K "A" && isdigit (tail1 K)) && negb (isdigit K) = false →
  isdigit (if startswith K "A" then tail1 K else K) = true ∧
  (K = (if startswith K "A" then tail1 K else K)
   ∨ K = String "A" (if startswith K "A" then tail1 K else K)).
Proof.
  destruct (startswith K "A") eqn:EA.
  - apply startswith_A in EA as [r ->]. cbn [tail1 andb].
    destruct (isdigit r) eqn:Er; [by auto|]. cbn [negb andb].
    intros H%negb_false_iff. simpl in H. done.
  - cbn [andb negb]. intros H%negb_false_iff. auto.
Qed.

Lemma upper_idem s : upper (upper s) = upper s.
Proof.
  induction s as [|c s IH]; [done|]. simpl. rewrite IH. f_equal.
  destruct c as [[|] [|] [|] [|] [|] [|] [|] [|]]; reflexivity.
Qed.

Lemma dict_get_None {A} k (d : list (string * A)) :
  dict_get k d = None ↔ k ∉ d.*1.
Proof.
  induction d as [|[k' v] d IH]; simpl.
  - split; [intros _; apply not_elem_of_nil|done].
  - rewrite not_elem_of_cons. case_bool_decide; [split; [done|by intros [? _]]|].
    rewrite IH. split; [by split|by intros [_ ?]].
Qed.

Lemma dict_put_new {A} k (v : A) d : k ∉ d.*1 → dict_put k v d = (d ++ [(k, v)])%list.
Proof.
  induction d as [|[k' v'] d IH]; simpl; [done|].
  rewrite not_elem_of_cons. intros [Hne Hk].
  rewrite bool_decide_eq_false_2 by done. by rewrite IH.
Qed.

Lemma dict_get_app_new {A} k (v : A) d :
  k ∉ d.*1 → dict_get k (d ++ [(k, v)])%list = Some v.
Proof.
  induction d as [|[k' v'] d IH]; simpl.
  - intros _. by rewrite bool_decide_eq_true_2.
  - rewrite not_elem_of_cons. intros [Hne Hk].
    rewrite bool_decide_eq_false_2 by done. by apply IH.
Qed.

Lemma dict_del_app_new {A} k (v : A) d :
  k ∉ d.*1 → dict_del k (d ++ [(k, v)])%list = d.
Proof.
  induction d as [|[k' v'] d IH]; simpl.
  - intros _. by rewrite bool_decide_eq_true_2.
  - rewrite not_elem_of_cons. intros [Hne Hk].
    rewrite bool_decide_eq_false_2 by done. by rewrite IH.
Qed.

Lemma find_none_forall {A} (f : A → bool) l :
  List.find f l = None ↔ Forall (λ x, f x = false) l.
Proof.
  induction l as [|x l IH]; simpl; [by split; [constructor|]|].
  destruct (f x) eqn:E.
  - split; [done|]. intros [? _]%Forall_cons. congruence.
  - rewrite IH. split; [by constructor|by intros [_ ?]%Forall_cons].
Qed.

Lemma find_app_new {A} (f : A → bool) l x :
  Forall (λ y, f y = false) l → f x = true → List.find f (l ++ [x])%list = Some x.
Proof.
  induction l as [|y l IH]; simpl; intros Hl Hx; [by rewrite Hx|].
  apply Forall_cons in Hl as [-> Hl]. by apply IH.
Qed.

(** What a successful [give_ability] has checked and stored. *)
Lemma give_ability_assigned abilities rc key cat_typed uses_typed abilities' K cat u :
  give_ability abilities rc key cat_typed uses_typed = (abilities', Assigned K cat u) →
  let n := num_part K in
  let chmap := default [] (abilities !! rc) in
  K = upper key ∧ isdigit n = true ∧ (K = n ∨ K = String "A" n) ∧
  cat ∈ ABILITY_CATEGORIES ∧ u = lower uses_typed ∧
  Forall (λ k, num_part k ≠ n) chmap.*1 ∧
  abilities' = <[rc := (chmap ++ [(K, {| category := cat; uses := u;
                                         owner_channel := rc |})])%list]> abilities.
Proof.
  unfold give_ability.
  destruct (negb (startswith (upper key) "A" && isdigit (tail1 (upper key)))
            && negb (isdigit (upper key))) eqn:Ekey; [done|].
  case_bool_decide as Hcat; cbn [negb]; [|done].
  set (ab1 := match abilities !! rc with Some _ => abilities | None => _ end).
  assert (default [] (ab1 !! rc) = default [] (abilities !! rc)) as Hch.
  { subst ab1. destruct (abilities !! rc) eqn:E; [by rewrite E|].
    by rewrite lookup_insert_eq. }
  assert (∀ v, <[rc := v]> ab1 = <[rc := v]> abilities) as Hins.
  { intros v. subst ab1. destruct (abilities !! rc); [done|].
    by rewrite insert_insert_eq. }
  rewrite Hch. destruct (List.find _ _) eqn:Efind; [done|].
  intros [= <- <- <- <-]. cbv zeta.
  apply accepted_key in Ekey as [Hn HK].
  assert (num_part (upper key) = if startswith (upper key) "A"
                                 then tail1 (upper key) else upper key) as Hnum.
  { unfold num_part. by rewrite upper_idem. }
  rewrite Hnum. split; [done|]. split; [done|]. split; [done|].
  split; [done|]. split; [done|].
  apply find_none_forall in Efind. rewrite Hnum in Efind.
  assert (Forall (λ k, num_part k ≠ if startswith (upper key) "A"
                                    then tail1 (upper key) else upper key)
                 (default [] (abilities !! rc)).*1) as Hall.
  { eapply Forall_impl; [exact Efind|]. intros k Hk. simpl in Hk.
    by apply bool_decide_eq_false in Hk. }
  split; [done|]. rewrite Hins. f_equal. apply dict_put_new.
  intros Hin. rewrite Forall_forall in Hall. apply (Hall _ Hin).
  by rewrite Hnum.
Qed.

(** The look-up of the use command finds a stored ability under both
    spellings of its number, and keeps the stored key. *)
Lemma lookup_either_spelling chmap K n def ak :
  isdigit n = true → (K = n ∨ K = String "A" n) →
  Forall (λ k, num_part k ≠ n) chmap.*1 →
  ak = n ∨ ak = String "A" n →
  lookup_ability (chmap ++ [(K, def)])%list ak = Some (K, def).
Proof.
  intros Hn HK Hall Hak.
  assert (∀ k, num_part k = n → k ∉ chmap.*1) as Hfresh.
  { intros k Hk Hin. rewrite Forall_forall in Hall. by apply (Hall k Hin). }
  assert (num_part K = n) as HnK.
  { destruct HK as [-> | ->]; [by apply num_part_digits|by apply num_part_A; left]. }
  assert (num_part ak = n) as Hnak.
  { destruct Hak as [-> | ->]; [by apply num_part_digits|by apply num_part_A; left]. }
  assert (upper K = K) as HuK.
  { destruct HK as [-> | ->]; simpl; rewrite upper_digits; auto using isdigit_all. }
  unfold lookup_ability.
  destruct (decide (ak = K)) as [->|Hne].
  { by rewrite dict_get_app_new by auto. }
  assert (dict_get ak (chmap ++ [(K, def)])%list = None) as ->.
  { apply dict_get_None. rewrite fmap_app, elem_of_app. simpl.
    rewrite list_elem_of_singleton. intros [Hin|?]; [|done].
    by apply (Hfresh ak). }
  assert ((if startswith (upper ak) "A" && isdigit (tail1 ak)
           then Some (tail1 ak)
           else if isdigit ak then Some ("A" +:+ ak) else None) = Some K
          ∨ False) as [-> |[]].
  { left. destruct Hak as [-> | ->], HK as [-> | ->]; try done.
    - rewrite digits_not_A by done. cbn [andb]. by rewrite Hn.
    - cbn [upper tail1]. rewrite (proj2 (startswith_A _)) by (by eexists).
      cbn [andb]. by rewrite Hn. }
  rewrite HuK, dict_get_app_new by auto.
  rewrite fmap_app. simpl. rewrite find_app_new; [done| |by apply bool_decide_eq_true_2].
  rewrite Forall_forall. intros k Hin. apply bool_decide_eq_false_2. intros Hk.
  apply (Hfresh k); [|done]. by apply (num_part_upper k K n).
Qed.

Lemma span_word_digits n t :
  all_digits n = true → span_word (n +:+ String " " t) = (n, String " " t).
Proof.
  induction n as [|c n IH]; [done|]. cbn [all_digits].
  intros [Hc Hn]%andb_prop.
  rewrite append_cons. cbn [span_word]. by rewrite digit_not_space, IH.
Qed.

Lemma split_first_word c w text :
  is_space c = false →
  span_word (w +:+ String " " text) = (w, String " " text) →
  split_first (String c w +:+ " " +:+ text) = Some (String c w, lstrip text).
Proof.
  intros Hc Hw. unfold split_first.
  change (String c w +:+ " " +:+ text) with (String c (w +:+ String " " text)).
  cbn [lstrip]. rewrite Hc. cbn [span_word]. rewrite Hc, Hw.
  by rewrite bool_decide_eq_false_2.
Qed.

(** The first token of a description that starts with one of the spellings
    of a number and a blank. *)
Lemma split_first_spelling n tk text :
  isdigit n = true → tk ∈ [n; "A" +:+ n; "a" +:+ n] →
  split_first (tk +:+ " " +:+ text) = Some (tk, lstrip text) ∧
  (ability_key_of tk = Some n ∨ ability_key_of tk = Some (String "A" n)) ∧
  tk +:+ " " +:+ text ≠ "".
Proof.
  intros Hn Htk. pose proof (isdigit_all n Hn) as Hall.
  rewrite !elem_of_cons, elem_of_nil in Htk.
  destruct Htk as [->|[->|[->|[]]]].
  - split; [|split].
    + destruct n as [|c n]; [done|]. cbn [all_digits] in Hall.
      apply andb_prop in Hall as [Hc Hall].
      apply split_first_word; [by apply digit_not_space|by apply span_word_digits].
    + left. unfold ability_key_of. by rewrite digits_not_A, Hn.
    + by destruct n.
  - split; [|split].
    + apply (split_first_word "A" n text); [done|by apply span_word_digits].
    + right. unfold ability_key_of. change (upper ("A" +:+ n)) with (String "A" (upper n)).
      rewrite (proj2 (startswith_A _)) by (by eexists).
      cbn [tail1 andb]. by rewrite upper_digits, Hn.
    + done.
  - split; [|split].
    + apply (split_first_word "a" n text); [done|by apply span_word_digits].
    + right. unfold ability_key_of. change (upper ("a" +:+ n)) with (String "A" (upper n)).
      rewrite (proj2 (startswith_A _)) by (by eexists).
      cbn [tail1 andb]. by rewrite upper_digits, Hn.
    + done.
Qed.

(** A use of an ability that was given, under any spelling of its number. *)
Lemma use_registers abilities rc key cat_typed uses_typed abilities' K cat u
    teams st tk text now author :
  give_ability abilities rc key cat_typed uses_typed = (abilities', Assigned K cat u) →
  tk ∈ [num_part K; "A" +:+ num_part K; "a" +:+ num_part K] →
  use abilities' teams st rc (Some (tk +:+ " " +:+ text)) now author
  = Some (submit st rc K (Some cat) (teams !! rc) now
            (or_str (lstrip text) (tk +:+ " " +:+ text)) author,
          Registered K).
Proof.
  intros (HK & Hn & Hshape & Hcat & Hu & Hall & ->)%give_ability_assigned Htk.
  destruct (split_first_spelling _ tk text Hn Htk) as (Hsplit & Hkey & Hne).
  unfold use. cbn [default from_option id].
  rewrite bool_decide_eq_false_2 by done. rewrite Hsplit. cbn [option_map].
  rewrite lookup_insert_eq. cbn [default from_option id].
  assert (∃ ak, ability_key_of tk = Some ak ∧
                (ak = num_part K ∨ ak = String "A" (num_part K))) as (ak & -> & Hak).
  { destruct Hkey as [-> | ->]; eauto. }
  rewrite (lookup_either_spelling _ K (num_part K) _ ak) by done.
  cbn [category]. do 3 f_equal. unfold or_str at 2.
  by rewrite bool_decide_eq_false_2.
Qed.

(** X24: an ability that [give_ability] has assigned is found by the use
    command under either spelling of its number: the number alone, or the
    number after the letter A in either case. The use that is queued
    carries the stored key and the stored category, which is one of the
    categories of the configuration, and the team of the channel. *)
Theorem X24_use_finds_either_spelling
    (abilities abilities' : gmap Z (list (string * AbilityDef)))
    (rc : Z) (key cat_typed uses_typed K cat u : string)
    (teams : gmap Z string) (st : State) (tk text : string) (now author : Z) :
  give_ability abilities rc key cat_typed uses_typed = (abilities', Assigned K cat u) →
  tk ∈ [num_part K; "A" +:+ num_part K; "a" +:+ num_part K] →
  K = upper key ∧ cat ∈ ABILITY_CATEGORIES ∧
  use abilities' teams st rc (Some (tk +:+ " " +:+ text)) now author
  = Some (submit st rc K (Some cat) (teams !! rc) now
            (or_str (lstrip text) (tk +:+ " " +:+ text)) author,
          Registered K).
Proof.
  intros Hgive Htk.
  pose proof (give_ability_assigned _ _ _ _ _ _ _ _ _ Hgive) as (HK & _ & _ & Hcat & _).
  split; [done|]. split; [done|]. by eapply use_registers.
Qed.

(** X24 at work: the ability a1 is given to channel 5 as a lethal one, and
    used as 1. *)
Lemma X24_use_finds_either_spelling_witness :
  (use (give_ability ∅ 5 "a1" "lethal" "2N").1 ∅ Examples.session 5
       (Some "1 on the baker") 400 11)
  = Some (submit Examples.session 5 "A1" (Some "Lethal") None 400
            "on the baker" 11, Registered "A1").
Proof.
  refine (proj2 (proj2 (X24_use_finds_either_spelling ∅
            (give_ability ∅ 5 "a1" "lethal" "2N").1 5 "a1" "lethal" "2N"
            "A1" "Lethal" "2n" ∅ Examples.session "1" "on the baker" 400 11 _ _)));
    [vm_compute; reflexivity|].
  apply (proj2 (elem_of_cons _ _ _)). left. reflexivity.
Defined.

End AbilityKeys.

(** ** Abilities: spelling, case and categories *)
Section AbilityRegistry.
Import PyStr ActionQueue BlockCommands Abilities.

(** X25: a block holds a use back only when it is set under the stored
    spelling of the ability. After [give_ability] has stored the key, a use
    under any spelling is queued under the stored key, and a block set
    meanwhile under a key blocks that use exactly when the key, in upper
    case, is the stored key: a block of 1 does not hold back the ability
    stored as A1. *)
Theorem X25_block_needs_stored_spelling
    (abilities abilities' : gmap Z (list (string * AbilityDef)))
    (rc : Z) (key cat_typed uses_typed K cat u : string)
    (teams : gmap Z string) (st : State) (tk text : string) (now author : Z)
    (bk : string) (until : option string) (boundary bnow : string) :
  give_ability abilities rc key cat_typed uses_typed = (abilities', Assigned K cat u) →
  tk ∈ [num_part K; "A" +:+ num_part K; "a" +:+ num_part K] →
  roleblocks st !! rb_key rc K = None →
  ∃ st2 p,
    use abilities' teams (block_ability st rc bk until boundary bnow) rc
        (Some (tk +:+ " " +:+ text)) now author = Some (st2, Registered K) ∧
    pending_abilities st2 = (pending_abilities st ++ [p])%list ∧
    channel_id p = rc ∧ ability p = K ∧
    (ability_blocked (roleblocks st2) p = true ↔ upper bk = K).
Proof.
  intros Hgive Htk Hfree.
  rewrite (use_registers _ _ _ _ _ _ _ _ _ teams
             (block_ability st rc bk until boundary bnow) tk text now author
             Hgive Htk).
  eexists _, _. split; [done|]. cbn [submit pending_abilities roleblocks].
  split; [done|]. cbn [channel_id ability]. split; [done|]. split; [done|].
  pose proof (block_ability_spec st rc bk until boundary bnow) as (Hyes & Hno & _).
  cbv zeta in Hyes, Hno.
  match goal with |- ability_blocked _ ?p = true ↔ _ => set (q := p) end.
  destruct (decide (upper bk = K)) as [Heq|Hne].
  - split; [done|]. intros _. by apply Hyes.
  - split; [|done]. rewrite Hno by (right; simpl; congruence).
    rewrite ability_blocked_lookup. simpl. rewrite Hfree.
    rewrite bool_decide_eq_false_2; [done|]. by intros [? ?].
Qed.

(** X25 at work: the ability stored as A1 in channel 5, blocked as 1. *)
Lemma X25_block_needs_stored_spelling_witness :
  ∃ st2 p,
    use (give_ability ∅ 5 "a1" "lethal" "2N").1 ∅
        (block_ability (with_roleblocks Examples.session ∅) 5 "1" None "end" "t")
        5 (Some ("1" +:+ " " +:+ "on the baker")) 400 11
    = Some (st2, Registered "A1") ∧
    pending_abilities st2
    = (pending_abilities (with_roleblocks Examples.session ∅) ++ [p])%list ∧
    channel_id p = 5 ∧ ability p = "A1" ∧
    (ability_blocked (roleblocks st2) p = true ↔ upper "1" = "A1").
Proof.
  refine (X25_block_needs_stored_spelling ∅
            (give_ability ∅ 5 "a1" "lethal" "2N").1 5 "a1" "lethal" "2N"
            "A1" "Lethal" "2n" ∅ (with_roleblocks Examples.session ∅)
            "1" "on the baker" 400 11 "1" None "end" "t" _ _ _);
    [vm_compute; reflexivity| |reflexivity].
  apply (proj2 (elem_of_cons _ _ _)). left. reflexivity.
Defined.

Lemma dict_get_put {A} k k' (v : A) d :
  dict_get k' (dict_put k v d) = if bool_decide (k = k') then Some v else dict_get k' d.
Proof.
  induction d as [|[k0 v0] d IH]; simpl.
  - by case_bool_decide.
  - destruct (decide (k0 = k)) as [->|Hne].
    + rewrite bool_decide_eq_true_2 by done. simpl. by case_bool_decide.
    + rewrite bool_decide_eq_false_2 by done. simpl. rewrite IH.
      case_bool_decide; [|done]. subst. by rewrite bool_decide_eq_false_2.
Qed.

Lemma dict_put_keys {A} k (v : A) d :
  is_Some (dict_get k d) → (dict_put k v d).*1 = d.*1.
Proof.
  induction d as [|[k0 v0] d IH]; cbn [dict_get dict_put]; [by intros [? ?]|].
  case_bool_decide as Hk; [intros _; subst; by rewrite !fmap_cons|].
  intros H. rewrite !fmap_cons. f_equal. by apply IH.
Qed.

(** X26: [update_ability] stores the new category as it is typed. It does
    not check it against the categories of the configuration and does not
    map aliases or case as [give_ability] does; the uses, the order of the
    keys and every other ability stay as they were. A use of the ability
    then has a priority below 99 only for a category that is spelled exactly
    as one of the seven names of the priority table. *)
Theorem X26_update_stores_category_as_typed
    (abilities abilities' : gmap Z (list (string * AbilityDef)))
    (rc : Z) (key c : string) :
  update_ability abilities rc key c = Some abilities' →
  let before := default [] (abilities !! rc) in
  let after := default [] (abilities' !! rc) in
  (∃ def, dict_get (upper key) before = Some def ∧
          dict_get (upper key) after
          = Some {| category := c; uses := uses def;
                    owner_channel := owner_channel def |}) ∧
  after.*1 = before.*1 ∧
  (∀ k, k ≠ upper key → dict_get k after = dict_get k before) ∧
  (∀ rc', rc' ≠ rc → abilities' !! rc' = abilities !! rc') ∧
  (priority (Some c) < 99 ↔
     c ∈ ["Manipulation"; "Blocking"; "Protection"; "Curing"; "Lethal";
          "Other"; "Transport"]).
Proof.
  unfold update_ability.
  destruct (dict_get (upper key) (default [] (abilities !! rc))) as [def|] eqn:Eg;
    [|done].
  intros [= <-]. cbv zeta. rewrite lookup_insert_eq. cbn [default from_option id].
  split; [|split; [|split; [|split]]].
  - exists def. split; [done|]. by rewrite dict_get_put, bool_decide_eq_true_2.
  - apply dict_put_keys. by rewrite Eg.
  - intros k Hk. by rewrite dict_get_put, bool_decide_eq_false_2.
  - intros rc' Hne. by rewrite lookup_insert_ne.
  - unfold priority. rewrite !elem_of_cons, elem_of_nil.
    repeat (case_bool_decide; [split; [auto 10|intros _; lia]|]).
    split; [lia|]. intros Hin. repeat (destruct Hin as [?|Hin]; [done|]). done.
Qed.

(** X26 at work: the lethal ability A1 of channel 5 is updated to the
    category typed in lower case. *)
Lemma X26_update_stores_category_as_typed_witness :
  priority (Some "lethal") < 99 ↔
  "lethal" ∈ ["Manipulation"; "Blocking"; "Protection"; "Curing"; "Lethal";
              "Other"; "Transport"].
Proof.
  refine (proj2 (proj2 (proj2 (proj2
    (X26_update_stores_category_as_typed
       (give_ability ∅ 5 "a1" "lethal" "2N").1
       (default ∅ (update_ability (give_ability ∅ 5 "a1" "lethal" "2N").1
                     5 "a1" "lethal"))
       5 "a1" "lethal" _))))).
  vm_compute. reflexivity.
Defined.

Lemma upper_char_idem c : upper_char (upper_char c) = upper_char c.
Proof. destruct c as [[|] [|] [|] [|] [|] [|] [|] [|]]; reflexivity. Qed.

Lemma lower_upper_char c : lower_char (upper_char c) = lower_char c.
Proof. destruct c as [[|] [|] [|] [|] [|] [|] [|] [|]]; reflexivity. Qed.

Lemma upper_lower_char c : upper_char (lower_char c) = upper_char c.
Proof. destruct c as [[|] [|] [|] [|] [|] [|] [|] [|]]; reflexivity. Qed.

Lemma cased_upper_char c :
  is_upper (upper_char c) || is_lower (upper_char c) = is_upper c || is_lower c.
Proof. destruct c as [[|] [|] [|] [|] [|] [|] [|] [|]]; reflexivity. Qed.

Lemma title_from_upper b s : title_from b (upper s) = title_from b s.
Proof.
  revert b. induction s as [|c s IH]; intros b; [done|]. cbn [upper title_from].
  by rewrite cased_upper_char, IH, lower_upper_char, upper_char_idem.
Qed.

Lemma lower_upper s : lower (upper s) = lower s.
Proof.
  induction s as [|c s IH]; [done|]. cbn [upper lower].
  by rewrite lower_upper_char, IH.
Qed.

Lemma upper_lower s : upper (lower s) = upper s.
Proof.
  induction s as [|c s IH]; [done|]. cbn [upper lower].
  by rewrite upper_lower_char, IH.
Qed.

(** X27: [give_ability] reads its three texts without regard to the case
    of the letters: two calls whose keys, categories and uses differ in
    case only give the same registry and the same answer. In particular the
    arguments may all be given in upper case or all in lower case. *)
Theorem X27_give_ability_ignores_case
    (abilities : gmap Z (list (string * AbilityDef))) (rc : Z)
    (key cat_typed uses_typed key' cat_typed' uses_typed' : string) :
  upper key' = upper key → upper cat_typed' = upper cat_typed →
  upper uses_typed' = upper uses_typed →
  give_ability abilities rc key' cat_typed' uses_typed'
  = give_ability abilities rc key cat_typed uses_typed.
Proof.
  intros Hk Hc Hu. unfold give_ability. rewrite Hk, Hc.
  replace (title cat_typed') with (title cat_typed).
  2:{ unfold title. by rewrite <- (title_from_upper _ cat_typed), <- Hc, title_from_upper. }
  replace (lower uses_typed') with (lower uses_typed).
  2:{ by rewrite <- (lower_upper uses_typed), <- Hu, lower_upper. }
  done.
Qed.

(** X27 at work: the arguments in lower case and in upper case. *)
Lemma X27_give_ability_ignores_case_witness :
  give_ability ∅ 5 (lower "a1") (lower "Lethal") (lower "2N")
  = give_ability ∅ 5 (upper "a1") (upper "Lethal") (upper "2N").
Proof.
  apply X27_give_ability_ignores_case; vm_compute; reflexivity.
Defined.

(** X28: the number of an ability is unique in its channel, whatever the
    spelling. After [give_ability] has stored a key, a second call for the
    same number, with or without the letter A, never stores anything;
    [remove_ability] under the key takes the ability out again and leaves
    the abilities the channel had before, in their order, after which the
    number can be given again. *)
Theorem X28_ability_numbers_are_unique
    (abilities abilities' : gmap Z (list (string * AbilityDef)))
    (rc : Z) (key cat_typed uses_typed K cat u : string) :
  give_ability abilities rc key cat_typed uses_typed = (abilities', Assigned K cat u) →
  (∀ key2 cat2 uses2,
     num_part (upper key2) = num_part K →
     (give_ability abilities' rc key2 cat2 uses2).1 = abilities' ∧
     (give_ability abilities' rc key2 cat2 uses2).2
     ∈ [BadNumber; InvalidCategory; AlreadyAssigned (num_part K) K]) ∧
  remove_ability abilities' rc key
  = Some (<[rc := default [] (abilities !! rc)]> abilities) ∧
  give_ability (<[rc := default [] (abilities !! rc)]> abilities) rc key
               cat_typed uses_typed
  = (abilities', Assigned K cat u).
Proof.
  intros Hgive.
  pose proof (give_ability_assigned _ _ _ _ _ _ _ _ _ Hgive)
    as (HK & Hn & Hshape & Hcat & Hu & Hall & Hab).
  cbv zeta in *.
  assert (K ∉ (default [] (abilities !! rc)).*1) as Hnew.
  { intros Hin. rewrite Forall_forall in Hall. by apply (Hall K Hin). }
  split; [|split].
  - intros key2 cat2 uses2 Hnum. unfold give_ability.
    destruct (negb _ && negb _); [split; [done|]; (rewrite !elem_of_cons; auto)|].
    destruct (negb (bool_decide _)); [split; [done|]; (rewrite !elem_of_cons; auto)|].
    cbv zeta. rewrite Hab, lookup_insert_eq. cbv beta iota.
    rewrite lookup_insert_eq. cbn [default from_option id].
    rewrite Hnum, fmap_app. cbn [fmap list_fmap fst].
    rewrite find_app_new; [split; [done|]; (rewrite !elem_of_cons; auto)| |by apply bool_decide_eq_true_2].
    eapply Forall_impl; [exact Hall|]. intros k Hk. by apply bool_decide_eq_false_2.
  - unfold remove_ability. rewrite Hab, lookup_insert_eq, <- HK.
    rewrite dict_get_app_new by done. rewrite insert_insert_eq.
    by rewrite dict_del_app_new.
  - clear HK Hn Hshape Hcat Hu Hall Hab Hnew. revert Hgive. unfold give_ability.
    destruct (negb _ && negb _); [done|]. destruct (negb (bool_decide _)); [done|].
    cbv zeta. rewrite lookup_insert_eq. cbv beta iota. rewrite lookup_insert_eq.
    destruct (abilities !! rc) as [chmap|] eqn:E; cbn [default from_option id].
    + rewrite E. cbn [default from_option id].
      destruct (List.find _ _); [done|]. intros [= <- <- <- <-].
      by rewrite insert_insert_eq.
    + rewrite lookup_insert_eq. cbn [default from_option id].
      destruct (List.find _ _); [done|]. by intros [= <- <- <- <-].
Qed.

(** X28 at work: A1 is given to channel 5, and 1 is then refused. *)
Lemma X28_ability_numbers_are_unique_witness :
  (give_ability (give_ability ∅ 5 "a1" "lethal" "2N").1 5 "1" "cure" "1").1
  = (give_ability ∅ 5 "a1" "lethal" "2N").1.
Proof.
  refine (proj1 (proj1 (X28_ability_numbers_are_unique ∅
            (give_ability ∅ 5 "a1" "lethal" "2N").1 5 "a1" "lethal" "2N"
            "A1" "Lethal" "2n" _) "1" "cure" "1" _));
    vm_compute; reflexivity.
Defined.

End AbilityRegistry.

(** ** The reset of the phase counter *)
Section PhaseReset.
Import PyStr ActionQueue Phases PhaseCommands.

Lemma process_phase_change_idem rb s :
  process_phase_change (process_phase_change rb s) s = process_phase_change rb s.
Proof.
  destruct (_phase_epoch s) as [e|] eqn:E.
  - apply map_eq. intros k.
    rewrite (process_phase_change_lookup _ s e k E).
    rewrite (process_phase_change_lookup rb s e k E).
    rewrite (sweep_key_local e _ (sweep_key e rb k) k
               (process_phase_change_lookup rb s e k E)).
    by apply sweep_key_twice.
  - unfold process_phase_change. by rewrite E.
Qed.

(** X29: [phase_reset] puts the counter of the guild back to 1 and keeps
    the token. The action queue is told the new display string, so that
    the blocks are swept once at that phase; the queue of uses, the visit
    inventories of the channels and the store of the visit cog are left as
    they are (no refill takes place), the other guilds keep their records,
    and a second reset changes nothing more. *)
Theorem X29_phase_reset (b : Bot) (guild_id : Z) :
  let '(tok, n) := _get_phase_record (phases b) guild_id in
  let r := phase_reset b guild_id in
  _get_phase_record (phases r.1) guild_id = (tok, 1) ∧
  r.2 = PhaseSet (display tok 1) ∧
  visit_count r.1 = visit_count b ∧
  pending_abilities (action_queue r.1) = pending_abilities (action_queue b) ∧
  visits (action_queue r.1) = visits (action_queue b) ∧
  current_phase (action_queue r.1) = display tok 1 ∧
  roleblocks (action_queue r.1)
  = process_phase_change (roleblocks (action_queue b)) (display tok 1) ∧
  (∀ g', g' ≠ guild_id →
         _get_phase_record (phases r.1) g' = _get_phase_record (phases b) g') ∧
  phase_reset r.1 guild_id = r.
Proof.
  destruct (_get_phase_record (phases b) guild_id) as [tok n] eqn:E.
  intros r. subst r. unfold phase_reset. cbv zeta. cbn [fst snd].
  assert (reset_phase_count (phases b) guild_id
          = <[str_of_int guild_id := {| phase := tok; count := 1 |}]> (phases b)) as Hr.
  { unfold reset_phase_count. by rewrite E. }
  assert (_get_phase_record (reset_phase_count (phases b) guild_id) guild_id
          = (tok, 1)) as Hrec.
  { rewrite Hr. unfold _get_phase_record. by rewrite lookup_insert_eq. }
  assert (_get_phase_for_guild (reset_phase_count (phases b) guild_id) guild_id
          = display tok 1) as Hdisp.
  { by apply get_phase_for_guild_record. }
  rewrite Hdisp. cbn [phases action_queue visit_count].
  assert (reset_phase_count (reset_phase_count (phases b) guild_id) guild_id
          = reset_phase_count (phases b) guild_id) as Hidem.
  { unfold reset_phase_count at 1. rewrite Hrec, Hr. by rewrite insert_insert_eq. }
  repeat split; try done.
  - intros g' Hne. rewrite Hr. unfold _get_phase_record.
    rewrite lookup_insert_ne; [done|]. intros H. by apply str_of_int_inj in H.
  - rewrite Hidem, Hdisp. unfold ActionQueue.set_phase.
    cbn [pending_abilities current_phase visits roleblocks].
    by rewrite process_phase_change_idem.
Qed.

End PhaseReset.

(** ** The inventories over a resolve cycle *)
Section CycleInventories.
Import PyStr ActionQueue BlockCommands.















End CycleInventories.

(** ** The strings that have an epoch *)
Section EpochDomain.
Import PyStr ActionQueue Phases.

Lemma lower_char_space c : is_space (lower_char c) = is_space c.
Proof. destruct c as [[|] [|] [|] [|] [|] [|] [|] [|]]; reflexivity. Qed.

Lemma lower_char_newline c : lower_char c = "010"%char → c = "010"%char.
Proof.
  destruct c as [[|] [|] [|] [|] [|] [|] [|] [|]]; vm_compute; congruence.
Qed.

Lemma lower_char_dn c :
  Ascii.eqb (lower_char c) "d" || Ascii.eqb (lower_char c) "n" = true →
  c ∈ ["d"; "n"; "D"; "N"]%char.
Proof.
  destruct c as [[|] [|] [|] [|] [|] [|] [|] [|]]; intros H; vm_compute in H;
    try discriminate; rewrite !elem_of_cons; auto.
Qed.

Lemma all_space_lower s : all_space (lower s) = all_space s.
Proof.
  induction s as [|c s IH]; [done|]. cbn [lower all_space].
  by rewrite lower_char_space, IH.
Qed.

Lemma lstrip_lower s : lstrip (lower s) = lower (lstrip s).
Proof.
  induction s as [|c s IH]; [done|]. cbn [lower lstrip].
  rewrite lower_char_space. by destruct (is_space c).
Qed.

Lemma span_digits_lower s :
  span_digits (lower s) = ((span_digits s).1, lower (span_digits s).2).
Proof.
  induction s as [|c s IH]; [done|]. cbn [lower span_digits].
  rewrite lower_char_digit. destruct (is_digit c) eqn:Hc; [|done].
  rewrite IH, (lower_char_digit_id c Hc). by destruct (span_digits s).
Qed.

Lemma lstrip_decomp s : ∃ ws, s = ws +:+ lstrip s ∧ all_space ws = true.
Proof.
  induction s as [|c s (ws & Hs & Hws)]; [by exists ""|]. cbn [lstrip].
  destruct (is_space c) eqn:Hc; [|by exists ""].
  exists (String c ws). rewrite append_cons, <- Hs. split; [done|].
  cbn [all_space]. by rewrite Hc.
Qed.

Lemma lstrip_app_space ws s : all_space ws = true → lstrip (ws +:+ s) = lstrip s.
Proof.
  induction ws as [|c ws IH]; [done|]. cbn [all_space].
  intros [Hc Hws]%andb_prop. rewrite append_cons. cbn [lstrip]. rewrite Hc. auto.
Qed.

Lemma lower_nil s : lower s = "" → s = "".
Proof. by destruct s. Qed.

Lemma lower_newline s : lower s = String "010" "" → s = String "010" "".
Proof.
  destruct s as [|c s]; [done|]. cbn [lower].
  intros [= Hc Hs]. by rewrite (lower_char_newline c Hc), (lower_nil s Hs).
Qed.

Lemma rstrip_nil s : rstrip s = "" → all_space s = true.
Proof.
  destruct s as [|c s]; [done|].
  change (rstrip (String c s))
    with (if all_space (String c s) then "" else String c (rstrip s)).
  by destruct (all_space (String c s)).
Qed.

(** What [rstrip] leaves does not end with white space. *)
Lemma rstrip_last s : ∀ x c, rstrip s = x +:+ String c "" → is_space c = false.
Proof.
  induction s as [|a s IH]; intros x c.
  { by destruct x. }
  change (rstrip (String a s))
    with (if all_space (String a s) then "" else String a (rstrip s)).
  destruct (all_space (String a s)) eqn:Ha; [by destruct x|].
  destruct x as [|b x].
  - intros [= <- Hs]. apply rstrip_nil in Hs. cbn [all_space] in Ha.
    rewrite Hs, andb_true_r in Ha. done.
  - rewrite append_cons. intros [= _ Hs]. by apply (IH x c).
Qed.

(** The short form, as the regular expression of the cog reads it: the
    letter d or n in either case, white space or none, and a number. *)
Lemma short_epoch_form s :
  is_Some (short_epoch (lower (strip s))) →
  ∃ c ws ds, strip s = String c (ws +:+ ds) ∧ c ∈ ["d"; "n"; "D"; "N"]%char ∧
             all_space ws = true ∧ isdigit ds = true.
Proof.
  unfold short_epoch, match_short.
  destruct (strip s) as [|c r] eqn:Es; [by intros [? ?]|]. cbn [lower].
  destruct (Ascii.eqb (lower_char c) "d" || Ascii.eqb (lower_char c) "n") eqn:Hc;
    [|by intros [? ?]].
  apply lower_char_dn in Hc. unfold match_number.
  rewrite lstrip_lower, span_digits_lower.
  destruct (lstrip_decomp r) as (ws & Hr & Hws).
  pose proof (span_digits_app (lstrip r)) as Happ.
  pose proof (span_digits_all (lstrip r)) as Hall.
  destruct (span_digits (lstrip r)) as [ds rest]. cbn [fst snd] in *.
  destruct ds as [|d ds]; [by intros [? ?]|].
  destruct (bool_decide (lower rest = "") || bool_decide (lower rest = String "010" ""))
    eqn:Hrest; [|by intros [? ?]].
  intros _. apply orb_prop in Hrest as [Hrest|Hrest]; apply bool_decide_eq_true in Hrest.
  - apply lower_nil in Hrest. subst rest. rewrite append_nil_r in Happ.
    exists c, ws, (String d ds). rewrite Hr, <- Happ. by repeat split.
  - apply lower_newline in Hrest. subst rest. exfalso.
    assert (rstrip (lstrip s) = String c (ws +:+ String d ds) +:+ String "010" "") as Hst.
    { fold (strip s). rewrite Es, Hr, <- Happ.
      rewrite <- append_assoc. reflexivity. }
    by apply rstrip_last in Hst.
Qed.

Lemma short_form_epoch c ws ds :
  c ∈ ["d"; "n"; "D"; "N"]%char → all_space ws = true → isdigit ds = true →
  is_Some (short_epoch (lower (String c (ws +:+ ds)))).
Proof.
  intros Hc Hws Hds.
  assert (all_digits ds = true ∧ ds ≠ "") as [Ha Hne] by (by destruct ds).
  assert (match_number (lower ws +:+ ds) = Some ds) as Hm.
  { unfold match_number.
    rewrite lstrip_app_space by (by rewrite all_space_lower).
    rewrite lstrip_digits, span_digits_digits by done. by destruct ds. }
  destruct (int_digits ds Ha Hne) as [num Hnum].
  cbn [lower]. rewrite lower_app, (lower_digits ds Ha).
  unfold short_epoch, match_short.
  rewrite !elem_of_cons, elem_of_nil in Hc.
  destruct Hc as [->|[->|[->|[->|[]]]]];
    change (lower_char "d") with "d"%char; change (lower_char "n") with "n"%char;
    change (lower_char "D") with "d"%char; change (lower_char "N") with "n"%char;
    cbn [Ascii.eqb Bool.eqb orb]; rewrite Hm, Hnum; by eexists.
Qed.

(** The strings that have an epoch: those whose second word is a number,
    and the short forms. *)
Lemma phase_epoch_domain s :
  is_Some (_phase_epoch s) ↔
  (∃ p0 p1 ps, split (strip s) = p0 :: p1 :: ps ∧ isdigit p1 = true) ∨
  (∃ c ws ds, strip s = String c (ws +:+ ds) ∧ c ∈ ["d"; "n"; "D"; "N"]%char ∧
              all_space ws = true ∧ isdigit ds = true).
Proof.
  unfold _phase_epoch. split.
  - case_bool_decide as Hs; [by intros [? ?]|].
    destruct (split (strip s)) as [|p0 [|p1 ps]] eqn:E;
      try (intros H; right; by apply short_epoch_form).
    destruct (isdigit p1) eqn:Hd; [intros _; left; by eexists _, _, _|].
    intros H; right; by apply short_epoch_form.
  - assert (∀ p1, isdigit p1 = true → is_Some (int p1)) as Hint.
    { intros p1 Hd. apply int_digits; by destruct p1. }
    intros [(p0 & p1 & ps & E & Hd)|(c & ws & ds & E & Hc & Hws & Hd)].
    + rewrite bool_decide_eq_false_2 by (intros ->; done).
      rewrite E, Hd. destruct (Hint p1 Hd) as [num ->]. by eexists.
    + rewrite bool_decide_eq_false_2 by (intros ->; done).
      pose proof (short_form_epoch c ws ds Hc Hws Hd) as Hshort.
      rewrite E. rewrite <- E at 1.
      destruct (split (strip s)) as [|p0 [|p1 ps]]; try done.
      destruct (isdigit p1) eqn:Hd1; [|done].
      destruct (Hint p1 Hd1) as [num ->]. by eexists.
Qed.

(** The short tokens, as an administrator types them. *)
Lemma phase_epoch_short c n :
  0 ≤ n → c ∈ ["d"; "n"; "D"; "N"]%char →
  _phase_epoch (String c (str_of_int n))
  = Some (epoch_of (bool_decide (c ∈ ["d"; "D"]%char)) n).
Proof.
  intros Hn Hc. destruct (str_of_int_digits n Hn) as [Ha He].
  assert (is_space c = false ∧ lower_char c = (if bool_decide (c ∈ ["d"; "D"]%char)
                                               then "d" else "n")%char) as [Hsp Hlow].
  { rewrite !elem_of_cons, elem_of_nil in Hc.
    by destruct Hc as [->|[->|[->|[->|[]]]]]. }
  assert (strip (String c (str_of_int n)) = String c (str_of_int n)) as Hstrip.
  { unfold strip. cbn [lstrip]. rewrite Hsp.
    apply (rstrip_app_digits (String c "") (str_of_int n) Ha He). }
  assert (split (String c (str_of_int n)) = [String c (str_of_int n)]) as Hsplit.
  { unfold split. cbn [split_from]. rewrite Hsp.
    apply (split_from_digits (String c "") (str_of_int n) Ha). }
  unfold _phase_epoch. rewrite bool_decide_eq_false_2 by done.
  rewrite Hstrip, Hsplit. cbn [lower]. rewrite (lower_digits _ Ha), Hlow.
  unfold short_epoch, match_short.
  destruct (bool_decide (c ∈ ["d"; "D"]%char));
    cbn [Ascii.eqb Bool.eqb orb]; by rewrite match_number_str, int_str_of_int.
Qed.

(** C7 (amended): for every n >= 1 the display string of day n has the epoch
    2(n-1) and the one of night n the epoch 2(n-1)+1, so that the epoch of
    day n is below the one of night n, itself below the one of day n+1; the
    display strings of pregame and postgame have no epoch. The short tokens
    d<n> and n<n>, the letter in either case, have the epochs of day n and
    night n. An ASCII string of at most 4300 characters (what [int] converts)
    has an epoch exactly when, once stripped, its second word is a number,
    or it is made of the letter d or n in either case, white space or none,
    and a number; so pregame 3 has the epoch of night 3. *)
Theorem C7_epoch_mapping (n : Z) :
  1 ≤ n →
  _phase_epoch (display "day" n) = Some (2 * (n - 1)) ∧
  _phase_epoch (display "night" n) = Some (2 * (n - 1) + 1) ∧
  (∀ e1 e2 e3,
     _phase_epoch (display "day" n) = Some e1 →
     _phase_epoch (display "night" n) = Some e2 →
     _phase_epoch (display "day" (n + 1)) = Some e3 →
     e1 < e2 < e3) ∧
  _phase_epoch (display "pregame" n) = None ∧
  _phase_epoch (display "postgame" n) = None ∧
  (∀ c, c ∈ ["d"; "D"]%char →
        _phase_epoch (String c (str_of_int n)) = _phase_epoch (display "day" n)) ∧
  (∀ c, c ∈ ["n"; "N"]%char →
        _phase_epoch (String c (str_of_int n)) = _phase_epoch (display "night" n)) ∧
  _phase_epoch "pregame 3" = _phase_epoch (display "night" 3) ∧
  (∀ s, isascii s = true → (String.length s ≤ 4300)%nat →
     (is_Some (_phase_epoch s) ↔
      (∃ p0 p1 ps, split (strip s) = p0 :: p1 :: ps ∧ isdigit p1 = true) ∨
      (∃ c ws ds, strip s = String c (ws +:+ ds) ∧
                  c ∈ ["d"; "n"; "D"; "N"]%char ∧
                  all_space ws = true ∧ isdigit ds = true))).
Proof.
  intros Hn.
  change (display "day" n) with ("Day " +:+ str_of_int n).
  change (display "night" n) with ("Night " +:+ str_of_int n).
  change (display "day" (n + 1)) with ("Day " +:+ str_of_int (n + 1)).
  rewrite phase_epoch_day, phase_epoch_night, phase_epoch_day by lia.
  split; [f_equal; lia|]. split; [f_equal; lia|].
  split; [intros e1 e2 e3 [= <-] [= <-] [= <-]; lia|].
  split; [reflexivity|]. split; [reflexivity|].
  split; [|split; [|split; [reflexivity|]]].
  - intros c Hc. rewrite phase_epoch_short by (rewrite ?elem_of_cons in *; tauto || lia).
    rewrite bool_decide_eq_true_2 by done. unfold epoch_of. f_equal. lia.
  - intros c Hc. rewrite phase_epoch_short by (rewrite ?elem_of_cons in *; tauto || lia).
    rewrite bool_decide_eq_false_2; [done|].
    rewrite !elem_of_cons, elem_of_nil in *.
    intros [->|[->|[]]]; destruct Hc as [?|[?|[]]]; done.
  - intros s _ _. apply phase_epoch_domain.
Qed.

(** C7 at n = 3. *)
Lemma C7_epoch_mapping_witness :
  1 ≤ 3 ∧
  _phase_epoch (display "day" 3) = Some (2 * (3 - 1)) ∧
  _phase_epoch (display "night" 3) = Some (2 * (3 - 1) + 1) ∧
  _phase_epoch "n3" = _phase_epoch (display "night" 3).
Proof.
  pose proof (C7_epoch_mapping 3 ltac:(lia)) as (H1 & H2 & _ & _ & _ & _ & H7 & _).
  split; [lia|]. split; [exact H1|]. split; [exact H2|].
  apply (H7 "n"%char). rewrite !elem_of_cons. by left.
Defined.

End EpochDomain.
